(** * AI-BROWSER: plan executor and MCP bridge client

    A shallow embedding of the background service worker's [executePlan]
    (tool-name resolution, argument normalisation, dispatch policy, fail-fast
    loop) and of the [MCPBridge] WebSocket client (status machine, pending
    request table, timers), followed by the properties established for them.

    Conventions of the embedding.
    - JavaScript values that reach the executor come from [JSON.parse]; they
      are modelled by [Value].  Numbers are the integer-valued ones: [VNum n]
      is the number the literal [n] denotes, that is the double nearest to
      [n] (their only uses in the code are truthiness and [String(..)]).
      Strings are byte strings holding UTF-8 (a byte 160 outside a code
      point is read as U+00A0); the code compares them with ASCII literals
      only, tests a length for zero only, and reads no index of a string
      that comes from JSON.
    - Property reads follow JavaScript for own properties, array/string
      indices and [length]; the property names read by the code are not
      defined on the built-in prototypes.  An object made by [JSON.parse]
      holds no function: [String(v)] throws a [TypeError] on an object with
      an own [toString] ([String_throws]).
    - The browser, the content scripts and the remote MCP server are an
      abstract world [W] reached through the functions of [Backends]; the tab
      queries answer without failing.
    - [notifyPopup] appends to a log of notices and does not throw.  A
      notice holds the plan entry as it is when the notice is sent: the
      normalisation of the arguments may write into the entry
      ([afterNormalize]).
    - The bridge is a state machine over its fields and the part of the
      runtime it acts on (armed timers, promises, sockets); each input (a
      method call, a socket event, a timer firing) runs to completion.
      Status and notification listeners are observers: being called is
      recorded, and they do not call back into the bridge. *)

From Stdlib Require Import ZArith Ascii String.
From stdpp Require Import base option list gmap strings pretty.

#[local] Set Warnings "-register-all".
#[local] Open Scope string_scope.

(* ===================================================================== *)
(** ** JavaScript values                                                  *)
(* ===================================================================== *)

Module JS.

Inductive Value : Type :=
| VUndef
| VNull
| VBool (b : bool)
| VNum (n : Z)
| VStr (s : string)
| VObj (o : gmap string Value)
| VArr (els : list Value) (props : gmap string Value).

(** [Boolean(v)] / the test of [if (v)], [!v], [a || b]. *)
Definition truthy (v : Value) : bool :=
  match v with
  | VUndef | VNull => false
  | VBool b => b
  | VNum n => negb (n =? 0)%Z
  | VStr s => negb (String.eqb s "")
  | VObj _ | VArr _ _ => true
  end.

(** [a || b] *)
Definition js_or (a b : Value) : Value := if truthy a then a else b.

(** [v === undefined] *)
Definition is_undef (v : Value) : bool :=
  match v with VUndef => true | _ => false end.

(** [v == null], the test behind [??] and [?.] *)
Definition nullish (v : Value) : bool :=
  match v with VUndef | VNull => true | _ => false end.

(** [a ?? b] *)
Definition js_coalesce (a b : Value) : Value := if nullish a then b else a.

(** [typeof v === 'object'] (true of [null] as well) *)
Definition typeof_object (v : Value) : bool :=
  match v with VNull | VObj _ | VArr _ _ => true | _ => false end.

(** [typeof v === 'string'] *)
Definition typeof_string (v : Value) : bool :=
  match v with VStr _ => true | _ => false end.

(** [typeof v === 'number'] *)
Definition typeof_number (v : Value) : bool :=
  match v with VNum _ => true | _ => false end.

(** [v === false] *)
Definition is_false (v : Value) : bool :=
  match v with VBool false => true | _ => false end.

(** [v === 'lit'] for a string literal *)
Definition str_is (v : Value) (lit : string) : bool :=
  match v with VStr s => String.eqb s lit | _ => false end.

(** The position denoted by a canonical array-index key below [n]. *)
Definition index_of_key (n : nat) (k : string) : option nat :=
  List.find (fun i => String.eqb (pretty i) k) (seq 0 n).

(** [v[k]] for a non-nullish [v] (reads on [null]/[undefined] throw and are
    guarded where the code performs them). *)
Definition get (v : Value) (k : string) : Value :=
  match v with
  | VObj o => default VUndef (o !! k)
  | VArr els props =>
      if String.eqb k "length" then VNum (Z.of_nat (length els))
      else match index_of_key (length els) k with
           | Some i => default VUndef (els !! i)
           | None => default VUndef (props !! k)
           end
  | VStr s =>
      if String.eqb k "length" then VNum (Z.of_nat (String.length s))
      else match index_of_key (String.length s) k with
           | Some i =>
               match String.get i s with
               | Some c => VStr (String c EmptyString)
               | None => VUndef
               end
           | None => VUndef
           end
  | _ => VUndef
  end.

(** A name: a property key that starts with something else than a digit, and
    so is no array index. *)
Definition named (k : string) : Prop :=
  ∃ c k', k = String c k' ∧ ¬ (48 ≤ nat_of_ascii c ≤ 57)%nat.

(** [k in v] for an object or array [v] ([in] throws on primitives, and is
    only reached on objects). *)
Definition has_prop (v : Value) (k : string) : bool :=
  match v with
  | VObj o => bool_decide (is_Some (o !! k))
  | VArr els props =>
      String.eqb k "length" || bool_decide (is_Some (index_of_key (length els) k)) ||
      bool_decide (is_Some (props !! k))
  | _ => false
  end.

(** The indexed elements of an array as own properties ["0"], ["1"], ... *)
Definition index_props (els : list Value) : gmap string Value :=
  list_to_map (imap (fun i x => (pretty i, x)) els).

Definition char_values (s : string) : list Value :=
  (fun c => VStr (String c EmptyString)) <$> list_ascii_of_string s.

(** The own enumerable properties copied by an object spread [{...v}]. *)
Definition spread (v : Value) : gmap string Value :=
  match v with
  | VObj o => o
  | VArr els props => props ∪ index_props els
  | VStr s => index_props (char_values s)
  | _ => ∅
  end.

(** [Object.keys(v).length] for a non-nullish [v]. *)
Definition own_key_count (v : Value) : nat :=
  match v with
  | VObj o => size o
  | VArr els props => length els + size props
  | VStr s => String.length s
  | _ => 0
  end.

Definition lower_ascii (c : ascii) : ascii :=
  let n := nat_of_ascii c in
  if (65 <=? n)%nat && (n <=? 90)%nat then ascii_of_nat (n + 32) else c.

Definition is_byte (c : ascii) (n : nat) : bool := (nat_of_ascii c =? n)%nat.

(** [s.toLowerCase()]: the ASCII letters, and the two other code points
    whose lower case holds an ASCII letter, U+0130 (to [i] and U+0307) and
    the Kelvin sign U+212A (to [k]).  The other cased code points are left as
    they are; no comparison with an ASCII literal can tell. *)
Fixpoint toLowerCase (s : string) : string :=
  match s with
  | EmptyString => EmptyString
  | String c s' =>
      match s' with
      | String c2 s2 =>
          if is_byte c 196 && is_byte c2 176 then
            String "i" (String (ascii_of_nat 204) (String (ascii_of_nat 135)
              (toLowerCase s2)))
          else
            match s2 with
            | String c3 s3 =>
                if is_byte c 226 && is_byte c2 132 && is_byte c3 170 then
                  String "k" (toLowerCase s3)
                else String (lower_ascii c) (toLowerCase s')
            | EmptyString => String (lower_ascii c) (toLowerCase s')
            end
      | EmptyString => String (lower_ascii c) EmptyString
      end
  end.

(** [s.startsWith(p)] *)
Definition startsWith (s p : string) : bool := String.prefix p s.

(** [s.includes(p)] *)
Fixpoint includes (s p : string) : bool :=
  String.prefix p s ||
  match s with
  | EmptyString => false
  | String _ s' => includes s' p
  end.

(** *** Numbers as strings *)

(** The double nearest to the integer [n >= 0] (ties to even), as an integer;
    [None] beyond the largest finite double. *)
Definition nearest_double (n : Z) : option Z :=
  if (n <? 2 ^ 53)%Z then Some n
  else
    let q := (Z.log2 n - 52)%Z in
    let m := (n / 2 ^ q)%Z in
    let r := (n mod 2 ^ q)%Z in
    let half := (2 ^ (q - 1))%Z in
    let m' := if (half <? r)%Z || ((r =? half)%Z && Z.odd m) then (m + 1)%Z else m in
    if (Z.log2 (m' * 2 ^ q) <? 1024)%Z then Some (m' * 2 ^ q)%Z else None.

(** For a double [d >= 2^53]: four times the distance from [d] to the
    midpoint with its lower neighbour and with its upper neighbour, and
    whether the midpoints themselves round to [d] (they do when the mantissa
    of [d] is even). *)
Definition rounding_interval (d : Z) : Z * Z * bool :=
  let q := (Z.log2 d - 52)%Z in
  let m := (d / 2 ^ q)%Z in
  let up := (2 * 2 ^ q)%Z in
  let down := if (m =? 2 ^ 52)%Z then (2 ^ q)%Z else (2 * 2 ^ q)%Z in
  (down, up, Z.even m).

(** The decimal with the fewest significant digits that reads back as the
    double [d], the closest to [d] when there are several (and the even one
    on a tie): the digits [Number::toString] prints.  [k] significant digits
    are tried, then [k + 1]; all [digits] of [d] always do. *)
Fixpoint shortest_from (fuel k digits : nat) (interval : Z * Z * bool) (d : Z) : Z :=
  match fuel with
  | O => d
  | S fuel' =>
      let '(down, up, closed) := interval in
      let u := (10 ^ Z.of_nat (digits - k))%Z in
      let lo := (d / u * u)%Z in
      let hi := (lo + u)%Z in
      let fits (v : Z) :=
        let dist := (4 * Z.abs (v - d))%Z in
        let bound := if (v <? d)%Z then down else up in
        if closed then (dist <=? bound)%Z else (dist <? bound)%Z in
      if fits lo && fits hi then
        if (d - lo <? hi - d)%Z then lo
        else if (hi - d <? d - lo)%Z then hi
        else if Z.even (lo / u) then lo else hi
      else if fits lo then lo
      else if fits hi then hi
      else shortest_from fuel' (S k) digits interval d
  end.

Definition shortest (d : Z) : Z :=
  let digits := String.length (pretty d) in
  shortest_from digits 1 digits (rounding_interval d) d.

Fixpoint strip_zeros (reversed : list ascii) : list ascii :=
  match reversed with
  | "0"%char :: rest => strip_zeros rest
  | _ => reversed
  end.

(** [String(x)] for a positive integer [v] given by its significant digits
    and zeros: in full up to 21 digits, with an exponent beyond. *)
Definition positive_to_string (v : Z) : string :=
  let all := pretty v in
  let n := String.length all in
  if (n <=? 21)%nat then all
  else
    let significant := rev (strip_zeros (rev (list_ascii_of_string all))) in
    let exponent := "e+" ++ pretty (n - 1)%nat in
    match significant with
    | [] => all
    | [c] => String c exponent
    | c :: more => String c ("." ++ string_of_list_ascii more ++ exponent)
    end.

(** [String(x)] for the number the integer literal [n] denotes: exact up to
    [2^53], the shortest digits that read back as the same double above. *)
Definition number_to_string (n : Z) : string :=
  if (Z.abs n <? 2 ^ 53)%Z then pretty n
  else
    match nearest_double (Z.abs n) with
    | None => if (n <? 0)%Z then "-Infinity" else "Infinity"
    | Some d => (if (n <? 0)%Z then "-" else "") ++ positive_to_string (shortest d)
    end.

(** *** Values as strings *)

(** Whether [String(v)] (as well as a template literal and [new Error(v)])
    throws a [TypeError]: an object with an own [toString], which is not a
    function, has no primitive value; an array is joined, and throws when one
    of its elements does. *)
Fixpoint String_throws (v : Value) : bool :=
  match v with
  | VObj o => bool_decide (is_Some (o !! "toString"))
  | VArr els props =>
      bool_decide (is_Some (props !! "toString")) ||
      (negb (bool_decide (is_Some (props !! "join"))) &&
       existsb (fun e => negb (nullish e) && String_throws e) els)
  | _ => false
  end.

(** [String(v)], when it does not throw. *)
Fixpoint js_String (v : Value) : string :=
  match v with
  | VUndef => "undefined"
  | VNull => "null"
  | VBool true => "true"
  | VBool false => "false"
  | VNum n => number_to_string n
  | VStr s => s
  | VObj _ => "[object Object]"
  | VArr els props =>
      if bool_decide (is_Some (props !! "join")) then "[object Array]"
      else
        String.concat ","
          (List.map (fun e => if nullish e then "" else js_String e) els)
  end.

(** The message of the [TypeError] that [String(v)] throws. *)
Definition cannot_convert : string := "Cannot convert object to primitive value".

(** *** White space *)

(** White space and line terminators as [String.prototype.trim] knows them,
    in UTF-8.  On one byte: tab, line feed, vertical tab, form feed, carriage
    return and space; a byte 160 that stands alone, which is no UTF-8, is
    read as U+00A0. *)
Definition is_space (c : ascii) : bool :=
  let n := nat_of_ascii c in
  (n =? 9)%nat || (n =? 10)%nat || (n =? 11)%nat || (n =? 12)%nat ||
  (n =? 13)%nat || (n =? 32)%nat || (n =? 160)%nat.

(** On two bytes: U+00A0. *)
Definition is_space2 (c1 c2 : ascii) : bool := is_byte c1 194 && is_byte c2 160.

(** On three bytes: U+1680, U+2000 to U+200A, U+2028, U+2029, U+202F, U+205F,
    U+3000 and U+FEFF. *)
Definition is_space3 (c1 c2 c3 : ascii) : bool :=
  let n3 := nat_of_ascii c3 in
  (is_byte c1 225 && is_byte c2 154 && is_byte c3 128) ||
  (is_byte c1 226 && is_byte c2 128 &&
   (((128 <=? n3)%nat && (n3 <=? 138)%nat) || (n3 =? 168)%nat || (n3 =? 169)%nat ||
    (n3 =? 175)%nat)) ||
  (is_byte c1 226 && is_byte c2 129 && is_byte c3 159) ||
  (is_byte c1 227 && is_byte c2 128 && is_byte c3 128) ||
  (is_byte c1 239 && is_byte c2 187 && is_byte c3 191).

(** The number of bytes of the white-space code point a string starts with,
    [0] when it starts with none. *)
Definition space_len (s : string) : nat :=
  match s with
  | String c1 s1 =>
      if is_space c1 then 1
      else
        match s1 with
        | String c2 s2 =>
            if is_space2 c1 c2 then 2
            else
              match s2 with
              | String c3 _ => if is_space3 c1 c2 c3 then 3 else 0
              | EmptyString => 0
              end
        | EmptyString => 0
        end
  | EmptyString => 0
  end.

Fixpoint drop_bytes (n : nat) (s : string) : string :=
  match n, s with
  | S k, String _ s' => drop_bytes k s'
  | _, _ => s
  end.

Fixpoint trim_start (s : string) : string :=
  match s with
  | String c1 s1 =>
      if is_space c1 then trim_start s1
      else
        match s1 with
        | String c2 s2 =>
            if is_space2 c1 c2 then trim_start s2
            else
              match s2 with
              | String c3 s3 => if is_space3 c1 c2 c3 then trim_start s3 else s
              | EmptyString => s
              end
        | EmptyString => s
        end
  | EmptyString => EmptyString
  end.

(** A string that is empty or made of white space only. *)
Definition is_blank (s : string) : bool :=
  match trim_start s with
  | EmptyString => true
  | _ => false
  end.

(** A byte that continues a code point, and the number of such bytes the
    first byte of a code point announces. *)
Definition is_continuation (c : ascii) : bool :=
  let n := nat_of_ascii c in (128 <=? n)%nat && (n <? 192)%nat.

Definition tail_length (c : ascii) : nat :=
  let n := nat_of_ascii c in
  if (n <? 192)%nat then 0
  else if (n <? 224)%nat then 1
  else if (n <? 240)%nat then 2
  else if (n <? 248)%nat then 3
  else 0.

(** The string without the white space it ends with: it is read code point
    by code point ([need] bytes of the current one are still to come) and cut
    where only white space remains. *)
Fixpoint trim_end_from (need : nat) (s : string) : string :=
  match s with
  | EmptyString => EmptyString
  | String c s' =>
      if (0 <? need)%nat && is_continuation c then String c (trim_end_from (need - 1) s')
      else if is_blank s then EmptyString
      else String c (trim_end_from (tail_length c) s')
  end.

Definition trim_end (s : string) : string := trim_end_from 0 s.

(** [s.trim()] *)
Definition trim (s : string) : string := trim_end (trim_start s).

(** U+00A0 and U+2003 in UTF-8. *)
Definition nbsp : string := String (ascii_of_nat 194) (String (ascii_of_nat 160) "").
Definition em_space : string :=
  String (ascii_of_nat 226) (String (ascii_of_nat 128) (String (ascii_of_nat 131) "")).

End JS.

(* ===================================================================== *)
(** ** The plan executor ([executePlan] of the background worker)         *)
(* ===================================================================== *)

Module Exec.
Import JS.

(** A browser tab as returned by [chrome.tabs.query]. *)
Record Tab : Type := {
  tab_id : option Z;
  tab_url : option string;
  tab_title : option string;
  tab_active : bool
}.

(** One element of the array returned by [executePlan]:
    [{success: true, result}] or [{success: false, error}]. *)
Record ExecutionResult : Type := {
  success : bool;
  result : option Value;
  error : option string
}.

Definition succeeded (r : Value) : ExecutionResult :=
  {| success := true; result := Some r; error := None |}.
Definition failed (msg : string) : ExecutionResult :=
  {| success := false; result := None; error := Some msg |}.

(** Messages passed to [notifyPopup].  The [step] carried by a notice is the
    plan entry as it is when the notice is sent. *)
Inductive Notice : Type :=
| Running (index : nat) (step : Value)
| Completed (index : nat) (step : Value) (result : Value)
| FailedStep (index : nat) (step : Value) (error : string)
| WarnInferred (inferredTool : string) (originalStep : Value)
| WarnBlocked (message : string) (index : nat) (step : Value)
| DebugResolved (index : nat) (step : Value) (toolName toolArgs : Value).

(** The collaborators of the executor: the local action backend
    ([mcp.handleAction], which catches every error and always returns a
    result object), the bridge client ([remoteMcp]) and the tab queries.
    A rejected [callTool] is the message of the error it rejects with. *)
Record Backends (W : Type) : Type := {
  handleAction : Value -> W -> Value * W;
  isConnected : W -> bool;
  callTool : Value -> Value -> W -> (string + Value) * W;
  queryActiveTab : W -> option Tab;
  queryTabs : W -> list Tab
}.
Arguments handleAction {W}.
Arguments isConnected {W}.
Arguments callTool {W}.
Arguments queryActiveTab {W}.
Arguments queryTabs {W}.

(** *** Resolution of a [CALL_TOOL] step (no effects) *)

(** [step?.params && typeof step.params === 'object' ? step.params : {}] *)
Definition mergedParamsOf (step : Value) : Value :=
  let p := if nullish step then VUndef else get step "params" in
  if truthy p && typeof_object p then p else VObj ∅.

Declare Scope js_scope.
Delimit Scope js_scope with js.
Notation "a '|||' b" := (js_or a b) (at level 50, left associativity) : js_scope.
Notation "a '???' b" := (js_coalesce a b) (at level 50, left associativity) : js_scope.

(** The tool name as written in the step, in any of its encodings. *)
Definition toolNameOf (step mergedParams : Value) : Value :=
  (get mergedParams "tool" ||| get mergedParams "toolName" |||
   get mergedParams "tool_name" ||| get mergedParams "name" |||
   get step "tool" ||| get step "toolName" ||| get step "tool_name")%js.

(** Best-effort inference of a tool from the parameter shape. *)
Definition infer (mergedParams : Value) : option (string * gmap string Value) :=
  let selector := get mergedParams "selector" in
  let value := get mergedParams "value" in
  let url := get mergedParams "url" in
  let code := get mergedParams "code" in
  let text := get mergedParams "text" in
  if truthy selector then
    if negb (is_undef value) then
      Some ("extension_fill_selector",
            <["value" := value]> {["selector" := selector]})
    else
      Some ("extension_click_selector", {["selector" := selector]})
  else if truthy url then
    Some ("navigate_page", <["url" := url]> {["type" := VStr "url"]})
  else if truthy code then
    Some ("extension_evaluate_script", {["code" := code]})
  else if truthy text && typeof_string text then
    Some ("extension_fill_selector",
          <["value" := text]> {["selector" := (selector ??? VStr "input")%js]})
  else None.

(** The argument bag as written in the step, in any of its encodings. *)
Definition bagOf (step mergedParams : Value) : Value :=
  (get mergedParams "arguments" ||| get mergedParams "tool_params" |||
   get mergedParams "toolParams" ||| get mergedParams "args" |||
   get step "arguments" ||| get step "args" |||
   get step "tool_params" ||| get step "toolParams" ||| VObj ∅)%js.

(** [{...a, k: v}] *)
Definition spread_set (a : Value) (k : string) (v : Value) : Value :=
  VObj (<[k := v]> (spread a)).

(** [{...a, ...b}] *)
Definition spread_merge (a b : Value) : Value :=
  VObj (spread b ∪ spread a).

Definition typeof_name (v : Value) : string :=
  match v with
  | VUndef => "undefined"
  | VNull | VObj _ | VArr _ _ => "object"
  | VBool _ => "boolean"
  | VNum _ => "number"
  | VStr _ => "string"
  end.

(** [a.k = v] in strict-mode code: a property is created or overwritten on an
    object or array; on a primitive the assignment throws a [TypeError]. *)
Definition set_prop (a : Value) (k : string) (v : Value) : string + Value :=
  match a with
  | VObj o => inr (VObj (<[k := v]> o))
  | VArr els props => inr (VArr els (<[k := v]> props))
  | _ => inl ("Cannot create property '" ++ k ++ "' on " ++ typeof_name a ++
              " '" ++ js_String a ++ "'")
  end.

Definition set_prop_if (c : Value) (a : string + Value) (k : string) : string + Value :=
  match a with
  | inl e => inl e
  | inr a' => if truthy c then set_prop a' k c else inr a'
  end.

Definition spread_set_if (c : Value) (a : Value) (k : string) : Value :=
  if truthy c then spread_set a k c else a.

Definition spread_merge_if (c : Value) (a : Value) : Value :=
  if truthy c && typeof_object c then spread_merge a c else a.

(** Normalisation of the argument bag: pull the top-level fields through.
    In the second case the code assigns into the bag itself, an object the
    step holds: the step changes with it ([afterNormalize]). *)
Definition normalizeArgs (step mergedParams toolArgs : Value) : string + Value :=
  if negb (truthy toolArgs) || (own_key_count toolArgs =? 0)%nat then
    let a1 := spread_set_if (get step "url") toolArgs "url" in
    let a2 := spread_set_if (get mergedParams "url") a1 "url" in
    let a3 := spread_set_if (get step "selector") a2 "selector" in
    let a4 := spread_set_if (get step "value") a3 "value" in
    let a5 := spread_set_if (get step "code") a4 "code" in
    let a6 := spread_merge_if (get step "tool_params") a5 in
    let a7 := spread_merge_if (get mergedParams "tool_params") a6 in
    inr a7
  else
    set_prop_if (get mergedParams "url")
      (set_prop_if (get step "url") (inr toolArgs) "url") "url".

(** The outcome of resolving a [CALL_TOOL] step: an error message, or the tool
    name and arguments together with the inferred tool (when the name was
    guessed, to be reported as a warning). *)
Record ResolvedCall : Type := {
  toolName : Value;
  arguments : Value;
  inferred : option string
}.

(** The tool name and argument bag of a step before normalisation: the ones
    written in the step, else the inferred ones (third component), else the
    error [call-tool-missing-name]. *)
Definition chooseTool (step mergedParams : Value)
    : string + (Value * Value * option string) :=
  let named := toolNameOf step mergedParams in
  if truthy named then inr (named, bagOf step mergedParams, None)
  else match infer mergedParams with
       | Some (n, a) => inr (VStr n, VObj a, Some n)
       | None => inl "call-tool-missing-name"
       end.

(** The resolver on a [CALL_TOOL] step: tool name, then normalised
    arguments; the dispatch that follows starts from [String(toolName ||
    '')], which throws on a name that has no string. *)
Definition resolve (step : Value) : string + ResolvedCall :=
  let mergedParams := mergedParamsOf step in
  match chooseTool step mergedParams with
  | inl e => inl e
  | inr (n, bag, i) =>
      match normalizeArgs step mergedParams bag with
      | inl e => inl e
      | inr a =>
          if String_throws (n ||| VStr "")%js then inl cannot_convert
          else inr {| toolName := n; arguments := a; inferred := i |}
      end
  end.

(** Where the argument bag of a step was found: in its params or at its top
    level, and under which name; nowhere when the bag is the fresh [{}]. *)
Definition bagSite (step mergedParams : Value) : option (bool * string) :=
  if truthy (get mergedParams "arguments") then Some (true, "arguments")
  else if truthy (get mergedParams "tool_params") then Some (true, "tool_params")
  else if truthy (get mergedParams "toolParams") then Some (true, "toolParams")
  else if truthy (get mergedParams "args") then Some (true, "args")
  else if truthy (get step "arguments") then Some (false, "arguments")
  else if truthy (get step "args") then Some (false, "args")
  else if truthy (get step "tool_params") then Some (false, "tool_params")
  else if truthy (get step "toolParams") then Some (false, "toolParams")
  else None.

(** The names under which the code looks for the argument bag. *)
Definition bagKeys : list string := ["arguments"; "tool_params"; "toolParams"; "args"].

(** The object or array [v] with its property [k] set to [x]. *)
Definition with_prop (v : Value) (k : string) (x : Value) : Value :=
  match v with
  | VObj o => VObj (<[k := x]> o)
  | VArr els props => VArr els (<[k := x]> props)
  | _ => v
  end.

(** The step as it is once the [try] block has normalised its arguments.  A
    bag that the step names and that is not empty is an object of the step
    itself, and [toolArgs.url = ...] writes into it: the step holds the
    normalised bag from then on.  In every other case (another type of
    step, no tool name, an inferred tool, an empty bag, a bag that cannot take
    the property) nothing is written. *)
Definition afterNormalize (step : Value) : Value :=
  let mergedParams := mergedParamsOf step in
  if nullish step || negb (str_is (get step "type") "CALL_TOOL") then step
  else
    match chooseTool step mergedParams with
    | inr (_, bag, None) =>
        if negb (truthy bag) || (own_key_count bag =? 0)%nat then step
        else
          match normalizeArgs step mergedParams bag, bagSite step mergedParams with
          | inr bag', Some (true, k) =>
              with_prop step "params" (with_prop (get step "params") k bag')
          | inr bag', Some (false, k) => with_prop step k bag'
          | _, _ => step
          end
    | _ => step
    end.

(** [String(toolName || '').toLowerCase()] *)
Definition lnameOf (toolName : Value) : string :=
  toLowerCase (js_String (toolName ||| VStr "")%js).

(** *** Effects: the world, the notice log, thrown errors *)

Section Executor.

Context {W : Type} (B : Backends W).

(** A computation inside the [try] block of one iteration: it reads and
    changes the world, appends notices, and either returns or throws an
    error, of which only the message is observed. *)
Definition M (A : Type) : Type := W * list Notice -> (string + A) * (W * list Notice).

Definition ret {A} (a : A) : M A := fun st => (inr a, st).

Definition throw {A} (msg : string) : M A := fun st => (inl msg, st).

Definition bind {A C} (m : M A) (k : A -> M C) : M C :=
  fun st =>
    match m st with
    | (inl e, st') => (inl e, st')
    | (inr a, st') => k a st'
    end.

Notation "'let!' x ':=' m 'in' k" := (bind m (fun x => k))
  (at level 10, x pattern, m at level 100, k at level 200, only parsing).

Definition notifyPopup (n : Notice) : M unit :=
  fun st => (inr tt, (st.1, (st.2 ++ [n])%list)).

Definition liftE {A} (r : string + A) : M A :=
  match r with inl e => throw e | inr a => ret a end.

(** [await mcp.handleAction(action)] *)
Definition awaitHandleAction (action : Value) : M Value :=
  fun st => let (r, w) := handleAction B action st.1 in (inr r, (w, st.2)).

(** [await remoteMcp.callTool(name, args)] *)
Definition awaitCallTool (name args : Value) : M Value :=
  fun st => let (r, w) := callTool B name args st.1 in (r, (w, st.2)).

(** [remoteMcp.isConnected()] *)
Definition bridgeConnected : M bool :=
  fun st => (inr (isConnected B st.1), st).

Definition newline : string := String (ascii_of_nat 10) EmptyString.

Definition pageLine (activeTabId : option Z) (index : nat) (tab : Tab) : string :=
  let url := default "about:blank" (tab_url tab) in
  let title :=
    match tab_title tab with
    | Some t => if String.eqb t "" then "" else " (" ++ t ++ ")"
    | None => ""
    end in
  let isSelected :=
    tab_active tab ||
    match activeTabId, tab_id tab with
    | Some a, Some i => (a =? i)%Z
    | _, _ => false
    end in
  pretty index ++ ": " ++ url ++ title ++ (if isSelected then " [selected]" else "").

(** [buildLocalPagesSummary(activeTabId)] *)
Definition buildLocalPagesSummary (activeTabId : option Z) : M (option string) :=
  fun st =>
    match queryTabs B st.1 with
    | [] => (inr None, st)
    | tabs =>
        (inr (Some (String.concat newline
                      ("# list_pages response" :: "## Pages" ::
                       imap (pageLine activeTabId) tabs))), st)
    end.

(** [{ type: 'NAVIGATE', url, tabId }] and its siblings *)
Definition navigateAction (url tabId : Value) : Value :=
  VObj (<["tabId" := tabId]> (<["url" := url]> {["type" := VStr "NAVIGATE"]})).
Definition clickAction (selector tabId : Value) : Value :=
  VObj (<["tabId" := tabId]> (<["selector" := selector]> {["type" := VStr "CLICK"]})).
Definition fillAction (selector value tabId : Value) : Value :=
  VObj (<["tabId" := tabId]> (<["value" := value]>
        (<["selector" := selector]> {["type" := VStr "FILL"]}))).
Definition evaluateAction (code tabId : Value) : Value :=
  VObj (<["tabId" := tabId]> (<["code" := code]> {["type" := VStr "EVALUATE_SCRIPT"]})).

(** [extract(k)]: the argument [k] of the resolved call, else the same-named
    field of the step or of its params. *)
Definition extract (step mergedParams toolArgs : Value) (k : string) : Value :=
  if truthy toolArgs && negb (is_undef (get toolArgs k)) then get toolArgs k
  else (get step k ??? get mergedParams k)%js.

(** Forwarding to the bridge, refused when it is not connected. *)
Definition forwardToBridge (toolName toolArgs : Value) : M Value :=
  let! connected := bridgeConnected in
  if negb connected then throw "mcp-bridge-not-connected"
  else awaitCallTool toolName toolArgs.

(** The dispatch policy applied to a resolved call. *)
Definition dispatch (tabContext : option Tab) (tabId : Value) (index : nat)
    (step mergedParams toolName toolArgs : Value) : M Value :=
  let lname := lnameOf toolName in
  let isExtensionTool := startsWith lname "extension_" in
  let isPagesTool :=
    startsWith lname "pages_" || String.eqb lname "new_page" ||
    String.eqb lname "navigate_page" || String.eqb lname "list_pages" ||
    String.eqb lname "select_page" in
  let extract := extract step mergedParams toolArgs in
  let selectPage : M Value :=
    let url := (extract "url" ??? extract "pageUrl" ??? extract "page")%js in
    if negb (truthy url) then throw "select-page-missing-url"
    else awaitHandleAction (navigateAction url tabId) in
  if isPagesTool then
    if String.eqb lname "new_page" then
      let url := extract "url" in
      let forceNew := truthy (extract "forceNew") || truthy (extract "force_new") in
      if negb (truthy url) then
        let! _ := notifyPopup
          (WarnBlocked "Blocked request to open a new page without URL." index step) in
        throw "blocked-new-page-without-url"
      else if forceNew then
        let! connected := bridgeConnected in
        if negb connected then
          let! _ := notifyPopup
            (WarnBlocked "Attempted force-new but MCP bridge not connected; blocked."
               index step) in
          throw "blocked-new-page-force-new-bridge-off"
        else awaitCallTool (VStr "new_page") toolArgs
      else awaitHandleAction (navigateAction url tabId)
    else if String.eqb lname "navigate_page" || String.eqb lname "pages_navigate" ||
            String.eqb lname "pages_navigate_page" then
      let url := extract "url" in
      if negb (truthy url) then throw "navigate-missing-url"
      else awaitHandleAction (navigateAction url tabId)
    else if String.eqb lname "list_pages" then
      let! summary := buildLocalPagesSummary (tabContext ≫= tab_id) in
      let summaryText :=
        match summary with
        | Some s => s
        | None =>
            "# list_pages response" ++ newline ++ "## Pages" ++ newline ++ "0: " ++
            default "about:blank" (tabContext ≫= tab_url) ++ " [selected]"
        end in
      ret (VObj {["content" :=
                  VArr [VObj (<["text" := VStr summaryText]> {["type" := VStr "text"]})] ∅]})
    else if String.eqb lname "select_page" || String.eqb lname "extension_select_page" then
      selectPage
    else forwardToBridge toolName toolArgs
  else if isExtensionTool then
    if includes lname "click" && truthy (extract "selector") then
      awaitHandleAction (clickAction (extract "selector") tabId)
    else if includes lname "fill" && truthy (extract "selector") then
      awaitHandleAction
        (fillAction (extract "selector")
           (extract "value" ??? extract "text" ??? extract "v")%js tabId)
    else if includes lname "evaluate" && truthy (extract "code") then
      awaitHandleAction (evaluateAction (extract "code") tabId)
    else if includes lname "select_page" then selectPage
    else forwardToBridge toolName toolArgs
  else forwardToBridge toolName toolArgs.

(** The first text part of a tool result's [content], if any. *)
Definition messageFromContent (actionResult : Value) : Value :=
  match get actionResult "content" with
  | VArr parts _ =>
      match List.find (fun part => truthy part && typeof_string (get part "text")) parts with
      | Some part => get part "text"
      | None => VUndef
      end
  | _ => VUndef
  end.

(** A tool result that reports an error is turned into a thrown error. *)
Definition checkToolResult (actionResult : Value) : M Value :=
  if truthy actionResult &&
     (truthy (get actionResult "isError") || is_false (get actionResult "success"))
  then
    let errorMessage :=
      (messageFromContent actionResult ||| get actionResult "error" |||
       get actionResult "message" ||| VStr "CALL_TOOL failed")%js in
    throw (if String_throws errorMessage then cannot_convert else js_String errorMessage)
  else ret actionResult.

(** The [CALL_TOOL] branch of the [try] block: resolve, announce, dispatch,
    check the tool's answer.  From the normalisation on, the step is the one
    the normalisation left. *)
Definition callToolBody (tabContext : option Tab) (tabId : Value) (index : nat)
    (step mergedParams : Value) : M Value :=
  let! chosen := liftE (chooseTool step mergedParams) in
  let! _ := match chosen.2 with
            | Some n => notifyPopup (WarnInferred n step)
            | None => ret tt
            end in
  let! toolArgs := liftE (normalizeArgs step mergedParams chosen.1.2) in
  let step' := afterNormalize step in
  let! _ := notifyPopup (DebugResolved index step' chosen.1.1 toolArgs) in
  let! _ := if String_throws (chosen.1.1 ||| VStr "")%js then throw cannot_convert
            else ret tt in
  let! actionResult :=
    dispatch tabContext tabId index step' (mergedParamsOf step') chosen.1.1 toolArgs in
  checkToolResult actionResult.

(** The body of the [try] block of one iteration of [executePlan]. *)
Definition stepBody (tabContext : option Tab) (tabId : Value) (index : nat)
    (step : Value) : M Value :=
  let mergedParams := mergedParamsOf step in
  if nullish step then
    throw ("Cannot read properties of " ++ js_String step ++ " (reading 'type')")
  else if str_is (get step "type") "CALL_TOOL" then
    callToolBody tabContext tabId index step mergedParams
  else
    awaitHandleAction
      (VObj (<["tabId" := tabId]> (<["type" := get step "type"]> (spread mergedParams)))).

(** The [for] loop of [executePlan] from position [index] on, [plan] being the
    steps not yet visited and [results] the array built so far.  The notice
    sent after the [try] block carries the step as the block left it. *)
Fixpoint loop (tabContext : option Tab) (tabId : Value) (index : nat)
    (plan : list Value) (results : list ExecutionResult) (st : W * list Notice)
    : list ExecutionResult * (W * list Notice) :=
  match plan with
  | [] => (results, st)
  | step :: rest =>
      match stepBody tabContext tabId index step
              (st.1, (st.2 ++ [Running index step])%list) with
      | (inr actionResult, st') =>
          loop tabContext tabId (S index) rest
            (results ++ [succeeded actionResult])%list
            (st'.1, (st'.2 ++ [Completed index (afterNormalize step) actionResult])%list)
      | (inl msg, st') =>
          ((results ++ [failed msg])%list,
           (st'.1, (st'.2 ++ [FailedStep index (afterNormalize step) msg])%list))
      end
  end.

(** [executePlan(plan, tabId)] run in world [w]: the returned results, the
    world it leaves and the notices it sent. *)
Definition executePlan (plan : list Value) (tabId : Value) (w : W)
    : list ExecutionResult * (W * list Notice) :=
  loop (queryActiveTab B w) tabId 0 plan [] (w, []).

(** The number of steps attempted according to a log of notices: each
    iteration of the loop opens with one [running] notice. *)
Definition is_running (n : Notice) : bool :=
  match n with Running _ _ => true | _ => false end.

Definition attempted (log : list Notice) : nat :=
  length (List.filter is_running log).

(** A computation that only appends to the log, and no [running] notice. *)
Definition appendsQuietly {A} (m : M A) : Prop :=
  ∀ st, ∃ extra, (m st).2.2 = (st.2 ++ extra)%list ∧ attempted extra = 0%nat.

End Executor.

(** A world in which nothing happens: the backend answers [{success: true}],
    the bridge is connected or not as the world says and echoes its arguments. *)
Definition quietBackends : Backends bool := {|
  handleAction := fun _ w => (VObj {["success" := VBool true]}, w);
  isConnected := fun w => w;
  callTool := fun _ args w => (inr args, w);
  queryActiveTab := fun _ => None;
  queryTabs := fun _ => []
|}.

(** Plan steps as object literals. *)
Definition obj (fields : list (string * Value)) : Value := VObj (list_to_map fields).

Definition callToolStep (params : list (string * Value)) : Value :=
  obj [("type", VStr "CALL_TOOL"); ("params", obj params)].

(** A world that records what the backends were asked to do: the local
    backend answers [{success: true}], the bridge is connected and answers
    [null]. *)
Inductive Request : Type :=
| LocalAction (action : Value)
| BridgeCall (name args : Value).

Definition recordingBackends : Backends (list Request) := {|
  handleAction := fun a w => (VObj {["success" := VBool true]}, (w ++ [LocalAction a])%list);
  isConnected := fun _ => true;
  callTool := fun n a w => (inr VNull, (w ++ [BridgeCall n a])%list);
  queryActiveTab := fun _ => None;
  queryTabs := fun _ => []
|}.

(** [{type: 'CALL_TOOL', selector: '#top',
      params: {tool: 'extension_fill_selector',
               arguments: {selector: '#nested', value: 'x'}}}] *)
Definition shadowedSelectorStep : Value :=
  obj [("type", VStr "CALL_TOOL"); ("selector", VStr "#top");
       ("params", obj [("tool", VStr "extension_fill_selector");
                       ("arguments", obj [("selector", VStr "#nested");
                                          ("value", VStr "x")])])].

(** [new_page] without a url, and with a url and [forceNew: true]. *)
Definition blankNewPageStep : Value :=
  callToolStep [("tool", VStr "new_page")].

Definition forcedNewPageStep : Value :=
  callToolStep [("tool", VStr "new_page"); ("url", VStr "http://a");
                ("forceNew", VBool true)].

(** [new_page] with a url and no [forceNew]. *)
Definition plainNewPageStep : Value :=
  callToolStep [("tool", VStr "new_page"); ("url", VStr "http://a")].

(** The same step with [url] in place of [selector]. *)
Definition shadowedUrlStep : Value :=
  obj [("type", VStr "CALL_TOOL"); ("url", VStr "http://top");
       ("params", obj [("tool", VStr "navigate_page");
                       ("arguments", obj [("url", VStr "http://nested")])])].

(** That step once its arguments are normalised: the top-level url has been
    written into its own [arguments]. *)
Definition shadowedUrlStepAfter : Value :=
  obj [("type", VStr "CALL_TOOL"); ("url", VStr "http://top");
       ("params", obj [("tool", VStr "navigate_page");
                       ("arguments", obj [("url", VStr "http://top")])])].

End Exec.

(* ===================================================================== *)
(** ** The bridge client ([MCPBridge])                                    *)
(* ===================================================================== *)

Module Bridge.
Import JS.

Inductive MCPBridgeStatus : Type := connecting | connected | disconnected.

#[global] Instance MCPBridgeStatus_eq_dec : EqDecision MCPBridgeStatus.
Proof. solve_decision. Defined.

(** How a promise returned by [callTool] is settled.  Of an error only the
    message is kept. *)
Inductive Outcome : Type :=
| Resolved (value : Value)
| Rejected (message : string).

(** An entry of the [pending] map: the promise whose [resolve]/[reject] it
    holds, and the handle of its timeout. *)
Record PendingRequest : Type := {
  promise : nat;
  timeoutId : option nat
}.

(** What an armed timer will run: the timeout closure of a request (it has
    captured the request id and the promise's [reject]) or the reconnect
    closure. *)
Inductive TimerCallback : Type :=
| RequestTimeout (id : string) (promise : nat)
| Reconnect.

(** What the bridge does to the outside, in the order it does it.
    [Uncaught p e]: the error [e] escaped the handler that was about to
    settle promise [p], which stays unsettled. *)
Inductive Effect : Type :=
| PromiseCreated (promise : nat)
| Settled (promise : nat) (outcome : Outcome)
| StatusNotified (listener : nat) (status : MCPBridgeStatus)
| NotificationDelivered (listener : nat) (payload : Value)
| SocketCreated (sock : nat) (url : string)
| SocketCloseCalled (sock : nat)
| Sent (sock : nat) (id method : string) (params : Value)
| Warned (message : string)
| Uncaught (promise : nat) (error : string).

(** The fields of the class, followed by the part of the runtime it acts on:
    the armed timers, fresh handles, and the effects so far. *)
Record State : Type := {
  url : option string;
  status : MCPBridgeStatus;
  socket : option nat;
  reconnectTimer : option nat;
  nextId : N;
  pending : gmap string PendingRequest;
  statusListeners : list nat;
  notificationListeners : list nat;
  timers : gmap nat TimerCallback;
  nextTimer : nat;
  nextPromise : nat;
  nextSocket : nat;
  trace : list Effect
}.

(** [new MCPBridge()] *)
Definition initial : State := {|
  url := None; status := disconnected; socket := None; reconnectTimer := None;
  nextId := 1; pending := ∅; statusListeners := []; notificationListeners := [];
  timers := ∅; nextTimer := 0; nextPromise := 0; nextSocket := 0; trace := []
|}.

Definition set_url (v : option string) (s : State) : State :=
  {| url := v; status := status s; socket := socket s;
     reconnectTimer := reconnectTimer s; nextId := nextId s; pending := pending s;
     statusListeners := statusListeners s;
     notificationListeners := notificationListeners s; timers := timers s;
     nextTimer := nextTimer s; nextPromise := nextPromise s;
     nextSocket := nextSocket s; trace := trace s |}.

Definition set_status (v : MCPBridgeStatus) (s : State) : State :=
  {| url := url s; status := v; socket := socket s;
     reconnectTimer := reconnectTimer s; nextId := nextId s; pending := pending s;
     statusListeners := statusListeners s;
     notificationListeners := notificationListeners s; timers := timers s;
     nextTimer := nextTimer s; nextPromise := nextPromise s;
     nextSocket := nextSocket s; trace := trace s |}.

Definition set_socket (v : option nat) (s : State) : State :=
  {| url := url s; status := status s; socket := v;
     reconnectTimer := reconnectTimer s; nextId := nextId s; pending := pending s;
     statusListeners := statusListeners s;
     notificationListeners := notificationListeners s; timers := timers s;
     nextTimer := nextTimer s; nextPromise := nextPromise s;
     nextSocket := nextSocket s; trace := trace s |}.

Definition set_reconnectTimer (v : option nat) (s : State) : State :=
  {| url := url s; status := status s; socket := socket s;
     reconnectTimer := v; nextId := nextId s; pending := pending s;
     statusListeners := statusListeners s;
     notificationListeners := notificationListeners s; timers := timers s;
     nextTimer := nextTimer s; nextPromise := nextPromise s;
     nextSocket := nextSocket s; trace := trace s |}.

Definition set_nextId (v : N) (s : State) : State :=
  {| url := url s; status := status s; socket := socket s;
     reconnectTimer := reconnectTimer s; nextId := v; pending := pending s;
     statusListeners := statusListeners s;
     notificationListeners := notificationListeners s; timers := timers s;
     nextTimer := nextTimer s; nextPromise := nextPromise s;
     nextSocket := nextSocket s; trace := trace s |}.

Definition set_pending (v : gmap string PendingRequest) (s : State) : State :=
  {| url := url s; status := status s; socket := socket s;
     reconnectTimer := reconnectTimer s; nextId := nextId s; pending := v;
     statusListeners := statusListeners s;
     notificationListeners := notificationListeners s; timers := timers s;
     nextTimer := nextTimer s; nextPromise := nextPromise s;
     nextSocket := nextSocket s; trace := trace s |}.

Definition set_statusListeners (v : list nat) (s : State) : State :=
  {| url := url s; status := status s; socket := socket s;
     reconnectTimer := reconnectTimer s; nextId := nextId s; pending := pending s;
     statusListeners := v;
     notificationListeners := notificationListeners s; timers := timers s;
     nextTimer := nextTimer s; nextPromise := nextPromise s;
     nextSocket := nextSocket s; trace := trace s |}.

Definition set_notificationListeners (v : list nat) (s : State) : State :=
  {| url := url s; status := status s; socket := socket s;
     reconnectTimer := reconnectTimer s; nextId := nextId s; pending := pending s;
     statusListeners := statusListeners s;
     notificationListeners := v; timers := timers s;
     nextTimer := nextTimer s; nextPromise := nextPromise s;
     nextSocket := nextSocket s; trace := trace s |}.

Definition set_timers (v : gmap nat TimerCallback) (s : State) : State :=
  {| url := url s; status := status s; socket := socket s;
     reconnectTimer := reconnectTimer s; nextId := nextId s; pending := pending s;
     statusListeners := statusListeners s;
     notificationListeners := notificationListeners s; timers := v;
     nextTimer := nextTimer s; nextPromise := nextPromise s;
     nextSocket := nextSocket s; trace := trace s |}.

Definition set_nextTimer (v : nat) (s : State) : State :=
  {| url := url s; status := status s; socket := socket s;
     reconnectTimer := reconnectTimer s; nextId := nextId s; pending := pending s;
     statusListeners := statusListeners s;
     notificationListeners := notificationListeners s; timers := timers s;
     nextTimer := v; nextPromise := nextPromise s;
     nextSocket := nextSocket s; trace := trace s |}.

Definition set_nextPromise (v : nat) (s : State) : State :=
  {| url := url s; status := status s; socket := socket s;
     reconnectTimer := reconnectTimer s; nextId := nextId s; pending := pending s;
     statusListeners := statusListeners s;
     notificationListeners := notificationListeners s; timers := timers s;
     nextTimer := nextTimer s; nextPromise := v;
     nextSocket := nextSocket s; trace := trace s |}.

Definition set_nextSocket (v : nat) (s : State) : State :=
  {| url := url s; status := status s; socket := socket s;
     reconnectTimer := reconnectTimer s; nextId := nextId s; pending := pending s;
     statusListeners := statusListeners s;
     notificationListeners := notificationListeners s; timers := timers s;
     nextTimer := nextTimer s; nextPromise := nextPromise s;
     nextSocket := v; trace := trace s |}.

(** Append to the record of effects. *)
Definition emit (es : list Effect) (s : State) : State :=
  {| url := url s; status := status s; socket := socket s;
     reconnectTimer := reconnectTimer s; nextId := nextId s; pending := pending s;
     statusListeners := statusListeners s;
     notificationListeners := notificationListeners s; timers := timers s;
     nextTimer := nextTimer s; nextPromise := nextPromise s;
     nextSocket := nextSocket s; trace := (trace s ++ es)%list |}.

Definition REQUEST_TIMEOUT_MS : Z := 30000.
Definition RECONNECT_DELAY_MS : Z := 2000.

(** The delay each kind of timer is armed with (time itself is not modelled:
    a timer that is still armed may fire at any later point). *)
Definition timerDelay (cb : TimerCallback) : Z :=
  match cb with
  | RequestTimeout _ _ => REQUEST_TIMEOUT_MS
  | Reconnect => RECONNECT_DELAY_MS
  end.

(** [normalizeUrl(value)] *)
Definition normalizeUrl (value : option string) : option string :=
  match value with
  | None => None
  | Some v =>
      let trimmed := trim v in
      if (String.length trimmed =? 0)%nat then None else Some trimmed
  end.

(** [clearTimeout(h)] *)
Definition clearTimeout (h : nat) (s : State) : State :=
  set_timers (delete h (timers s)) s.

(** [setTimeout(cb, delay)]: arms a timer under a fresh handle. *)
Definition setTimeout (cb : TimerCallback) (s : State) : nat * State :=
  (nextTimer s,
   set_nextTimer (S (nextTimer s)) (set_timers (<[nextTimer s := cb]> (timers s)) s)).

(** [updateStatus(next)]: a change of status is broadcast to every status
    listener, synchronously and in registration order. *)
Definition updateStatus (next : MCPBridgeStatus) (s : State) : State :=
  if decide (status s = next) then s
  else emit ((fun l => StatusNotified l next) <$> statusListeners s)
            (set_status next s).

Definition clearReconnectTimer (s : State) : State :=
  match reconnectTimer s with
  | Some h => set_reconnectTimer None (clearTimeout h s)
  | None => s
  end.

Definition scheduleReconnect (s : State) : State :=
  if bool_decide (reconnectTimer s ≠ None) || bool_decide (url s = None) then s
  else let (h, s') := setTimeout Reconnect s in set_reconnectTimer (Some h) s'.

(** Settling one pending request: its promise is resolved or rejected, its
    timeout cleared and its entry deleted. *)
Definition settle (id : string) (p : PendingRequest) (o : Outcome) (s : State) : State :=
  let s1 := emit [Settled (promise p) o] s in
  let s2 := match timeoutId p with Some h => clearTimeout h s1 | None => s1 end in
  set_pending (delete id (pending s2)) s2.

(** The loop over [this.pending.entries()] that rejects every pending
    request.  (The code visits the entries in insertion order, the model in
    the order of [map_to_list]; the order among the rejections plays no part
    below.) *)
Definition rejectAll (message : string) (s : State) : State :=
  foldl (fun acc e => settle e.1 e.2 (Rejected message) acc) s
        (map_to_list (pending s)).

Definition disconnectedMessage : string :=
  "MCP bridge disconnected before response arrived.".

(** [teardown(error, {suppressReconnect})] *)
Definition teardown (error : option string) (suppressReconnect : bool) (s : State) : State :=
  let s1 := match socket s with
            | Some k => emit [SocketCloseCalled k] s
            | None => s
            end in
  let s2 := set_socket None s1 in
  let s3 := updateStatus disconnected s2 in
  let s4 := rejectAll (default disconnectedMessage error) s3 in
  if suppressReconnect || bool_decide (url s4 = None) then clearReconnectTimer s4
  else scheduleReconnect s4.

(** [connect()]; [ctorError] is the message of the error thrown by
    [new WebSocket(url)], if it throws. *)
Definition connect (ctorError : option string) (s : State) : State :=
  match url s with
  | None => updateStatus disconnected s
  | Some u =>
      if bool_decide (socket s ≠ None) || bool_decide (status s = connecting) then s
      else
        let s1 := updateStatus connecting (clearReconnectTimer s) in
        match ctorError with
        | Some e => teardown (Some e) false s1
        | None =>
            set_nextSocket (S (nextSocket s1))
              (set_socket (Some (nextSocket s1))
                 (emit [SocketCreated (nextSocket s1) u] s1))
        end
  end.

Definition disabledMessage : string := "MCP bridge disabled by configuration.".
Definition reconfiguringMessage : string := "Reconfiguring MCP bridge endpoint.".

(** [setUrl(next)] *)
Definition setUrl (next : option string) (ctorError : option string) (s : State) : State :=
  let normalized := normalizeUrl next in
  if bool_decide (url s = normalized) then
    let s1 := if bool_decide (normalized ≠ None) && bool_decide (socket s = None)
              then connect ctorError s else s in
    if bool_decide (normalized = None) then teardown (Some disabledMessage) true s1
    else s1
  else
    let s1 := set_url normalized s in
    match url s1 with
    | None => teardown (Some disabledMessage) true s1
    | Some _ => connect ctorError (teardown (Some reconfiguringMessage) true s1)
    end.

(** [getUrl()] *)
Definition getUrl (s : State) : option string := url s.

(** [isConnected()] *)
Definition isConnected (s : State) : bool := bool_decide (status s = connected).

(** [data?.id] *)
Definition frameId (data : Value) : Value :=
  if nullish data then VUndef else get data "id".

(** [handleMessage(raw)]; [parsed] is [JSON.parse(raw)], or [None] when it
    throws.  On an error frame the entry is deleted and the timeout cleared
    before [new Error(message)] is built; when that throws (the message has
    no string), [reject] is not reached. *)
Definition handleMessage (parsed : option Value) (s : State) : State :=
  match parsed with
  | None => emit [Warned "Ignoring non-JSON message from MCP bridge"] s
  | Some data =>
      let id := frameId data in
      if typeof_string id || typeof_number id then
        let key := js_String id in
        match pending s !! key with
        | None => s
        | Some p =>
            let s1 := set_pending (delete key (pending s)) s in
            let s2 := match timeoutId p with
                      | Some h => clearTimeout h s1
                      | None => s1
                      end in
            if has_prop data "error" && truthy (get data "error") then
              let message :=
                js_coalesce (get (get data "error") "message") (VStr "Unknown MCP error") in
              if String_throws message then emit [Uncaught (promise p) cannot_convert] s2
              else emit [Settled (promise p) (Rejected (js_String message))] s2
            else if has_prop data "result" then
              emit [Settled (promise p) (Resolved (get data "result"))] s2
            else
              emit [Settled (promise p) (Resolved VUndef)] s2
        end
      else
        emit ((fun l => NotificationDelivered l data) <$> notificationListeners s) s
  end.

(** [this.nextId++] on a JavaScript number: exact up to [2^53], where adding
    one no longer changes the value. *)
Definition bumpId (n : N) : N := if (n <? 2 ^ 53)%N then (n + 1)%N else n.

(** [sendRequest(method, params)] on behalf of promise [p]; [socketOpen]
    tells whether [socket.readyState] is [OPEN], [sendError] is the message
    of the error thrown by [JSON.stringify]/[socket.send], if any. *)
Definition sendRequest (method : string) (params : Value) (p : nat)
    (socketOpen : bool) (sendError : option string) (s : State) : State :=
  match socket s with
  | Some k =>
      if negb socketOpen then emit [Settled p (Rejected "mcp-disconnected")] s
      else
        let id := pretty (nextId s) in
        let s1 := set_nextId (bumpId (nextId s)) s in
        let (h, s2) := setTimeout (RequestTimeout id p) s1 in
        let s3 := set_pending
                    (<[id := {| promise := p; timeoutId := Some h |}]> (pending s2)) s2 in
        match sendError with
        | None => emit [Sent k id method params] s3
        | Some e =>
            emit [Settled p (Rejected e)]
              (clearTimeout h (set_pending (delete id (pending s3)) s3))
        end
  | None => emit [Settled p (Rejected "mcp-disconnected")] s
  end.

(** [callTool(name, args)]: the promise it returns, and the state after the
    synchronous part of the call. *)
Definition callTool (name args : Value) (socketOpen : bool) (sendError : option string)
    (s : State) : nat * State :=
  let p := nextPromise s in
  let s0 := emit [PromiseCreated p] (set_nextPromise (S p) s) in
  if negb (isConnected s0) then (p, emit [Settled p (Rejected "mcp-disconnected")] s0)
  else
    (p, sendRequest "tools/call"
          (VObj (<["arguments" := args]> {["name" := name]})) p socketOpen sendError s0).

(** A timer armed by [setTimeout] fires, unless it was cleared. *)
Definition timerFired (h : nat) (ctorError : option string) (s : State) : State :=
  match timers s !! h with
  | None => s
  | Some (RequestTimeout id p) =>
      let s1 := set_timers (delete h (timers s)) s in
      emit [Settled p (Rejected "mcp-timeout")]
        (set_pending (delete id (pending s1)) s1)
  | Some Reconnect =>
      let s1 := set_timers (delete h (timers s)) s in
      connect ctorError (set_reconnectTimer None s1)
  end.

(** [onStatusChange(listener)] *)
Definition onStatusChange (l : nat) (s : State) : State :=
  let ls := if bool_decide (l ∈ statusListeners s) then statusListeners s
            else (statusListeners s ++ [l])%list in
  emit [StatusNotified l (status s)] (set_statusListeners ls s).

(** The function returned by [onStatusChange(listener)] *)
Definition offStatusChange (l : nat) (s : State) : State :=
  set_statusListeners (filter (fun x => x ≠ l) (statusListeners s)) s.

(** [onNotification(listener)] *)
Definition onNotification (l : nat) (s : State) : State :=
  let ls := if bool_decide (l ∈ notificationListeners s) then notificationListeners s
            else (notificationListeners s ++ [l])%list in
  set_notificationListeners ls s.

Definition offNotification (l : nat) (s : State) : State :=
  set_notificationListeners (filter (fun x => x ≠ l) (notificationListeners s)) s.

(** [reconnectNow()] *)
Definition reconnectNow (ctorError : option string) (s : State) : State :=
  match url s with
  | None => updateStatus disconnected s
  | Some _ =>
      match socket s with
      | Some k => emit [SocketCloseCalled k] s
      | None => connect ctorError s
      end
  end.

(** Everything that can happen to a bridge: calls of its public methods, the
    events of the sockets it listens to, and timers firing. *)
Inductive Input : Type :=
| DoSetUrl (next : option string) (ctorError : option string)
| DoReconnectNow (ctorError : option string)
| DoCallTool (name args : Value) (socketOpen : bool) (sendError : option string)
| DoOnStatusChange (listener : nat)
| DoOffStatusChange (listener : nat)
| DoOnNotification (listener : nat)
| DoOffNotification (listener : nat)
| SocketOpen
| SocketMessage (parsed : option Value)
| SocketError
| SocketClose
| TimerFired (h : nat) (ctorError : option string).

Definition step (i : Input) (s : State) : State :=
  match i with
  | DoSetUrl next e => setUrl next e s
  | DoReconnectNow e => reconnectNow e s
  | DoCallTool name args o e => (callTool name args o e s).2
  | DoOnStatusChange l => onStatusChange l s
  | DoOffStatusChange l => offStatusChange l s
  | DoOnNotification l => onNotification l s
  | DoOffNotification l => offNotification l s
  | SocketOpen => updateStatus connected s
  | SocketMessage parsed => handleMessage parsed s
  | SocketError => s
  | SocketClose => teardown None false s
  | TimerFired h e => timerFired h e s
  end.

(** The bridge after a sequence of inputs, each run to completion. *)
Definition run (inputs : list Input) (s : State) : State :=
  foldl (fun acc i => step i acc) s inputs.

(** The earlier revision of the client, whose disconnect path is
    [handleDisconnect]. *)
Module Legacy.

Definition scheduleReconnect (s : State) : State :=
  if bool_decide (reconnectTimer s ≠ None) then s
  else let (h, s') := setTimeout Reconnect s in set_reconnectTimer (Some h) s'.

Definition handleDisconnect (error : option string) (s : State) : State :=
  let s1 := set_socket None s in
  let s2 := updateStatus disconnected s1 in
  let s3 := rejectAll (default disconnectedMessage error) s2 in
  scheduleReconnect s3.

End Legacy.

(** *** Reading a record of effects *)

(** The outcomes delivered to promise [p]. *)
Fixpoint outcomes (p : nat) (tr : list Effect) : list Outcome :=
  match tr with
  | [] => []
  | Settled q o :: tr' =>
      if bool_decide (q = p) then o :: outcomes p tr' else outcomes p tr'
  | _ :: tr' => outcomes p tr'
  end.

(** What became of promise [p]: the outcomes delivered to it, and [None] for
    each time a handler dropped it on an error. *)
Fixpoint fates (p : nat) (tr : list Effect) : list (option Outcome) :=
  match tr with
  | [] => []
  | Settled q o :: tr' =>
      if bool_decide (q = p) then Some o :: fates p tr' else fates p tr'
  | Uncaught q _ :: tr' =>
      if bool_decide (q = p) then None :: fates p tr' else fates p tr'
  | _ :: tr' => fates p tr'
  end.

(** Replay of a record of effects, [open] being the promises created and not
    yet settled: does some status listener get told [disconnected] while a
    promise is still unsettled? *)
Fixpoint staleSeen (open : list nat) (tr : list Effect) : bool :=
  match tr with
  | [] => false
  | PromiseCreated p :: tr' => staleSeen (p :: open) tr'
  | Settled p _ :: tr' => staleSeen (filter (fun q => q ≠ p) open) tr'
  | StatusNotified _ disconnected :: tr' =>
      negb (bool_decide (open = [])) || staleSeen open tr'
  | _ :: tr' => staleSeen open tr'
  end.

(** [s'] differs from [s] at most in the timers and the reconnect timer. *)
Definition sameButTimers (s s' : State) : Prop :=
  url s' = url s ∧ status s' = status s ∧ socket s' = socket s ∧
  nextId s' = nextId s ∧ pending s' = pending s ∧
  statusListeners s' = statusListeners s ∧
  notificationListeners s' = notificationListeners s ∧
  nextPromise s' = nextPromise s ∧ nextSocket s' = nextSocket s ∧
  trace s' = trace s.

(** A listener subscribes, the bridge is pointed at an endpoint and connects,
    a tool is called, and the socket closes before the answer arrives. *)
Definition closeWhilePending : list Input :=
  [DoOnStatusChange 0; DoSetUrl (Some "ws://127.0.0.1:8080") None; SocketOpen;
   DoCallTool (VStr "list_pages") (VObj ∅) true None; SocketClose].

(** The same up to the call, which is left in flight. *)
Definition callInFlight : list Input :=
  [DoOnStatusChange 0; DoSetUrl (Some "ws://127.0.0.1:8080") None; SocketOpen;
   DoCallTool (VStr "list_pages") (VObj ∅) true None].

(** The error frame
    [{"jsonrpc": "2.0", "id": "1", "error": {"message": {"toString": 1}}}]:
    its message is an object whose own [toString] is not a function. *)
Definition unprintableErrorFrame : Value :=
  VObj (<["error" := VObj {["message" := VObj {["toString" := VNum 1]}]}]>
          (<["id" := VStr "1"]> {["jsonrpc" := VStr "2.0"]})).

(** What ties the pending map, the armed timers and the fates of the promises
    together in every state the bridge can reach. *)
Record Inv (s : State) : Prop := {
  inv_pending_timer : ∀ k e, pending s !! k = Some e →
    ∃ h, timeoutId e = Some h ∧ timers s !! h = Some (RequestTimeout k (promise e));
  inv_timer_unsettled : ∀ h k p, timers s !! h = Some (RequestTimeout k p) →
    (p < nextPromise s)%nat ∧ fates p (trace s) = [];
  inv_timer_unique : ∀ h h' k k' p,
    timers s !! h = Some (RequestTimeout k p) →
    timers s !! h' = Some (RequestTimeout k' p) → h = h';
  inv_timer_fresh : ∀ h cb, timers s !! h = Some cb → (h < nextTimer s)%nat;
  inv_once : ∀ p, (length (fates p (trace s)) ≤ 1)%nat;
  inv_settled_or_armed : ∀ p, (p < nextPromise s)%nat → fates p (trace s) = [] →
    ∃ h k, timers s !! h = Some (RequestTimeout k p);
  inv_outcome_created : ∀ p, fates p (trace s) ≠ [] → (p < nextPromise s)%nat;
  inv_reconnect_armed : ∀ h, reconnectTimer s = Some h → timers s !! h = Some Reconnect;
  inv_reconnect_only : ∀ h, timers s !! h = Some Reconnect → reconnectTimer s = Some h
}.

End Bridge.

(* ===================================================================== *)
(** ** Further invariants of the bridge client                            *)
(* ===================================================================== *)

Module BridgeFacts.
Import JS Bridge.

(** Between two inputs: without a url there is no socket, without a socket
    nothing is pending, and nothing is pending while the status is
    [disconnected]. *)
Definition Quiescent (s : State) : Prop :=
  (url s = None → socket s = None) ∧
  (socket s = None → pending s = ∅) ∧
  (status s = disconnected → pending s = ∅).

(** The request ids in use were all drawn from the counter: every key of the
    pending map prints a number below [nextId], as long as the counter has
    not reached [2^53], where it stops growing. *)
Definition IdsDrawn (s : State) : Prop :=
  (1 ≤ nextId s ≤ 2 ^ 53)%N ∧
  ∀ k e, pending s !! k = Some e →
    ∃ n : N, k = pretty n ∧ (n < nextId s ∨ nextId s = 2 ^ 53)%N.

(** The configured url, when there is one, is not empty and carries no white
    space around it. *)
Definition UrlTrimmed (s : State) : Prop :=
  ∀ u, url s = Some u → u ≠ "" ∧ trim u = u.

(** The fields no lifecycle operation touches. *)
Definition sameCounters (s s' : State) : Prop :=
  nextId s' = nextId s ∧ nextPromise s' = nextPromise s ∧
  statusListeners s' = statusListeners s ∧
  notificationListeners s' = notificationListeners s.

(** The statuses status listener [l] was told, in order. *)
Fixpoint told (l : nat) (tr : list Effect) : list MCPBridgeStatus :=
  match tr with
  | [] => []
  | StatusNotified l' st :: tr' =>
      if bool_decide (l' = l) then st :: told l tr' else told l tr'
  | _ :: tr' => told l tr'
  end.

(** The payloads notification listener [l] was handed, in order. *)
Fixpoint delivered (l : nat) (tr : list Effect) : list Value :=
  match tr with
  | [] => []
  | NotificationDelivered l' data :: tr' =>
      if bool_decide (l' = l) then data :: delivered l tr' else delivered l tr'
  | _ :: tr' => delivered l tr'
  end.

(** From [s] to [s'] the status went through [sts], each change being told
    to the status listeners, who stayed the same, and to nobody else. *)
Definition Broadcasts (s s' : State) (sts : list MCPBridgeStatus) : Prop :=
  statusListeners s' = statusListeners s ∧
  status s' = default (status s) (last sts) ∧
  ∀ l, told l (trace s') =
       (told l (trace s) ++ if bool_decide (l ∈ statusListeners s) then sts else [])%list.

(** Whether the input is the subscription of status listener [l]. *)
Definition subscribes (l : nat) (i : Input) : bool :=
  match i with
  | DoOnStatusChange l' => bool_decide (l' = l)
  | _ => false
  end.

(** A bridge pointed at an endpoint, connected, with no call in flight. *)
Definition connectedIdle : list Input :=
  [DoOnStatusChange 0; DoSetUrl (Some "ws://127.0.0.1:8080") None; SocketOpen].

(** The frame [{id, result}]. *)
Definition resultFrame (id : string) (v : Value) : Value :=
  VObj (<["result" := v]> {["id" := VStr id]}).

(** The frame [{id, error: {message}}]. *)
Definition errorFrame (id : string) (message : Value) : Value :=
  VObj (<["error" := VObj {["message" := message]}]> {["id" := VStr id]}).

End BridgeFacts.

(* ===================================================================== *)
(** ** Vocabulary for further properties of the executor                  *)
(* ===================================================================== *)

Module ExecFacts.
Import JS Exec.

(** The backends [B] with another local backend, or another bridge call, in
    place of theirs. *)
Definition withHandleAction {W} (f : Value → W → Value * W) (B : Backends W)
    : Backends W := {|
  handleAction := f;
  isConnected := isConnected B;
  callTool := callTool B;
  queryActiveTab := queryActiveTab B;
  queryTabs := queryTabs B
|}.

Definition withCallTool {W} (g : Value → Value → W → (string + Value) * W)
    (B : Backends W) : Backends W := {|
  handleAction := handleAction B;
  isConnected := isConnected B;
  callTool := g;
  queryActiveTab := queryActiveTab B;
  queryTabs := queryTabs B
|}.

(** The tool names (in lower case) the executor always serves in the
    browser: navigation, page listing and page selection. *)
Definition isLocalName (lname : string) : bool :=
  String.eqb lname "navigate_page" || String.eqb lname "pages_navigate" ||
  String.eqb lname "pages_navigate_page" || String.eqb lname "list_pages" ||
  String.eqb lname "select_page" ||
  (startsWith lname "extension_" && includes lname "select_page").

(** A plan entry that is not [null]/[undefined] and whose type is not
    [CALL_TOOL]: it goes to the local backend as it is. *)
Definition is_primitive (step : Value) : bool :=
  negb (nullish step) && negb (str_is (get step "type") "CALL_TOOL").

(** The progress notices ([LLM_PROGRESS]) of a log. *)
Definition is_progress (n : Notice) : bool :=
  match n with
  | Running _ _ | Completed _ _ _ | FailedStep _ _ _ => true
  | _ => false
  end.

Definition progressOf (log : list Notice) : list Notice := List.filter is_progress log.

(** The progress notices that go with the results [rs] of the steps [steps],
    the first of which has position [index]: for each result a [running]
    notice with the step as the plan has it, then [completed] with its result
    or [failed] with its error, and with the step as the [try] block left
    it. *)
Fixpoint progressFor (index : nat) (steps : list Value) (rs : list ExecutionResult)
    {struct rs} : list Notice :=
  match rs, steps with
  | r :: rs', step :: steps' =>
      Running index step ::
      (if success r then Completed index (afterNormalize step) (default VUndef (result r))
       else FailedStep index (afterNormalize step) (default "" (error r))) ::
      progressFor (S index) steps' rs'
  | _, _ => []
  end.

(** A computation that only appends to the log, and only notices that
    satisfy [P]. *)
Definition appendsOnly {W A} (P : Notice → bool) (m : @M W A) : Prop :=
  ∀ st, ∃ extra, (m st).2.2 = (st.2 ++ extra)%list ∧ forallb P extra = true.

Definition is_warnInferred (n : Notice) : bool :=
  match n with WarnInferred _ _ => true | _ => false end.

End ExecFacts.

(* ===================================================================== *)
(** ** The local action backend ([MCPClient])                             *)
(* ===================================================================== *)

(** [MCPClient.handleAction] with the wait for the tab to finish loading.
    The browser is a state [C] reached through the calls of [Chrome]; a
    failed call is the message of the [Error] it fails with. *)
Module Client.
Import JS.

Record Chrome (C : Type) : Type := {
  (** [chrome.tabs.update(tabId, props)], or [chrome.tabs.update(props)] on
      the active tab: the updated tab *)
  tabsUpdate : option Z -> Value -> C -> (string + Value) * C;
  (** [chrome.tabs.get(tabId)] *)
  tabsGet : Z -> C -> (string + Value) * C;
  (** whether [chrome.tabs.onUpdated] reports the tab [complete] before the
      timeout of [waitForTabLoad] *)
  tabCompletes : Z -> C -> bool * C;
  (** [chrome.tabs.sendMessage(tabId, message, callback)]: the response, or
      the message of [chrome.runtime.lastError] *)
  tabsSendMessage : Z -> Value -> C -> (string + Value) * C;
  (** [chrome.tabs.captureVisibleTab(windowId, options)] *)
  captureVisibleTab : Value -> Value -> C -> (string + Value) * C
}.
Arguments tabsUpdate {C}.
Arguments tabsGet {C}.
Arguments tabCompletes {C}.
Arguments tabsSendMessage {C}.
Arguments captureVisibleTab {C}.

Section Client.

Context {C : Type} (Ch : Chrome C).

(** An asynchronous call: it changes the browser and resolves or rejects. *)
Definition R (A : Type) : Type := C -> (string + A) * C.

Definition andThen {A D} (m : R A) (k : A -> R D) : R D :=
  fun c =>
    match m c with
    | (inl e, c') => (inl e, c')
    | (inr a, c') => k a c'
    end.

(** [waitForTabLoad(tabId)] *)
Definition waitForTabLoad (tabId : Value) : R unit :=
  fun c =>
    match tabId with
    | VNum n =>
        match tabsGet Ch n c with
        | (inr tab, c1) =>
            if str_is (get tab "status") "complete" then (inr tt, c1)
            else
              let (completed, c2) := tabCompletes Ch n c1 in
              if completed then (inr tt, c2) else (inl "navigation-timeout", c2)
        | (inl _, c1) => (inr tt, c1)
        end
    | _ => (inr tt, c)
    end.

(** [sendContentAction(tabId, action)] *)
Definition sendContentAction (tabId action : Value) : R Value :=
  fun c =>
    match tabId with
    | VNum n =>
        tabsSendMessage Ch n
          (VObj (<["payload" := action]> {["type" := VStr "CONTENT_ACTION"]})) c
    | _ => (inl "tab-id-required", c)
    end.

Definition succeededWith (fields : gmap string Value) : Value :=
  VObj (<["success" := VBool true]> fields).

(** [{ success: false, error }] *)
Definition failure (error : string) : Value :=
  VObj (<["error" := VStr error]> {["success" := VBool false]}).

(** The [try] block of [handleAction]. *)
Definition attempt (action : Value) : R Value :=
  if nullish action then
    fun c => (inl ("Cannot read properties of " ++ js_String action ++
                   " (reading 'type')"), c)
  else
    let type := get action "type" in
    let tabId := get action "tabId" in
    if str_is type "NAVIGATE" then
      andThen
        (tabsUpdate Ch (match tabId with VNum n => Some n | _ => None end)
           (VObj {["url" := get action "url"]}))
        (fun updatedTab =>
           let targetTabId := if typeof_number tabId then tabId else get updatedTab "id" in
           fun c => (inr (succeededWith ∅), (waitForTabLoad targetTabId c).2))
    else if str_is type "CLICK" then
      andThen (waitForTabLoad tabId) (fun _ =>
        sendContentAction tabId
          (VObj (<["selector" := get action "selector"]> {["type" := VStr "CLICK"]})))
    else if str_is type "FILL" then
      andThen (waitForTabLoad tabId) (fun _ =>
        sendContentAction tabId
          (VObj (<["value" := get action "value"]>
                 (<["selector" := get action "selector"]> {["type" := VStr "FILL"]}))))
    else if str_is type "EVALUATE_SCRIPT" then
      andThen (waitForTabLoad tabId) (fun _ =>
        sendContentAction tabId
          (VObj (<["code" := get action "code"]> {["type" := VStr "EVALUATE_SCRIPT"]})))
    else if str_is type "TAKE_SCREENSHOT" then
      andThen
        (captureVisibleTab Ch (js_coalesce (get action "windowId") VUndef)
           (VObj {["format" := VStr "png"]}))
        (fun dataUrl => fun c => (inr (succeededWith {["dataUrl" := dataUrl]}), c))
    else
      fun c =>
        if String_throws type then (inl cannot_convert, c)
        else (inr (failure ("unknown-action:" ++ js_String type)), c).

(** [error?.message || String(error)] for an [Error] with message [msg] *)
Definition errorText (msg : string) : string :=
  if String.eqb msg "" then "Error" else msg.

(** [handleAction(action)]: it never rejects. *)
Definition handleAction (action : Value) (c : C) : Value * C :=
  match attempt action c with
  | (inr r, c') => (r, c')
  | (inl msg, c') => (failure (errorText msg), c')
  end.

(** The fields of an action [handleAction] reads. *)
Definition actionFields : list string :=
  ["type"; "tabId"; "url"; "selector"; "value"; "code"; "windowId"].

(** The actions served by the content script of a tab. *)
Definition isContentAction (type : Value) : bool :=
  str_is type "CLICK" || str_is type "FILL" || str_is type "EVALUATE_SCRIPT".

End Client.

(** The executor's collaborators with [MCPClient] over the browser [Ch] as
    the local backend. *)
Definition backends {C} (Ch : Chrome C) (B : Exec.Backends C) : Exec.Backends C :=
  ExecFacts.withHandleAction (handleAction Ch) B.

(** A browser that counts the calls made to it. *)
Definition countingChrome : Chrome nat := {|
  tabsUpdate := fun _ _ c => (inr (VObj {["id" := VNum 7]}), S c);
  tabsGet := fun _ c => (inr (VObj {["status" := VStr "loading"]}), S c);
  tabCompletes := fun _ c => (false, S c);
  tabsSendMessage := fun _ _ c => (inr (VObj {["success" := VBool true]}), S c);
  captureVisibleTab := fun _ _ c => (inr (VStr "data:image/png;base64,"), S c)
|}.

(** Collaborators without a bridge and without tabs to report. *)
Definition noBridge {C} : Exec.Backends C := {|
  Exec.handleAction := fun _ c => (VUndef, c);
  Exec.isConnected := fun _ => false;
  Exec.callTool := fun _ _ c => (inl "mcp-disconnected", c);
  Exec.queryActiveTab := fun _ => None;
  Exec.queryTabs := fun _ => []
|}.

End Client.

(* ===================================================================== *)
(** ** The worker's plan handler and the popup's step labels              *)
(* ===================================================================== *)

Module Worker.
Import JS Exec.

Section Worker.

Context {W : Type} (B : Backends W).

(** [getActiveTabId()]: [tabs?.[0]?.id] of the active tab *)
Definition getActiveTabId (w : W) : Value :=
  match queryActiveTab B w ≫= tab_id with
  | Some i => VNum i
  | None => VUndef
  end.

(** [handleExecutePlan(payload)]: the [execution] of its answer
    [{success: true, execution}], or the message of the error thrown. *)
Definition handleExecutePlan (payload : Value) (w : W)
    : (string + list ExecutionResult) * (W * list Notice) :=
  let p := (payload ||| VObj ∅)%js in
  let plan := if is_undef (get p "plan") then VArr [] ∅ else get p "plan" in
  let providedTabId := get p "tabId" in
  match plan with
  | VArr (step :: rest) _ =>
      let tabId :=
        if typeof_number providedTabId then providedTabId else getActiveTabId w in
      let (execution, st) := executePlan B (step :: rest) tabId w in
      (inr execution, st)
  | _ => (inl "empty-plan", (w, []))
  end.

End Worker.

End Worker.

Module Popup.
Import JS.

(** [step.params?.tool || step.params?.toolName || step.params?.name] *)
Definition describedTool (step : Value) : Value :=
  let params := get step "params" in
  js_or (js_or (get params "tool") (get params "toolName")) (get params "name").

(** [describePlanStep(step)], or the message of the [TypeError] thrown by
    its template when the tool has no string. *)
Definition describePlanStep (step : Value) : string + Value :=
  if negb (truthy step) then inr (VStr "Action")
  else if str_is (get step "type") "CALL_TOOL" then
    let tool := describedTool step in
    if truthy tool then
      if String_throws tool then inl cannot_convert
      else inr (VStr (js_String (get step "type") ++ " (" ++ js_String tool ++ ")"))
    else inr (get step "type")
  else inr (get step "type").

(** [{type: 'CALL_TOOL', params: {tool_name: 'click', name: 'fill'}}] *)
Definition twoNamesStep : Value :=
  Exec.callToolStep [("tool_name", VStr "click"); ("name", VStr "fill")].

End Popup.

(* ===================================================================== *)
(** ** Properties of the plan executor                                    *)
(* ===================================================================== *)

(** Discharges [named k] for a literal [k]. *)
Ltac by_name :=
  first [ by eexists _, _; split; [done|vm_compute; lia] | done ].

Section ExecutorProperties.
Import JS Exec.

Context {W : Type} (B : Backends W).

Lemma get_empty_object k : get (VObj ∅) k = VUndef.
Proof. unfold get. by rewrite lookup_empty. Qed.

Lemma js_or_falsy a b : truthy a = false → js_or a b = b.
Proof. unfold js_or. by intros ->. Qed.

Lemma js_or_truthy a b : truthy a = true → js_or a b = a.
Proof. unfold js_or. by intros ->. Qed.

(** A step whose [type] is the string [CALL_TOOL] is not [null]/[undefined]. *)
Lemma call_tool_not_nullish step :
  str_is (get step "type") "CALL_TOOL" = true → nullish step = false.
Proof. by destruct step. Qed.

(** The [try] block of a [CALL_TOOL] step in terms of the pure resolution. *)
Lemma stepBody_call_tool tabContext tabId index step st :
  str_is (get step "type") "CALL_TOOL" = true →
  stepBody B tabContext tabId index step st =
  callToolBody B tabContext tabId index step (mergedParamsOf step) st.
Proof.
  intros Ht. unfold stepBody. by rewrite (call_tool_not_nullish _ Ht), Ht.
Qed.

(** With no tool name and no inferable shape the [try] block throws
    [call-tool-missing-name] before anything else happens. *)
Lemma callToolBody_missing_name tabContext tabId index step st :
  chooseTool step (mergedParamsOf step) = inl "call-tool-missing-name" →
  callToolBody B tabContext tabId index step (mergedParamsOf step) st =
  (inl "call-tool-missing-name", st).
Proof. intros H. unfold callToolBody, bind. by rewrite H. Qed.

(** When resolution succeeds the [try] block announces the resolved call,
    dispatches it and checks the tool's answer. *)
Lemma callToolBody_resolved tabContext tabId index step rc st :
  resolve step = inr rc →
  let step' := afterNormalize step in
  callToolBody B tabContext tabId index step (mergedParamsOf step) st =
  bind (dispatch B tabContext tabId index step' (mergedParamsOf step')
          (toolName rc) (arguments rc))
       (checkToolResult)
       (st.1, st.2 ++ match inferred rc with
                      | Some n => [WarnInferred n step]
                      | None => []
                      end
                   ++ [DebugResolved index step' (toolName rc) (arguments rc)])%list.
Proof.
  unfold resolve, callToolBody. intros H.
  destruct (chooseTool step (mergedParamsOf step)) as [e|[[n bag] i]]; [done|].
  destruct (normalizeArgs step (mergedParamsOf step) bag) as [e|a] eqn:Hn; [done|].
  destruct (String_throws (n ||| VStr "")%js) eqn:Hs; [done|].
  injection H as <-. destruct st as [w log]. unfold bind at 1. simpl.
  destruct i as [n'|]; unfold bind, notifyPopup, liftE, ret, throw; simpl;
    rewrite Hn; simpl; rewrite Hs; simpl;
    rewrite <- ?app_assoc; simpl; try rewrite app_nil_r; reflexivity.
Qed.

(** *** What the normalisation leaves of the step *)

(** Decimal numerals start with a digit, so a property whose name starts with
    a letter is no index. *)
Lemma pretty_N_char_digit x : (48 ≤ nat_of_ascii (pretty_N_char x) ≤ 57)%nat.
Proof.
  unfold pretty_N_char. destruct x as [|p]; [vm_compute; lia|].
  do 4 (try destruct p as [p|p|]); vm_compute; lia.
Qed.

Lemma pretty_N_go_head x : ∀ s,
  (∀ c s', s = String c s' → (48 ≤ nat_of_ascii c ≤ 57)%nat) →
  s ≠ "" ∨ (0 < x)%N →
  ∃ c s', pretty_N_go x s = String c s' ∧ (48 ≤ nat_of_ascii c ≤ 57)%nat.
Proof.
  induction (N.lt_wf_0 x) as [x _ IH]; intros s Hs Hne.
  destruct (decide (x = 0)%N) as [->|].
  - rewrite pretty_N_go_0. destruct Hne as [Hne|]; [|lia].
    destruct s as [|c s']; [done|]. eauto.
  - rewrite pretty_N_go_step by lia. apply IH.
    + apply N.div_lt; lia.
    + intros c s' [= <- <-]. apply pretty_N_char_digit.
    + by left.
Qed.

Lemma pretty_nat_head (i : nat) :
  ∃ c s', pretty i = String c s' ∧ (48 ≤ nat_of_ascii c ≤ 57)%nat.
Proof.
  unfold pretty, pretty_nat, pretty, pretty_N.
  destruct (decide (N.of_nat i = 0)%N).
  - eexists _, _. split; [done|]. vm_compute. lia.
  - apply pretty_N_go_head; [done|]. right. lia.
Qed.

Lemma index_of_key_named n k : named k → index_of_key n k = None.
Proof.
  intros (c & k' & -> & Hc).
  destruct (index_of_key n (String c k')) as [i|] eqn:Hi; [|done].
  exfalso. unfold index_of_key in Hi. apply find_some in Hi as [_ Hi].
  apply String.eqb_eq in Hi.
  destruct (pretty_nat_head i) as (c' & s' & Hp & Hd). rewrite Hp in Hi.
  injection Hi as -> _. done.
Qed.

Lemma get_string_named s k : named k → k ≠ "length" → get (VStr s) k = VUndef.
Proof.
  intros Hn Hk. unfold get.
  destruct (String.eqb_spec k "length") as [E|_]; [done|].
  by rewrite index_of_key_named.
Qed.

Lemma get_with_prop_ne v k x k' : k' ≠ k → get (with_prop v k x) k' = get v k'.
Proof.
  intros Hne. destruct v as [| | | | |o|els props]; try done.
  - unfold with_prop, get. by rewrite lookup_insert_ne.
  - unfold with_prop, get. destruct (String.eqb k' "length"); [done|].
    destruct (index_of_key (length els) k'); [done|]. by rewrite lookup_insert_ne.
Qed.

Lemma get_with_prop_eq v k x :
  named k → k ≠ "length" → typeof_object v = true → nullish v = false →
  get (with_prop v k x) k = x.
Proof.
  intros Hn Hl Ho Hv. destruct v as [| | | | |o|els props]; try done.
  - unfold with_prop, get. by rewrite lookup_insert_eq.
  - unfold with_prop, get. destruct (String.eqb_spec k "length"); [done|].
    rewrite index_of_key_named by done. by rewrite lookup_insert_eq.
Qed.

(** A value that has a truthy property under a name is an object or an
    array. *)
Lemma truthy_get_object v k :
  named k → k ≠ "length" → truthy (get v k) = true →
  typeof_object v = true ∧ nullish v = false.
Proof.
  intros Hn Hl Ht. destruct v as [| | | |s|o|els props]; try done.
  by rewrite get_string_named in Ht.
Qed.

Lemma bagSite_key step mp b k : bagSite step mp = Some (b, k) →
  k ∈ bagKeys ∧ named k ∧ k ≠ "length" ∧ k ≠ "params" ∧
  truthy (get (if b then mp else step) k) = true.
Proof.
  unfold bagSite, bagKeys.
  repeat match goal with
         | |- context [if truthy ?v then _ else _] => destruct (truthy v) eqn:?
         end; intros [= <- <-];
    (split_and!; [set_solver|by_name|done|done|done]).
Qed.

(** The params of a step that are its merged params. *)
Lemma mergedParams_truthy_get step k :
  truthy (get (mergedParamsOf step) k) = true →
  mergedParamsOf step = get step "params" ∧ nullish step = false.
Proof.
  unfold mergedParamsOf. destruct (nullish step) eqn:Hn.
  - cbn [truthy andb]. intros H. by rewrite get_empty_object in H.
  - destruct (truthy (get step "params") && typeof_object (get step "params")); [done|].
    intros H. by rewrite get_empty_object in H.
Qed.

(** What the normalisation leaves alone: every field of the step and of its
    params other than the argument bag. *)
Lemma afterNormalize_reads step k :
  k ∉ "params" :: bagKeys →
  get (afterNormalize step) k = get step k ∧
  get (mergedParamsOf (afterNormalize step)) k = get (mergedParamsOf step) k.
Proof.
  intros Hk. unfold afterNormalize.
  destruct (nullish step || negb (str_is (get step "type") "CALL_TOOL")) eqn:Hg; [done|].
  apply orb_false_iff in Hg as [Hnull Htype]. apply negb_false_iff in Htype.
  destruct (chooseTool step (mergedParamsOf step)) as [e|[[n bag] [i|]]]; try done.
  destruct (negb (truthy bag) || (own_key_count bag =? 0)%nat); [done|].
  destruct (normalizeArgs step (mergedParamsOf step) bag) as [e|bag']; [done|].
  destruct (bagSite step (mergedParamsOf step)) as [[[] k0]|] eqn:Hsite; [| |done].
  - destruct (bagSite_key _ _ _ _ Hsite) as (Hin & Hnamed & Hlen & Hpar & Htr).
    destruct (mergedParams_truthy_get _ _ Htr) as [Hmp _].
    destruct (truthy_get_object step "type") as [Hso Hsn]; [by_name|done| |].
    { destruct (get step "type") as [| | | |t| |]; try done.
      simpl in Htype. by apply String.eqb_eq in Htype as ->. }
    assert (k ≠ "params" ∧ k ≠ k0) as [Hk1 Hk2].
    { split; intros ->; apply Hk;
        [apply list_elem_of_here|by apply list_elem_of_further]. }
    split; [by rewrite get_with_prop_ne|].
    assert (get (with_prop step "params" (with_prop (get step "params") k0 bag')) "params"
            = with_prop (get step "params") k0 bag') as Hp.
    { apply get_with_prop_eq; [by_name|done|done|done]. }
    unfold mergedParamsOf at 1. rewrite Hp.
    assert (nullish (with_prop step "params" (with_prop (get step "params") k0 bag')) = false)
      as -> by by destruct step.
    assert (truthy (get step "params") && typeof_object (get step "params") = true) as Hobj.
    { unfold mergedParamsOf in Htr. rewrite Hnull in Htr.
      destruct (truthy (get step "params") && typeof_object (get step "params")); [done|].
      by rewrite get_empty_object in Htr. }
    assert (truthy (with_prop (get step "params") k0 bag') &&
            typeof_object (with_prop (get step "params") k0 bag') = true) as ->.
    { by destruct (get step "params"). }
    rewrite get_with_prop_ne by done.
    unfold mergedParamsOf. by rewrite Hnull, Hobj.
  - destruct (bagSite_key _ _ _ _ Hsite) as (Hin & Hnamed & Hlen & Hpar & Htr).
    assert (k ≠ "params" ∧ k ≠ k0) as [Hk1 Hk2].
    { split; intros ->; apply Hk;
        [apply list_elem_of_here|by apply list_elem_of_further]. }
    split; [by rewrite get_with_prop_ne|].
    unfold mergedParamsOf.
    assert (nullish (with_prop step k0 bag') = false) as -> by by destruct step.
    rewrite Hnull. by rewrite get_with_prop_ne.
Qed.

Lemma extract_afterNormalize step args k :
  k ∉ "params" :: bagKeys →
  extract (afterNormalize step) (mergedParamsOf (afterNormalize step)) args k =
  extract step (mergedParamsOf step) args k.
Proof.
  intros Hk. unfold extract.
  by destruct (afterNormalize_reads step k Hk) as [-> ->].
Qed.

(** Nothing is written into a step that is not a [CALL_TOOL] step, that names
    no tool, or whose tool is inferred. *)
Lemma afterNormalize_not_call_tool step :
  str_is (get step "type") "CALL_TOOL" = false → afterNormalize step = step.
Proof. intros H. unfold afterNormalize. rewrite H. by rewrite orb_true_r. Qed.


(** One iteration of the loop whose [try] block throws: the failure is
    recorded and announced, and the loop is left. *)
Lemma loop_step_failed tabContext tabId index step rest results st msg st' :
  stepBody B tabContext tabId index step (st.1, (st.2 ++ [Running index step])%list)
    = (inl msg, st') →
  loop B tabContext tabId index (step :: rest) results st =
  ((results ++ [failed msg])%list,
   (st'.1, (st'.2 ++ [FailedStep index (afterNormalize step) msg])%list)).
Proof. intros H. simpl. by rewrite H. Qed.

(** C9. A [CALL_TOOL] step whose params object is empty and that carries no
    tool name at its top level either (so that neither a name nor an inferable
    shape exists) fails with [call-tool-missing-name]: its [try] block throws
    that error without touching the world, the result
    [{success: false, error: 'call-tool-missing-name'}] is appended, the
    failure is announced and the loop stops. *)
Theorem C9_missing_name tabContext tabId index step rest results st :
  str_is (get step "type") "CALL_TOOL" = true →
  get step "params" = VObj ∅ →
  truthy (get step "tool") = false →
  truthy (get step "toolName") = false →
  truthy (get step "tool_name") = false →
  stepBody B tabContext tabId index step st = (inl "call-tool-missing-name", st) ∧
  loop B tabContext tabId index (step :: rest) results st =
    ((results ++ [failed "call-tool-missing-name"])%list,
     (st.1, (st.2 ++ [Running index step;
                      FailedStep index step "call-tool-missing-name"])%list)).
Proof.
  intros Ht Hp H1 H2 H3.
  assert (Hmp : mergedParamsOf step = VObj ∅).
  { unfold mergedParamsOf. by rewrite (call_tool_not_nullish _ Ht), Hp. }
  assert (Hc : chooseTool step (mergedParamsOf step) = inl "call-tool-missing-name").
  { rewrite Hmp. unfold chooseTool, toolNameOf. rewrite !get_empty_object.
    rewrite !(js_or_falsy VUndef) by done.
    rewrite (js_or_falsy _ _ H1), (js_or_falsy _ _ H2), H3.
    reflexivity. }
  assert (Hb : ∀ st0, stepBody B tabContext tabId index step st0
                      = (inl "call-tool-missing-name", st0)).
  { intros st0. rewrite stepBody_call_tool by done.
    by apply callToolBody_missing_name. }
  split; [apply Hb|].
  rewrite (loop_step_failed _ _ _ _ _ _ _ _ _ (Hb _)). simpl.
  assert (afterNormalize step = step) as ->.
  { unfold afterNormalize. rewrite Hc. by destruct (_ || _). }
  by rewrite <- app_assoc.
Qed.


(** Normalising a non-empty argument object never throws and changes at most
    its [url]. *)
Lemma normalizeArgs_nonempty_object step mergedParams (o : gmap string Value) :
  size o ≠ 0%nat →
  ∃ o' : gmap string Value,
    normalizeArgs step mergedParams (VObj o) = inr (VObj o') ∧
    ∀ k, k ≠ "url" → o' !! k = o !! k.
Proof.
  intros Hs. unfold normalizeArgs. simpl.
  destruct (size o =? 0)%nat eqn:E; [apply Nat.eqb_eq in E; done|].
  unfold set_prop_if. simpl.
  destruct (truthy (get step "url")), (truthy (get mergedParams "url")); simpl;
    eexists; (split; [reflexivity|]); intros k Hk;
    rewrite ?lookup_insert_ne by done; reflexivity.
Qed.

Lemma infer_nonempty mergedParams n a :
  infer mergedParams = Some (n, a) → size a ≠ 0%nat.
Proof.
  unfold infer. intros H.
  repeat match type of H with
         | (if ?c then _ else _) = _ => destruct c
         end; simplify_eq;
    rewrite ?map_size_insert, ?lookup_singleton_ne, ?map_size_singleton by done; done.
Qed.


(** The dispatch of a [new_page] call, case by case. *)
Lemma not_bag_key k :
  (k = "url" ∨ k = "forceNew" ∨ k = "force_new") → k ∉ "params" :: bagKeys.
Proof.
  unfold bagKeys. intros Hk Hin.
  repeat (apply elem_of_cons in Hin as [->|Hin]; [by destruct Hk as [?|[?|?]]|]).
  by apply elem_of_nil in Hin.
Qed.

Lemma dispatch_new_page tabContext tabId index step mergedParams name args st :
  lnameOf name = "new_page" →
  dispatch B tabContext tabId index step mergedParams name args st =
  let url := extract step mergedParams args "url" in
  if negb (truthy url) then
    (inl "blocked-new-page-without-url",
     (st.1, (st.2 ++ [WarnBlocked "Blocked request to open a new page without URL."
                        index step])%list))
  else if truthy (extract step mergedParams args "forceNew") ||
          truthy (extract step mergedParams args "force_new") then
    if isConnected B st.1 then awaitCallTool B (VStr "new_page") args st
    else
      (inl "blocked-new-page-force-new-bridge-off",
       (st.1, (st.2 ++ [WarnBlocked
                          "Attempted force-new but MCP bridge not connected; blocked."
                          index step])%list))
  else awaitHandleAction B (navigateAction url tabId) st.
Proof.
  intros Hl. unfold dispatch. rewrite Hl.
  change (startsWith "new_page" "pages_") with false.
  change (String.eqb "new_page" "new_page") with true. cbn [orb].
  cbv zeta.
  destruct (truthy (extract step mergedParams args "url")); cbn [negb]; [|done].
  destruct (truthy (extract step mergedParams args "forceNew") ||
            truthy (extract step mergedParams args "force_new")); [|done].
  unfold bind, bridgeConnected.
  destruct (isConnected B st.1); done.
Qed.

(** C4. A resolved [new_page] call without a url (the url looked up in the
    resolved arguments, else in the step, else in its params, is falsy)
    fails with [blocked-new-page-without-url], whatever the connectivity of
    the bridge and whatever [forceNew] says; no backend is called, the refusal
    is announced as a warning, and the step's [try] block throws that error. *)
Theorem C4_new_page_without_url tabContext tabId index step rc st :
  resolve step = inr rc →
  lnameOf (toolName rc) = "new_page" →
  truthy (extract step (mergedParamsOf step) (arguments rc) "url") = false →
  dispatch B tabContext tabId index step (mergedParamsOf step)
      (toolName rc) (arguments rc) st =
    (inl "blocked-new-page-without-url",
     (st.1, (st.2 ++ [WarnBlocked "Blocked request to open a new page without URL."
                        index step])%list)) ∧
  (str_is (get step "type") "CALL_TOOL" = true →
   ∃ log, stepBody B tabContext tabId index step st =
            (inl "blocked-new-page-without-url", (st.1, log))).
Proof.
  intros Hr Hl Hu.
  assert (Hd : ∀ st0, dispatch B tabContext tabId index step (mergedParamsOf step)
                        (toolName rc) (arguments rc) st0 =
    (inl "blocked-new-page-without-url",
     (st0.1, (st0.2 ++ [WarnBlocked "Blocked request to open a new page without URL."
                          index step])%list))).
  { intros st0. rewrite dispatch_new_page by done. cbv zeta. by rewrite Hu. }
  split; [apply Hd|].
  intros Ht. rewrite stepBody_call_tool by done.
  rewrite (callToolBody_resolved _ _ _ _ _ _ Hr). cbv zeta.
  unfold bind. rewrite dispatch_new_page by done. cbv zeta.
  rewrite extract_afterNormalize by (apply not_bag_key; auto).
  rewrite Hu. simpl. eauto.
Qed.

(** C3. A resolved [new_page] call with a url (truthy) that asks for a new
    page ([forceNew] or [force_new] truthy) fails with
    [blocked-new-page-force-new-bridge-off] when the bridge is not connected:
    the refusal is announced, no backend is called and the step's [try]
    block throws that error.  When the bridge is connected the call is the
    bridge's [callTool] on the name [new_page] with the resolved arguments:
    its answer is the answer of the dispatch, and the world after the step is
    the one that call leaves.  Without [forceNew] the call is the local
    backend's [handleAction] on the action [{type: 'NAVIGATE', url, tabId}],
    [tabId] being the tab the executor was given, whatever the state of the
    bridge; the world after the step is the one that action leaves, so that
    the bridge is not called and no page is opened. *)
Theorem C3_new_page_with_url tabContext tabId index step rc st :
  resolve step = inr rc →
  lnameOf (toolName rc) = "new_page" →
  let args := arguments rc in
  let mp := mergedParamsOf step in
  let url := extract step mp args "url" in
  let forceNew := truthy (extract step mp args "forceNew") ||
                  truthy (extract step mp args "force_new") in
  truthy url = true →
  (forceNew = true → isConnected B st.1 = false →
   dispatch B tabContext tabId index step mp (toolName rc) args st =
     (inl "blocked-new-page-force-new-bridge-off",
      (st.1, (st.2 ++ [WarnBlocked
                         "Attempted force-new but MCP bridge not connected; blocked."
                         index step])%list)) ∧
   (str_is (get step "type") "CALL_TOOL" = true →
    ∃ log, stepBody B tabContext tabId index step st =
             (inl "blocked-new-page-force-new-bridge-off", (st.1, log)))) ∧
  (forceNew = true → isConnected B st.1 = true →
   let call := callTool B (VStr "new_page") args st.1 in
   dispatch B tabContext tabId index step mp (toolName rc) args st =
     (call.1, (call.2, st.2)) ∧
   (str_is (get step "type") "CALL_TOOL" = true →
    (stepBody B tabContext tabId index step st).2.1 = call.2 ∧
    ∀ e, call.1 = inl e → (stepBody B tabContext tabId index step st).1 = inl e)) ∧
  (forceNew = false →
   let action := VObj (<["tabId" := tabId]> (<["url" := url]> {["type" := VStr "NAVIGATE"]})) in
   let done := handleAction B action st.1 in
   get action "type" = VStr "NAVIGATE" ∧ get action "url" = url ∧
   get action "tabId" = tabId ∧
   dispatch B tabContext tabId index step mp (toolName rc) args st =
     (inr done.1, (done.2, st.2)) ∧
   (str_is (get step "type") "CALL_TOOL" = true →
    (stepBody B tabContext tabId index step st).2.1 = done.2)).
Proof.
  intros Hr Hl args mp url forceNew Hu.
  assert (Hd : ∀ step' st0,
    extract step' (mergedParamsOf step') args "url" = url →
    truthy (extract step' (mergedParamsOf step') args "forceNew") ||
      truthy (extract step' (mergedParamsOf step') args "force_new") = forceNew →
    dispatch B tabContext tabId index step' (mergedParamsOf step') (toolName rc) args st0 =
    if forceNew then
      if isConnected B st0.1 then
        ((callTool B (VStr "new_page") args st0.1).1,
         ((callTool B (VStr "new_page") args st0.1).2, st0.2))
      else (inl "blocked-new-page-force-new-bridge-off",
            (st0.1, (st0.2 ++ [WarnBlocked
               "Attempted force-new but MCP bridge not connected; blocked."
               index step'])%list))
    else (inr (handleAction B (navigateAction url tabId) st0.1).1,
          ((handleAction B (navigateAction url tabId) st0.1).2, st0.2))).
  { intros step' st0 E1 E2. rewrite dispatch_new_page by done. cbv zeta.
    rewrite E1, E2, Hu. cbn [negb].
    unfold awaitCallTool, awaitHandleAction.
    destruct forceNew; [destruct (isConnected B st0.1); [|done]|].
    - by destruct (callTool B (VStr "new_page") args st0.1).
    - by destruct (handleAction B (navigateAction url tabId) st0.1). }
  assert (Hb : str_is (get step "type") "CALL_TOOL" = true → ∃ log,
    stepBody B tabContext tabId index step st =
    bind (dispatch B tabContext tabId index (afterNormalize step)
            (mergedParamsOf (afterNormalize step)) (toolName rc) args)
         checkToolResult (st.1, log) ∧
    extract (afterNormalize step) (mergedParamsOf (afterNormalize step)) args "url" = url ∧
    truthy (extract (afterNormalize step) (mergedParamsOf (afterNormalize step)) args
              "forceNew") ||
      truthy (extract (afterNormalize step) (mergedParamsOf (afterNormalize step)) args
                "force_new") = forceNew).
  { intros Ht. rewrite stepBody_call_tool by done.
    rewrite (callToolBody_resolved _ _ _ _ _ _ Hr). cbv zeta.
    eexists. split; [reflexivity|].
    by rewrite !extract_afterNormalize by (apply not_bag_key; auto). }
  assert (Hcheck : ∀ (r : Value) (st0 : W * list Notice),
            (checkToolResult r st0).2 = st0).
  { intros r st0. unfold checkToolResult. by destruct (_ && _). }
  split_and!.
  - intros Hf Hc. split.
    + etrans; [by apply (Hd step st)|]. by rewrite Hf, Hc.
    + intros Ht. destruct (Hb Ht) as (log & -> & E1 & E2).
      unfold bind. rewrite (Hd _ _ E1 E2), Hf. cbn [fst]. rewrite Hc. eauto.
  - intros Hf Hc call. split.
    + etrans; [by apply (Hd step st)|]. by rewrite Hf, Hc.
    + intros Ht. destruct (Hb Ht) as (log & -> & E1 & E2).
      unfold bind. rewrite (Hd _ _ E1 E2), Hf. cbn [fst]. rewrite Hc.
      fold call. destruct call.1 as [e|r] eqn:Hcall.
      * split; [done|]. by intros e' [= <-].
      * split; [by rewrite Hcheck|done].
  - intros Hf action done'.
    assert (navigateAction url tabId = action) as Ha by done.
    split_and!.
    + unfold action, get. rewrite lookup_insert_ne by done.
      rewrite lookup_insert_ne by done. by rewrite lookup_singleton_eq.
    + unfold action, get. rewrite lookup_insert_ne by done. by rewrite lookup_insert_eq.
    + unfold action, get. by rewrite lookup_insert_eq.
    + etrans; [by apply (Hd step st)|]. by rewrite Hf, Ha.
    + intros Ht. destruct (Hb Ht) as (log & -> & E1 & E2).
      unfold bind. rewrite (Hd _ _ E1 E2), Hf, Ha. cbn [fst snd].
      by rewrite Hcheck.
Qed.

(** In a non-empty argument bag a top-level [url] does replace the nested
    one: the one place where the override is implemented. *)
Lemma url_override_example :
  resolve shadowedUrlStep =
    inr {| toolName := VStr "navigate_page";
           arguments := obj [("url", VStr "http://top")];
           inferred := None |}.
Proof. vm_compute. reflexivity. Qed.

(** C5 (fails on the code). The step
    [{type: 'CALL_TOOL', selector: '#top', params: {tool:
    'extension_fill_selector', arguments: {selector: '#nested', value: 'x'}}}]
    has a top-level [selector], yet it resolves to the arguments
    [{selector: '#nested', value: 'x'}]: the nested selector wins, and the
    executor fills [#nested].  In a non-empty bag only [url] is overridden. *)
Theorem C5_top_level_selector_ignored :
  get shadowedSelectorStep "selector" = VStr "#top" ∧
  resolve shadowedSelectorStep =
    inr {| toolName := VStr "extension_fill_selector";
           arguments := obj [("selector", VStr "#nested"); ("value", VStr "x")];
           inferred := None |} ∧
  (executePlan recordingBackends [shadowedSelectorStep] (VNum 1) []).2.1 =
    [LocalAction (fillAction (VStr "#nested") (VStr "x") (VNum 1))].
Proof. vm_compute. done. Qed.

(** What the loop adds to [results] when started on [plan]: at most one
    result per step, successes followed by at most one failure, which is
    last; a shorter sequence ends in a failure; and the steps after the last
    result play no part in the run. *)
Lemma loop_spec tabContext tabId plan : ∀ index results st,
  ∃ rs,
    (loop B tabContext tabId index plan results st).1 = (results ++ rs)%list ∧
    (length rs ≤ length plan)%nat ∧
    (∀ i r, (S i < length rs)%nat → rs !! i = Some r → success r = true) ∧
    ((length rs < length plan)%nat → ∃ r, last rs = Some r ∧ success r = false) ∧
    loop B tabContext tabId index (take (length rs) plan) results st =
      loop B tabContext tabId index plan results st.
Proof.
  induction plan as [|step rest IH]; intros index results st.
  - exists []. simpl. rewrite app_nil_r. split_and!; try done; lia.
  - cbn [loop].
    destruct (stepBody B tabContext tabId index step
                (st.1, (st.2 ++ [Running index step])%list)) as [[msg|r] st'] eqn:Hb.
    + exists [failed msg]. cbn [length take loop]. rewrite Hb.
      split_and!; try done.
      * simpl. lia.
      * intros i r Hi. simpl in Hi. lia.
      * intros _. by exists (failed msg).
    + destruct (IH (S index) (results ++ [succeeded r])%list
                  (st'.1, (st'.2 ++ [Completed index (afterNormalize step) r])%list))
        as (rs & Heq & Hlen & Hpre & Hshort & Htake).
      exists (succeeded r :: rs). cbn [length take loop]. rewrite Hb.
      split_and!.
      * rewrite Heq. by rewrite <- app_assoc.
      * simpl. lia.
      * intros [|i] r' Hi Hl; simpl in *; [by simplify_eq|].
        apply (Hpre i); [lia|done].
      * intros Hlt. destruct Hshort as (r' & Hlast & Hf); [simpl in Hlt; lia|].
        exists r'. split; [|done].
        destruct rs as [|x rs']; [done|]. done.
      * apply Htake.
Qed.

(** *** The log of one iteration *)

Lemma attempted_app (a b : list Notice) :
  attempted (a ++ b) = (attempted a + attempted b)%nat.
Proof. unfold attempted. by rewrite List.filter_app, length_app. Qed.

Lemma quiet_ret {A} (a : A) : appendsQuietly (@ret W A a).
Proof. intros st. exists []. by rewrite app_nil_r. Qed.

Lemma quiet_throw {A} msg : appendsQuietly (@throw W A msg).
Proof. intros st. exists []. by rewrite app_nil_r. Qed.

Lemma quiet_liftE {A} (r : string + A) : appendsQuietly (@liftE W A r).
Proof. destruct r; [apply quiet_throw|apply quiet_ret]. Qed.

Lemma quiet_bind {A C} (m : @M W A) (k : A → @M W C) :
  appendsQuietly m → (∀ a, appendsQuietly (k a)) → appendsQuietly (bind m k).
Proof.
  intros Hm Hk st. unfold bind. destruct (Hm st) as (e1 & H1 & Q1).
  destruct (m st) as [[e|a] st1]; simpl in *; [by exists e1|].
  destruct (Hk a st1) as (e2 & H2 & Q2). exists (e1 ++ e2)%list.
  rewrite H2, H1, app_assoc, attempted_app. split; [done|lia].
Qed.

Lemma quiet_notify n : is_running n = false → appendsQuietly (@notifyPopup W n).
Proof. intros Hn st. exists [n]. unfold attempted. simpl. by rewrite Hn. Qed.

Lemma quiet_handleAction action : appendsQuietly (awaitHandleAction B action).
Proof.
  intros st. exists []. unfold awaitHandleAction.
  destruct (handleAction B action st.1). by rewrite app_nil_r.
Qed.

Lemma quiet_callTool name args : appendsQuietly (awaitCallTool B name args).
Proof.
  intros st. exists []. unfold awaitCallTool.
  destruct (callTool B name args st.1). by rewrite app_nil_r.
Qed.

Lemma quiet_bridgeConnected : appendsQuietly (bridgeConnected B).
Proof. intros st. exists []. by rewrite app_nil_r. Qed.

Lemma quiet_pages activeTabId : appendsQuietly (buildLocalPagesSummary B activeTabId).
Proof.
  intros st. exists []. unfold buildLocalPagesSummary.
  destruct (queryTabs B st.1); by rewrite app_nil_r.
Qed.

Ltac quiet :=
  repeat first
    [ apply quiet_ret | apply quiet_throw | apply quiet_liftE
    | apply quiet_handleAction | apply quiet_callTool | apply quiet_bridgeConnected
    | apply quiet_pages | apply quiet_notify; reflexivity
    | apply quiet_bind; [|intros ?]
    | match goal with
      | |- appendsQuietly (if ?c then _ else _) => destruct c
      | |- appendsQuietly (match ?x with Some _ => _ | None => _ end) => destruct x
      end ].

Lemma quiet_dispatch tabContext tabId index step mergedParams name args :
  appendsQuietly (dispatch B tabContext tabId index step mergedParams name args).
Proof. unfold dispatch, forwardToBridge. cbv zeta. quiet. Qed.

Lemma quiet_stepBody tabContext tabId index step :
  appendsQuietly (stepBody B tabContext tabId index step).
Proof.
  unfold stepBody, callToolBody, checkToolResult. cbv zeta. quiet.
  apply quiet_dispatch.
Qed.

(** The loop opens one iteration per result it adds. *)
Lemma loop_attempted tabContext tabId plan : ∀ index results st,
  let out := loop B tabContext tabId index plan results st in
  (attempted out.2.2 + length results = attempted st.2 + length out.1)%nat.
Proof.
  induction plan as [|step rest IH]; intros index results st; [simpl; lia|].
  cbn [loop]. cbv zeta.
  destruct (quiet_stepBody tabContext tabId index step
              (st.1, (st.2 ++ [Running index step])%list)) as (extra & Hlog & Hq).
  destruct (stepBody B tabContext tabId index step
              (st.1, (st.2 ++ [Running index step])%list)) as [[msg|r] st'].
  - simpl in *. rewrite Hlog, !attempted_app, Hq, length_app.
    change (attempted [Running index step]) with 1%nat.
    change (attempted [FailedStep index (afterNormalize step) msg]) with 0%nat. simpl. lia.
  - pose proof (IH (S index) (results ++ [succeeded r])%list
                  (st'.1, (st'.2 ++ [Completed index (afterNormalize step) r])%list)) as IH'.
    cbv zeta in IH'.
    set (out := loop B tabContext tabId (S index) rest _ _) in *. clearbody out.
    cbn [fst snd] in Hlog, IH'.
    rewrite Hlog, !attempted_app, Hq, length_app in IH'.
    change (attempted [Running index step]) with 1%nat in IH'.
    change (attempted [Completed index (afterNormalize step) r]) with 0%nat in IH'.
    cbn [length] in IH'. lia.
Qed.

(** C1 (as the code has it). For every plan: the result sequence is at most
    as long as the plan and has one result per step attempted; every result
    but the last is a success; a sequence strictly shorter than the plan ends
    in a failure; if every result is a success the sequence has the length of
    the plan; and the run is the run of the first [length results] steps
    alone, so that no step after a failure is attempted.  (The failure of a
    step is recorded before the loop stops, so a failing last step gives a
    sequence as long as the plan.) *)
Theorem C1_result_length plan tabId w :
  let out := executePlan B plan tabId w in
  let rs := out.1 in
  (length rs ≤ length plan)%nat ∧
  attempted out.2.2 = length rs ∧
  (∀ i r, (S i < length rs)%nat → rs !! i = Some r → success r = true) ∧
  ((length rs < length plan)%nat → ∃ r, last rs = Some r ∧ success r = false) ∧
  ((∀ r, r ∈ rs → success r = true) → length rs = length plan) ∧
  executePlan B (take (length rs) plan) tabId w = out.
Proof.
  unfold executePlan.
  pose proof (loop_attempted (queryActiveTab B w) tabId plan 0 [] (w, [])) as Hatt.
  destruct (loop_spec (queryActiveTab B w) tabId plan 0 [] (w, []))
    as (rs & Heq & Hlen & Hpre & Hshort & Htake).
  cbv zeta in *. rewrite Heq in *. cbn [app] in *. split_and!; try done.
  - simpl in Hatt. lia.
  - intros Hall.
    destruct (decide (length rs < length plan)%nat) as [Hlt|]; [|lia].
    destruct (Hshort Hlt) as (r & Hlast & Hf).
    apply last_Some_elem_of in Hlast. apply Hall in Hlast. congruence.
Qed.

End ExecutorProperties.

(** C1 (as stated) fails: the one-step plan [[{type: 'CALL_TOOL', params:
    {}}]] fails at its only step, and the result sequence has the length of
    the plan, not less. *)
Lemma C1_length_iff_failure_counterexample :
  ¬ (∀ (W : Type) (B : Exec.Backends W) (plan : list JS.Value) (tabId : JS.Value) (w : W),
       let rs := (Exec.executePlan B plan tabId w).1 in
       (length rs < length plan)%nat ↔ ∃ r, r ∈ rs ∧ Exec.success r = false).
Proof.
  intros H.
  specialize (H bool Exec.quietBackends [Exec.callToolStep []] JS.VUndef true).
  cbv zeta in H. destruct H as [_ H].
  assert (Hlt : (1 < 1)%nat); [|lia].
  apply H. exists (Exec.failed "call-tool-missing-name").
  split; [|done]. vm_compute. apply list_elem_of_here.
Qed.

(** C9 at the step [{type: 'CALL_TOOL', params: {}}]. *)
Lemma C9_missing_name_witness :
  JS.str_is (JS.get (Exec.callToolStep []) "type") "CALL_TOOL" = true ∧
  JS.get (Exec.callToolStep []) "params" = JS.VObj ∅ ∧
  Exec.stepBody Exec.quietBackends None JS.VUndef 0 (Exec.callToolStep []) (true, [])
    = (inl "call-tool-missing-name", (true, [])).
Proof.
  split; [reflexivity|]. split; [reflexivity|].
  exact (proj1 (C9_missing_name Exec.quietBackends None JS.VUndef 0
                  (Exec.callToolStep []) [] [] (true, [])
                  eq_refl eq_refl eq_refl eq_refl eq_refl)).
Defined.


(** C4 at the step [{type: 'CALL_TOOL', params: {tool: 'new_page'}}], bridge
    connected. *)
Lemma C4_new_page_without_url_witness :
  let rc := {| Exec.toolName := JS.VStr "new_page"; Exec.arguments := JS.VObj ∅;
               Exec.inferred := None |} in
  Exec.resolve Exec.blankNewPageStep = inr rc ∧
  Exec.lnameOf (Exec.toolName rc) = "new_page" ∧
  Exec.dispatch Exec.quietBackends None (JS.VNum 1) 0 Exec.blankNewPageStep
      (Exec.mergedParamsOf Exec.blankNewPageStep) (Exec.toolName rc) (Exec.arguments rc)
      (true, []) =
    (inl "blocked-new-page-without-url",
     (true, [Exec.WarnBlocked "Blocked request to open a new page without URL." 0
               Exec.blankNewPageStep])).
Proof.
  split; [reflexivity|]. split; [reflexivity|].
  exact (proj1 (C4_new_page_without_url Exec.quietBackends None (JS.VNum 1) 0
                  Exec.blankNewPageStep _ (true, []) eq_refl eq_refl eq_refl)).
Defined.

(** C3 at the step [{type: 'CALL_TOOL', params: {tool: 'new_page', url:
    'http://a', forceNew: true}}]: with the bridge not connected the step is
    refused; with the recording backends (bridge connected) the one request
    made is the bridge call of [new_page] with the arguments [{url:
    'http://a'}].  At the same step without [forceNew] the one request made
    is the local action [{type: 'NAVIGATE', url: 'http://a', tabId: 1}]. *)
Lemma C3_new_page_with_url_witness :
  let rc := {| Exec.toolName := JS.VStr "new_page";
               Exec.arguments := Exec.obj [("url", JS.VStr "http://a")];
               Exec.inferred := None |} in
  (Exec.resolve Exec.forcedNewPageStep = inr rc ∧
   Exec.resolve Exec.plainNewPageStep = inr rc ∧
   Exec.lnameOf (Exec.toolName rc) = "new_page") ∧
  Exec.dispatch Exec.quietBackends None (JS.VNum 1) 0 Exec.forcedNewPageStep
      (Exec.mergedParamsOf Exec.forcedNewPageStep) (Exec.toolName rc) (Exec.arguments rc)
      (false, []) =
    (inl "blocked-new-page-force-new-bridge-off",
     (false, [Exec.WarnBlocked
                "Attempted force-new but MCP bridge not connected; blocked." 0
                Exec.forcedNewPageStep])) ∧
  Exec.dispatch Exec.recordingBackends None (JS.VNum 1) 0 Exec.forcedNewPageStep
      (Exec.mergedParamsOf Exec.forcedNewPageStep) (Exec.toolName rc) (Exec.arguments rc)
      ([], []) =
    (inr JS.VNull,
     ([Exec.BridgeCall (JS.VStr "new_page") (Exec.obj [("url", JS.VStr "http://a")])], [])) ∧
  (Exec.stepBody Exec.recordingBackends None (JS.VNum 1) 0 Exec.forcedNewPageStep
     ([], [])).2.1 =
    [Exec.BridgeCall (JS.VStr "new_page") (Exec.obj [("url", JS.VStr "http://a")])] ∧
  (Exec.stepBody Exec.recordingBackends None (JS.VNum 1) 0 Exec.plainNewPageStep
     ([], [])).2.1 =
    [Exec.LocalAction
       (Exec.obj [("type", JS.VStr "NAVIGATE"); ("url", JS.VStr "http://a");
                  ("tabId", JS.VNum 1)])].
Proof.
  split; [by split_and!|].
  split.
  { exact (proj1 (proj1 (C3_new_page_with_url Exec.quietBackends None (JS.VNum 1) 0
                           Exec.forcedNewPageStep _ (false, []) eq_refl eq_refl eq_refl)
                        eq_refl eq_refl)). }
  split.
  { exact (proj1 (proj1 (proj2 (C3_new_page_with_url Exec.recordingBackends None
                                  (JS.VNum 1) 0 Exec.forcedNewPageStep _ ([], [])
                                  eq_refl eq_refl eq_refl))
                        eq_refl eq_refl)). }
  split.
  { exact (proj1 (proj2 (proj1 (proj2 (C3_new_page_with_url Exec.recordingBackends None
                                  (JS.VNum 1) 0 Exec.forcedNewPageStep _ ([], [])
                                  eq_refl eq_refl eq_refl))
                        eq_refl eq_refl) eq_refl)). }
  exact (proj2 (proj2 (proj2 (proj2 (proj2 (proj2
           (C3_new_page_with_url Exec.recordingBackends None (JS.VNum 1) 0
              Exec.plainNewPageStep _ ([], []) eq_refl eq_refl eq_refl))
           eq_refl)))) eq_refl).
Defined.

(* ===================================================================== *)
(** ** Properties of the bridge client                                    *)
(* ===================================================================== *)

Section BridgeProperties.
Import JS Bridge.

Lemma outcomes_app p (a b : list Effect) :
  outcomes p (a ++ b) = (outcomes p a ++ outcomes p b)%list.
Proof.
  induction a as [|e a IH]; [done|].
  destruct e; simpl; try done. case_bool_decide; simpl; by rewrite IH.
Qed.

Lemma fates_app p (a b : list Effect) :
  fates p (a ++ b) = (fates p a ++ fates p b)%list.
Proof.
  induction a as [|e a IH]; [done|].
  destruct e; simpl; try done; case_bool_decide; simpl; by rewrite IH.
Qed.

(** The outcomes are the fates that are outcomes. *)
Lemma outcomes_fates p (tr : list Effect) : outcomes p tr = omap id (fates p tr).
Proof.
  induction tr as [|e tr IH]; [done|].
  destruct e; simpl; try done; case_bool_decide; simpl; by rewrite ?IH.
Qed.

Lemma fates_nil_outcomes p (tr : list Effect) : fates p tr = [] → outcomes p tr = [].
Proof. intros H. by rewrite outcomes_fates, H. Qed.

Lemma outcomes_le_fates p (tr : list Effect) :
  (length (outcomes p tr) ≤ length (fates p tr))%nat.
Proof.
  induction tr as [|e tr IH]; [done|].
  destruct e; simpl; try done; case_bool_decide; simpl; lia.
Qed.

Lemma fates_status_notified p (ls : list nat) st :
  fates p ((fun l => StatusNotified l st) <$> ls) = [].
Proof. by induction ls. Qed.

Lemma fates_notification p (ls : list nat) data :
  fates p ((fun l => NotificationDelivered l data) <$> ls) = [].
Proof. by induction ls. Qed.

(** The invariant speaks of the pending map, the timers, the fresh handles,
    the reconnect timer and the fates only. *)
Lemma Inv_transfer s s' :
  Inv s →
  pending s' = pending s → timers s' = timers s →
  nextTimer s' = nextTimer s → nextPromise s' = nextPromise s →
  reconnectTimer s' = reconnectTimer s →
  (∀ q, fates q (trace s') = fates q (trace s)) →
  Inv s'.
Proof.
  intros [I1 I2 I3 I4 I5 I6 I7 I8 I9] Hp Ht Hnt Hnp Hr Ho.
  split; rewrite ?Hp, ?Ht, ?Hnt, ?Hnp, ?Hr; try done.
  - intros h k p. rewrite Ho. apply I2.
  - intros p. rewrite Ho. apply I5.
  - intros p. rewrite Ho. apply I6.
  - intros p. rewrite Ho. apply I7.
Qed.

(** A request is armed: fresh promise, fresh timer, entry in the map. *)
Lemma Inv_arm s s' id :
  Inv s →
  pending s' = <[id := {| promise := nextPromise s; timeoutId := Some (nextTimer s) |}]>
                 (pending s) →
  timers s' = <[nextTimer s := RequestTimeout id (nextPromise s)]> (timers s) →
  nextTimer s' = S (nextTimer s) → nextPromise s' = S (nextPromise s) →
  reconnectTimer s' = reconnectTimer s →
  (∀ q, fates q (trace s') = fates q (trace s)) →
  Inv s'.
Proof.
  intros [I1 I2 I3 I4 I5 I6 I7 I8 I9] Hp Ht Hnt Hnp Hr Ho.
  assert (Hfresh : timers s !! nextTimer s = None).
  { destruct (timers s !! nextTimer s) eqn:E; [|done]. apply I4 in E. lia. }
  assert (Hnew : fates (nextPromise s) (trace s) = []).
  { destruct (fates (nextPromise s) (trace s)) eqn:E; [done|].
    assert (nextPromise s < nextPromise s)%nat; [|lia]. apply I7. by rewrite E. }
  split; rewrite ?Hp, ?Ht, ?Hnt, ?Hnp, ?Hr.
  - intros k e. rewrite lookup_insert. case_decide as Hk.
    + intros [= <-]. simpl. exists (nextTimer s). subst k.
      by rewrite lookup_insert_eq.
    + intros He. destruct (I1 _ _ He) as (h & Hh & Hth). exists h. split; [done|].
      rewrite lookup_insert_ne; [done|]. intros <-. congruence.
  - intros h k p. rewrite Ho, lookup_insert. case_decide.
    + intros [= <- <-]. split; [lia|done].
    + intros Hh. destruct (I2 _ _ _ Hh). split; [lia|done].
  - intros h h' k k' p. rewrite !lookup_insert.
    repeat case_decide; intros H1 H2; simplify_eq; try done.
    + apply I2 in H2. lia.
    + apply I2 in H1. lia.
    + by eapply I3.
  - intros h cb. rewrite lookup_insert. case_decide; [intros; subst; lia|].
    intros Hh. apply I4 in Hh. lia.
  - intros p. rewrite Ho. apply I5.
  - intros p Hlt. rewrite Ho. intros Hq.
    destruct (decide (p = nextPromise s)) as [->|Hne].
    + exists (nextTimer s), id. by rewrite lookup_insert_eq.
    + destruct (I6 p) as (h & k & Hh); [lia|done|].
      exists h, k. rewrite lookup_insert_ne; [done|]. intros <-. congruence.
  - intros p. rewrite Ho. intros Hq. apply I7 in Hq. lia.
  - intros h Hh. apply I8 in Hh. rewrite lookup_insert_ne; [done|]. intros <-. congruence.
  - intros h. rewrite lookup_insert. case_decide; [done|]. apply I9.
Qed.

(** The promise behind an armed request timer is settled, its timer
    disarmed and the entry under its id deleted. *)
Lemma Inv_fire s s' h id p o :
  Inv s →
  timers s !! h = Some (RequestTimeout id p) →
  pending s' = delete id (pending s) →
  timers s' = delete h (timers s) →
  nextTimer s' = nextTimer s → nextPromise s' = nextPromise s →
  reconnectTimer s' = reconnectTimer s →
  (∀ q, fates q (trace s') =
        (fates q (trace s) ++ if bool_decide (p = q) then [o] else [])%list) →
  Inv s'.
Proof.
  intros [I1 I2 I3 I4 I5 I6 I7 I8 I9] Hh Hp Ht Hnt Hnp Hr Ho.
  destruct (I2 _ _ _ Hh) as [Hplt Hpo].
  split; rewrite ?Hp, ?Ht, ?Hnt, ?Hnp, ?Hr.
  - intros k e. rewrite lookup_delete. case_decide; [done|].
    intros He. destruct (I1 _ _ He) as (h' & Hh' & Hth). exists h'. split; [done|].
    rewrite lookup_delete_ne; [done|]. intros <-. congruence.
  - intros h' k q. rewrite lookup_delete. case_decide; [done|].
    intros Hh'. destruct (I2 _ _ _ Hh') as [Hq1 Hq2]. split; [done|].
    rewrite Ho, Hq2. case_bool_decide; [|done]. subst q.
    exfalso. eauto using I3.
  - intros h1 h2 k k' q. rewrite !lookup_delete. repeat case_decide; try done.
    apply I3.
  - intros h' cb. rewrite lookup_delete. case_decide; [done|]. apply I4.
  - intros q. rewrite Ho. rewrite length_app. case_bool_decide.
    + subst q. rewrite Hpo. simpl. lia.
    + simpl. specialize (I5 q). lia.
  - intros q Hq. rewrite Ho. intros Hnil. apply app_eq_nil in Hnil as [Hnil Hb].
    case_bool_decide; [done|].
    destruct (I6 _ Hq Hnil) as (h' & k & Hh'). exists h', k.
    rewrite lookup_delete_ne; [done|]. intros <-. congruence.
  - intros q. rewrite Ho. case_bool_decide; [by subst|].
    rewrite app_nil_r. apply I7.
  - intros h' Hh'. apply I8 in Hh'. rewrite lookup_delete_ne; [done|].
    intros <-. congruence.
  - intros h'. rewrite lookup_delete. case_decide; [done|]. apply I9.
Qed.

(** A promise is created and rejected on the spot. *)
Lemma Inv_fresh_rejected s s' o :
  Inv s →
  pending s' = pending s → timers s' = timers s →
  nextTimer s' = nextTimer s → nextPromise s' = S (nextPromise s) →
  reconnectTimer s' = reconnectTimer s →
  (∀ q, fates q (trace s') =
        (fates q (trace s) ++ if bool_decide (nextPromise s = q) then [o] else [])%list) →
  Inv s'.
Proof.
  intros [I1 I2 I3 I4 I5 I6 I7 I8 I9] Hp Ht Hnt Hnp Hr Ho.
  assert (Hnew : fates (nextPromise s) (trace s) = []).
  { destruct (fates (nextPromise s) (trace s)) eqn:E; [done|].
    assert (nextPromise s < nextPromise s)%nat; [|lia]. apply I7. by rewrite E. }
  split; rewrite ?Hp, ?Ht, ?Hnt, ?Hnp, ?Hr; try done.
  - intros h k p Hh. destruct (I2 _ _ _ Hh) as [Hq1 Hq2]. split; [lia|].
    rewrite Ho, Hq2. case_bool_decide; [lia|done].
  - intros q. rewrite Ho, length_app. case_bool_decide.
    + subst q. rewrite Hnew. simpl. lia.
    + simpl. specialize (I5 q). lia.
  - intros q Hq. rewrite Ho. intros Hnil. apply app_eq_nil in Hnil as [Hnil Hb].
    case_bool_decide; [done|]. apply I6; [lia|done].
  - intros q. rewrite Ho. case_bool_decide; [subst; lia|].
    rewrite app_nil_r. intros Hq. apply I7 in Hq. lia.
Qed.

(** The reconnect timer is cleared, or has fired. *)
Lemma Inv_reconnect_clear s s' h :
  Inv s →
  reconnectTimer s = Some h →
  pending s' = pending s → timers s' = delete h (timers s) →
  nextTimer s' = nextTimer s → nextPromise s' = nextPromise s →
  reconnectTimer s' = None →
  (∀ q, fates q (trace s') = fates q (trace s)) →
  Inv s'.
Proof.
  intros [I1 I2 I3 I4 I5 I6 I7 I8 I9] Hh Hp Ht Hnt Hnp Hr Ho.
  pose proof (I8 _ Hh) as Hrec.
  split; rewrite ?Hp, ?Ht, ?Hnt, ?Hnp, ?Hr; try done.
  - intros k e He. destruct (I1 _ _ He) as (h' & Hh' & Hth). exists h'. split; [done|].
    rewrite lookup_delete_ne; [done|]. intros <-. congruence.
  - intros h' k q. rewrite Ho, lookup_delete. case_decide; [done|]. apply I2.
  - intros h1 h2 k k' q. rewrite !lookup_delete. repeat case_decide; try done. apply I3.
  - intros h' cb. rewrite lookup_delete. case_decide; [done|]. apply I4.
  - intros q. rewrite Ho. apply I5.
  - intros q Hq. rewrite Ho. intros Hnil.
    destruct (I6 _ Hq Hnil) as (h' & k & Hh'). exists h', k.
    rewrite lookup_delete_ne; [done|]. intros <-. congruence.
  - intros q. rewrite Ho. apply I7.
  - intros h'. rewrite lookup_delete. case_decide; [done|].
    intros Hh'. apply I9 in Hh'. congruence.
Qed.

(** The reconnect timer is armed. *)
Lemma Inv_reconnect_arm s s' :
  Inv s →
  reconnectTimer s = None →
  pending s' = pending s → timers s' = <[nextTimer s := Reconnect]> (timers s) →
  nextTimer s' = S (nextTimer s) → nextPromise s' = nextPromise s →
  reconnectTimer s' = Some (nextTimer s) →
  (∀ q, fates q (trace s') = fates q (trace s)) →
  Inv s'.
Proof.
  intros [I1 I2 I3 I4 I5 I6 I7 I8 I9] Hh Hp Ht Hnt Hnp Hr Ho.
  assert (Hfresh : timers s !! nextTimer s = None).
  { destruct (timers s !! nextTimer s) eqn:E; [|done]. apply I4 in E. lia. }
  split; rewrite ?Hp, ?Ht, ?Hnt, ?Hnp, ?Hr.
  - intros k e He. destruct (I1 _ _ He) as (h' & Hh' & Hth). exists h'. split; [done|].
    rewrite lookup_insert_ne; [done|]. intros <-. congruence.
  - intros h' k q. rewrite Ho, lookup_insert. case_decide; [done|]. apply I2.
  - intros h1 h2 k k' q. rewrite !lookup_insert. repeat case_decide; try done. apply I3.
  - intros h' cb. rewrite lookup_insert. case_decide; [intros; subst; lia|].
    intros Hh'. apply I4 in Hh'. lia.
  - intros q. rewrite Ho. apply I5.
  - intros q Hq. rewrite Ho. intros Hnil.
    destruct (I6 _ Hq Hnil) as (h' & k & Hh'). exists h', k.
    rewrite lookup_insert_ne; [done|]. intros <-. congruence.
  - intros q. rewrite Ho. apply I7.
  - intros h' [= <-]. by rewrite lookup_insert_eq.
  - intros h'. rewrite lookup_insert. case_decide; [by intros; subst|].
    intros Hh'. apply I9 in Hh'. congruence.
Qed.

Lemma Inv_initial : Inv initial.
Proof. split; simpl; try done; intros; simplify_map_eq; lia. Qed.

(** *** The operations preserve the invariant *)

Lemma Inv_updateStatus st s : Inv s → Inv (updateStatus st s).
Proof.
  intros HI. unfold updateStatus. case_decide; [done|].
  apply (Inv_transfer s); try done.
  intros q. simpl. by rewrite fates_app, fates_status_notified, app_nil_r.
Qed.

Lemma Inv_clearReconnectTimer s : Inv s → Inv (clearReconnectTimer s).
Proof.
  intros HI. unfold clearReconnectTimer.
  destruct (reconnectTimer s) as [h|] eqn:E; [|done].
  by apply (Inv_reconnect_clear s _ h).
Qed.

Lemma Inv_scheduleReconnect s : Inv s → Inv (scheduleReconnect s).
Proof.
  intros HI. unfold scheduleReconnect.
  destruct (bool_decide (reconnectTimer s ≠ None)) eqn:E; [done|].
  destruct (bool_decide (url s = None)); [done|]. simpl.
  apply bool_decide_eq_false in E. apply dec_stable in E.
  by apply (Inv_reconnect_arm s).
Qed.

Lemma Inv_legacy_scheduleReconnect s : Inv s → Inv (Legacy.scheduleReconnect s).
Proof.
  intros HI. unfold Legacy.scheduleReconnect.
  destruct (bool_decide (reconnectTimer s ≠ None)) eqn:E; [done|]. simpl.
  apply bool_decide_eq_false in E. apply dec_stable in E.
  by apply (Inv_reconnect_arm s).
Qed.

Lemma Inv_settle s id e o :
  Inv s → pending s !! id = Some e → Inv (settle id e o s).
Proof.
  intros HI He. destruct (inv_pending_timer s HI _ _ He) as (h & Hh & Hth).
  apply (Inv_fire s _ h id (promise e) (Some o)); try done; unfold settle; rewrite Hh;
    try done.
  intros q. simpl. rewrite fates_app. simpl.
  case_bool_decide; by rewrite ?app_nil_r.
Qed.

(** What [settle] leaves alone. *)
Lemma settle_fields s id e o :
  let s' := settle id e o s in
  url s' = url s ∧ status s' = status s ∧ socket s' = socket s ∧
  reconnectTimer s' = reconnectTimer s ∧ nextId s' = nextId s ∧
  statusListeners s' = statusListeners s ∧
  notificationListeners s' = notificationListeners s ∧
  nextTimer s' = nextTimer s ∧ nextPromise s' = nextPromise s ∧
  nextSocket s' = nextSocket s ∧
  pending s' = delete id (pending s) ∧
  trace s' = (trace s ++ [Settled (promise e) o])%list.
Proof. unfold settle. by destruct (timeoutId e). Qed.

(** The loop of [rejectAll] over a list of entries. *)
Lemma rejectLoop_spec msg (l : list (string * PendingRequest)) : ∀ s,
  let s' := foldl (fun acc e => settle e.1 e.2 (Rejected msg) acc) s l in
  url s' = url s ∧ status s' = status s ∧ socket s' = socket s ∧
  reconnectTimer s' = reconnectTimer s ∧ nextId s' = nextId s ∧
  statusListeners s' = statusListeners s ∧
  notificationListeners s' = notificationListeners s ∧
  nextTimer s' = nextTimer s ∧ nextPromise s' = nextPromise s ∧
  nextSocket s' = nextSocket s ∧
  (∀ k, pending s' !! k = if bool_decide (k ∈ l.*1) then None else pending s !! k) ∧
  trace s' = (trace s ++ ((fun e => Settled (promise e.2) (Rejected msg)) <$> l))%list.
Proof.
  induction l as [|[k e] l IH]; intros s.
  - simpl. rewrite app_nil_r. split_and!; try done.
  - cbn [foldl]. specialize (IH (settle k e (Rejected msg) s)).
    destruct (settle_fields s k e (Rejected msg))
      as (F1 & F2 & F3 & F4 & F5 & F6 & F7 & F8 & F9 & F10 & F11 & F12).
    destruct IH as (G1 & G2 & G3 & G4 & G5 & G6 & G7 & G8 & G9 & G10 & G11 & G12).
    cbv zeta. simpl fst in *. simpl snd in *.
    split_and!; try congruence.
    + intros k'. rewrite G11, F11. rewrite fmap_cons. simpl.
      rewrite lookup_delete.
      destruct (decide (k' ∈ l.*1)) as [Hin|Hin].
      * rewrite !bool_decide_eq_true_2; [done| |done]. by apply list_elem_of_further.
      * rewrite (bool_decide_eq_false_2 (k' ∈ l.*1)) by done.
        case_decide as Hk.
        -- subst. rewrite bool_decide_eq_true_2; [done|]. apply list_elem_of_here.
        -- rewrite bool_decide_eq_false_2; [done|].
           intros [?|?]%elem_of_cons; congruence.
    + rewrite G12, F12. rewrite fmap_cons. by rewrite <- app_assoc.
Qed.

Lemma Inv_rejectLoop msg (l : list (string * PendingRequest)) : ∀ s,
  Inv s → NoDup l.*1 → (∀ k e, (k, e) ∈ l → pending s !! k = Some e) →
  Inv (foldl (fun acc e => settle e.1 e.2 (Rejected msg) acc) s l).
Proof.
  induction l as [|[k e] l IH]; intros s HI Hnd Hin; [done|].
  cbn [foldl]. simpl fst. simpl snd.
  rewrite fmap_cons in Hnd. apply NoDup_cons in Hnd as [Hk Hnd].
  apply IH; [|done|].
  - apply Inv_settle; [done|]. apply Hin, list_elem_of_here.
  - intros k' e' Hin'.
    destruct (settle_fields s k e (Rejected msg))
      as (_ & _ & _ & _ & _ & _ & _ & _ & _ & _ & F11 & _).
    rewrite F11. rewrite lookup_delete_ne.
    + apply Hin. by apply list_elem_of_further.
    + intros <-. apply Hk. apply list_elem_of_fmap. by exists (k, e').
Qed.

Lemma Inv_rejectAll msg s : Inv s → Inv (rejectAll msg s).
Proof.
  intros HI. unfold rejectAll. apply Inv_rejectLoop; [done| |].
  - apply NoDup_fst_map_to_list.
  - intros k e. by rewrite elem_of_map_to_list.
Qed.

(** What [rejectAll] does: every pending request is rejected with the
    message, the map is left empty, the other fields are untouched. *)
Lemma rejectAll_spec msg s :
  let s' := rejectAll msg s in
  url s' = url s ∧ status s' = status s ∧ socket s' = socket s ∧
  reconnectTimer s' = reconnectTimer s ∧ nextId s' = nextId s ∧
  statusListeners s' = statusListeners s ∧
  notificationListeners s' = notificationListeners s ∧
  nextTimer s' = nextTimer s ∧ nextPromise s' = nextPromise s ∧
  nextSocket s' = nextSocket s ∧
  pending s' = ∅ ∧
  trace s' = (trace s ++ ((fun e => Settled (promise e.2) (Rejected msg))
                            <$> map_to_list (pending s)))%list.
Proof.
  destruct (rejectLoop_spec msg (map_to_list (pending s)) s)
    as (G1 & G2 & G3 & G4 & G5 & G6 & G7 & G8 & G9 & G10 & G11 & G12).
  unfold rejectAll. split_and!; try done.
  apply map_eq. intros k. rewrite G11, lookup_empty.
  case_bool_decide as Hk; [done|].
  destruct (pending s !! k) as [e|] eqn:E; [|done].
  exfalso. apply Hk. apply list_elem_of_fmap. exists (k, e).
  split; [done|]. by apply elem_of_map_to_list.
Qed.

Lemma Inv_emit_quiet es s :
  (∀ q, fates q es = []) → Inv s → Inv (emit es s).
Proof.
  intros Hq HI. apply (Inv_transfer s); try done.
  intros q. simpl. by rewrite fates_app, Hq, app_nil_r.
Qed.

Lemma Inv_teardown error suppress s : Inv s → Inv (teardown error suppress s).
Proof.
  intros HI. unfold teardown.
  set (s1 := match socket s with Some k => emit [SocketCloseCalled k] s | None => s end).
  assert (H1 : Inv s1).
  { unfold s1. destruct (socket s); [|done]. by apply Inv_emit_quiet. }
  assert (H2 : Inv (set_socket None s1)) by by apply (Inv_transfer s1).
  pose proof (Inv_rejectAll (default disconnectedMessage error) _
                (Inv_updateStatus disconnected _ H2)) as H4.
  destruct (suppress || bool_decide (url _ = None)).
  - by apply Inv_clearReconnectTimer.
  - by apply Inv_scheduleReconnect.
Qed.

Lemma Inv_legacy_handleDisconnect error s : Inv s → Inv (Legacy.handleDisconnect error s).
Proof.
  intros HI. unfold Legacy.handleDisconnect.
  apply Inv_legacy_scheduleReconnect, Inv_rejectAll, Inv_updateStatus.
  by apply (Inv_transfer s).
Qed.

Lemma Inv_connect ctorError s : Inv s → Inv (connect ctorError s).
Proof.
  intros HI. unfold connect. destruct (url s); [|by apply Inv_updateStatus].
  destruct (bool_decide (socket s ≠ None) || bool_decide (status s = connecting)); [done|].
  pose proof (Inv_updateStatus connecting _ (Inv_clearReconnectTimer _ HI)) as H1.
  destruct ctorError; [by apply Inv_teardown|].
  eapply Inv_transfer; [apply H1|done..|].
  intros q. simpl. by rewrite fates_app, app_nil_r.
Qed.

Lemma Inv_setUrl next ctorError s : Inv s → Inv (setUrl next ctorError s).
Proof.
  intros HI. unfold setUrl. case_bool_decide.
  - set (s1 := if _ && _ then _ else _).
    assert (Inv s1). { unfold s1. destruct (_ && _); [by apply Inv_connect|done]. }
    case_bool_decide; [by apply Inv_teardown|done].
  - assert (H1 : Inv (set_url (normalizeUrl next) s)) by by apply (Inv_transfer s).
    destruct (url (set_url (normalizeUrl next) s)); [|by apply Inv_teardown].
    by apply Inv_connect, Inv_teardown.
Qed.

Lemma Inv_handleMessage parsed s : Inv s → Inv (handleMessage parsed s).
Proof.
  intros HI. unfold handleMessage. destruct parsed as [data|]; [|by apply Inv_emit_quiet].
  destruct (_ || _).
  - destruct (pending s !! _) as [e|] eqn:E; [|done].
    destruct (inv_pending_timer s HI _ _ E) as (h & Hh & Hth). rewrite Hh.
    repeat match goal with |- context [if ?c then _ else _] => destruct c end;
      (eapply (Inv_fire s _ h); [done|apply Hth|done..|]);
      intros q; simpl; rewrite fates_app; simpl;
      case_bool_decide; by rewrite ?app_nil_r.
  - apply Inv_emit_quiet; [|done]. intros q. apply fates_notification.
Qed.

Lemma Inv_callTool name args socketOpen sendError s :
  Inv s → Inv (callTool name args socketOpen sendError s).2.
Proof.
  intros HI. unfold callTool.
  assert (Hrej : ∀ msg,
    Inv (emit [Settled (nextPromise s) (Rejected msg)]
           (emit [PromiseCreated (nextPromise s)] (set_nextPromise (S (nextPromise s)) s)))).
  { intros msg. apply (Inv_fresh_rejected s _ (Some (Rejected msg))); try done.
    intros q. simpl. rewrite !fates_app. simpl.
    case_bool_decide; by rewrite ?app_nil_r. }
  destruct (negb _); [apply Hrej|]. cbn [snd].
  unfold sendRequest. cbn [socket emit set_nextPromise].
  destruct (socket s) as [k|]; [|apply Hrej].
  destruct (negb socketOpen); [apply Hrej|].
  unfold setTimeout. cbv zeta.
  match goal with
  | |- Inv (match sendError with Some e => _ | None => emit _ ?s3 end) =>
      assert (H3 : Inv s3)
  end.
  { apply (Inv_arm s _ (pretty (nextId s))); try done.
    intros q. simpl. by rewrite fates_app, app_nil_r. }
  destruct sendError as [e|]; [|by apply Inv_emit_quiet].
  eapply (Inv_fire _ _ (nextTimer s) (pretty (nextId s)) (nextPromise s)
            (Some (Rejected e)));
    [apply H3|simpl; by rewrite lookup_insert_eq|done..|].
  intros q. simpl. rewrite !fates_app. simpl.
  case_bool_decide; by rewrite ?app_nil_r.
Qed.

Lemma Inv_timerFired h ctorError s : Inv s → Inv (timerFired h ctorError s).
Proof.
  intros HI. unfold timerFired.
  destruct (timers s !! h) as [[id p|]|] eqn:E; [| |done].
  - apply (Inv_fire s _ h id p (Some (Rejected "mcp-timeout"))); try done.
    intros q. simpl. rewrite fates_app. simpl.
    case_bool_decide; by rewrite ?app_nil_r.
  - apply Inv_connect.
    apply (Inv_reconnect_clear s _ h); try done.
    by apply (inv_reconnect_only s HI).
Qed.

Lemma Inv_reconnectNow ctorError s : Inv s → Inv (reconnectNow ctorError s).
Proof.
  intros HI. unfold reconnectNow. destruct (url s); [|by apply Inv_updateStatus].
  destruct (socket s); [by apply Inv_emit_quiet|by apply Inv_connect].
Qed.

Lemma Inv_step i s : Inv s → Inv (step i s).
Proof.
  intros HI. destruct i; simpl.
  - by apply Inv_setUrl.
  - by apply Inv_reconnectNow.
  - by apply Inv_callTool.
  - unfold onStatusChange. apply Inv_emit_quiet; [done|]. by apply (Inv_transfer s).
  - by apply (Inv_transfer s).
  - by apply (Inv_transfer s).
  - by apply (Inv_transfer s).
  - by apply Inv_updateStatus.
  - by apply Inv_handleMessage.
  - done.
  - by apply Inv_teardown.
  - by apply Inv_timerFired.
Qed.

Lemma Inv_run inputs : ∀ s, Inv s → Inv (run inputs s).
Proof.
  induction inputs as [|i inputs IH]; intros s HI; [done|].
  apply IH. by apply Inv_step.
Qed.

(** Every state the bridge reaches from its construction satisfies the
    invariant. *)
Lemma Inv_reachable inputs : Inv (run inputs initial).
Proof. apply Inv_run, Inv_initial. Qed.

(** *** The record of effects only grows *)

Lemma trace_updateStatus st s : trace s `prefix_of` trace (updateStatus st s).
Proof. unfold updateStatus. case_decide; [done|]. by eexists. Qed.

Lemma trace_clearReconnectTimer s : trace (clearReconnectTimer s) = trace s.
Proof. unfold clearReconnectTimer. by destruct (reconnectTimer s). Qed.

Lemma trace_scheduleReconnect s : trace (scheduleReconnect s) = trace s.
Proof. unfold scheduleReconnect. by destruct (_ || _). Qed.

Lemma trace_teardown error suppress s :
  trace s `prefix_of` trace (teardown error suppress s).
Proof.
  unfold teardown.
  set (s1 := match socket s with Some k => emit [SocketCloseCalled k] s | None => s end).
  assert (H1 : trace s `prefix_of` trace s1).
  { unfold s1. destruct (socket s); [by eexists|done]. }
  set (s3 := updateStatus disconnected (set_socket None s1)).
  assert (H3 : trace s `prefix_of` trace s3).
  { etrans; [apply H1|]. apply (trace_updateStatus disconnected (set_socket None s1)). }
  set (s4 := rejectAll _ s3).
  assert (H4 : trace s `prefix_of` trace s4).
  { etrans; [apply H3|]. unfold s4.
    destruct (rejectAll_spec (default disconnectedMessage error) s3)
      as (_ & _ & _ & _ & _ & _ & _ & _ & _ & _ & _ & ->). by eexists. }
  destruct (_ || _).
  - by rewrite trace_clearReconnectTimer.
  - by rewrite trace_scheduleReconnect.
Qed.

Lemma trace_connect ctorError s : trace s `prefix_of` trace (connect ctorError s).
Proof.
  unfold connect. destruct (url s); [|apply trace_updateStatus].
  destruct (_ || _); [done|].
  set (s1 := updateStatus connecting (clearReconnectTimer s)).
  assert (H1 : trace s `prefix_of` trace s1).
  { unfold s1. rewrite <- (trace_clearReconnectTimer s) at 1. apply trace_updateStatus. }
  destruct ctorError.
  - etrans; [apply H1|]. apply trace_teardown.
  - etrans; [apply H1|]. by eexists.
Qed.

Lemma trace_setUrl next ctorError s : trace s `prefix_of` trace (setUrl next ctorError s).
Proof.
  unfold setUrl. case_bool_decide.
  - set (s1 := if _ && _ then _ else _).
    assert (H1 : trace s `prefix_of` trace s1).
    { unfold s1. destruct (_ && _); [apply trace_connect|done]. }
    case_bool_decide; [|done]. etrans; [apply H1|]. apply trace_teardown.
  - destruct (url (set_url (normalizeUrl next) s)).
    + etrans; [|apply trace_connect].
      apply (trace_teardown _ _ (set_url (normalizeUrl next) s)).
    + apply (trace_teardown _ _ (set_url (normalizeUrl next) s)).
Qed.

Lemma trace_handleMessage parsed s : trace s `prefix_of` trace (handleMessage parsed s).
Proof.
  unfold handleMessage. destruct parsed; [|by eexists].
  destruct (_ || _); [|by eexists].
  destruct (pending s !! _) as [e|]; [|done].
  destruct (timeoutId e);
    repeat match goal with |- context [if ?c then _ else _] => destruct c end;
    by eexists.
Qed.

Lemma trace_callTool name args socketOpen sendError s :
  trace s `prefix_of` trace (callTool name args socketOpen sendError s).2.
Proof.
  unfold callTool, sendRequest. simpl.
  repeat match goal with
         | |- context [if ?c then _ else _] => destruct c
         | |- context [match ?c with Some _ => _ | None => _ end] => destruct c
         end; simpl; rewrite <- ?app_assoc; by eexists.
Qed.

Lemma trace_timerFired h ctorError s : trace s `prefix_of` trace (timerFired h ctorError s).
Proof.
  unfold timerFired. destruct (timers s !! h) as [[id p|]|]; [by eexists| |done].
  apply (trace_connect ctorError (set_reconnectTimer None (set_timers (delete h (timers s)) s))).
Qed.

Lemma trace_step i s : trace s `prefix_of` trace (step i s).
Proof.
  destruct i; simpl; try done.
  - apply trace_setUrl.
  - unfold reconnectNow. destruct (url s); [|apply trace_updateStatus].
    destruct (socket s); [by eexists|apply trace_connect].
  - apply trace_callTool.
  - by eexists.
  - apply trace_updateStatus.
  - apply trace_handleMessage.
  - apply trace_teardown.
  - apply trace_timerFired.
Qed.

Lemma trace_run inputs : ∀ s, trace s `prefix_of` trace (run inputs s).
Proof.
  induction inputs as [|i inputs IH]; intros s; [done|].
  etrans; [apply (trace_step i)|apply IH].
Qed.

(** The fate of a promise, once sealed, is the only one it ever gets. *)
Lemma fate_final s p f later :
  Inv s → fates p (trace s) = [f] → fates p (trace (run later s)) = [f].
Proof.
  intros HI Ho. destruct (trace_run later s) as [es Hes].
  pose proof (inv_once _ (Inv_run later s HI) p) as Hlen.
  rewrite Hes, fates_app, Ho in *. simpl in Hlen.
  destruct (fates p es); [done|simpl in Hlen; lia].
Qed.

Lemma outcome_fate s p o :
  Inv s → outcomes p (trace s) = [o] → fates p (trace s) = [Some o].
Proof.
  intros HI. pose proof (inv_once _ HI p) as Hlen. rewrite outcomes_fates.
  destruct (fates p (trace s)) as [|[o'|] [|f l]]; simpl in *; try done; try lia.
  by intros [= ->].
Qed.

Lemma outcomes_once s p : Inv s → (length (outcomes p (trace s)) ≤ 1)%nat.
Proof.
  intros HI. pose proof (inv_once _ HI p). pose proof (outcomes_le_fates p (trace s)). lia.
Qed.

(** An outcome, once delivered, is the only one the promise ever gets. *)
Lemma outcome_final s p o later :
  Inv s → outcomes p (trace s) = [o] → outcomes p (trace (run later s)) = [o].
Proof.
  intros HI Ho. rewrite outcomes_fates.
  by rewrite (fate_final s p (Some o) later HI (outcome_fate s p o HI Ho)).
Qed.


(** Every promise handed out is either settled, exactly once, or abandoned
    by a handler that threw, or still has its timeout armed. *)
Lemma settled_once_or_armed s q :
  Inv s → (q < nextPromise s)%nat →
  (∃ o, outcomes q (trace s) = [o]) ∨
  (outcomes q (trace s) = [] ∧ fates q (trace s) = [None]) ∨
  (outcomes q (trace s) = [] ∧ ∃ h k, timers s !! h = Some (RequestTimeout k q)).
Proof.
  intros HI Hq. pose proof (inv_once _ HI q) as Hlen.
  rewrite outcomes_fates.
  destruct (fates q (trace s)) as [|[o|] [|f l]] eqn:E; simpl in Hlen; try lia.
  - right. right. split; [done|]. by apply (inv_settled_or_armed _ HI).
  - left. by exists o.
  - right. by left.
Qed.

(** *** What the lifecycle operations do *)

Lemma updateStatus_spec st s :
  let s' := updateStatus st s in
  status s' = st ∧ url s' = url s ∧ socket s' = socket s ∧
  reconnectTimer s' = reconnectTimer s ∧ pending s' = pending s ∧
  statusListeners s' = statusListeners s ∧ timers s' = timers s ∧
  trace s' = (trace s ++ if decide (status s = st) then []
                         else (fun l => StatusNotified l st) <$> statusListeners s)%list.
Proof.
  unfold updateStatus. case_decide; simpl; [|done]. by rewrite app_nil_r.
Qed.

Lemma clearReconnectTimer_spec s :
  sameButTimers s (clearReconnectTimer s) ∧ reconnectTimer (clearReconnectTimer s) = None.
Proof.
  unfold clearReconnectTimer, sameButTimers. by destruct (reconnectTimer s) eqn:E.
Qed.

Lemma scheduleReconnect_spec s : sameButTimers s (scheduleReconnect s).
Proof. unfold scheduleReconnect, sameButTimers. by destruct (_ || _). Qed.

Lemma legacy_scheduleReconnect_spec s : sameButTimers s (Legacy.scheduleReconnect s).
Proof. unfold Legacy.scheduleReconnect, sameButTimers. by destruct (bool_decide _). Qed.

(** [teardown]: the socket is closed and dropped, the change to
    [disconnected] is broadcast, then every pending request is rejected. *)
Lemma teardown_spec error suppress s :
  let s' := teardown error suppress s in
  url s' = url s ∧ status s' = disconnected ∧ socket s' = None ∧ pending s' = ∅ ∧
  trace s' =
    (trace s
     ++ match socket s with Some k => [SocketCloseCalled k] | None => [] end
     ++ (if decide (status s = disconnected) then []
         else (fun l => StatusNotified l disconnected) <$> statusListeners s)
     ++ ((fun e => Settled (promise e.2) (Rejected (default disconnectedMessage error)))
           <$> map_to_list (pending s)))%list ∧
  (suppress || bool_decide (url s = None) = true → reconnectTimer s' = None).
Proof.
  unfold teardown.
  set (s1 := match socket s with Some k => emit [SocketCloseCalled k] s | None => s end).
  assert (H1 : url s1 = url s ∧ status s1 = status s ∧ pending s1 = pending s ∧
               statusListeners s1 = statusListeners s ∧
               trace s1 = (trace s ++ match socket s with
                                      | Some k => [SocketCloseCalled k]
                                      | None => []
                                      end)%list).
  { unfold s1. destruct (socket s); simpl; by rewrite ?app_nil_r. }
  destruct H1 as (A1 & A2 & A3 & A4 & A5).
  destruct (updateStatus_spec disconnected (set_socket None s1))
    as (B1 & B2 & B3 & B4 & B5 & B6 & B7 & B8).
  set (s3 := updateStatus disconnected (set_socket None s1)) in *.
  destruct (rejectAll_spec (default disconnectedMessage error) s3)
    as (C1 & C2 & C3 & C4 & C5 & C6 & C7 & C8 & C9 & C10 & C11 & C12).
  set (s4 := rejectAll (default disconnectedMessage error) s3) in *.
  simpl in B2, B3, B5, B6, B8.
  assert (Hurl : url s4 = url s) by congruence.
  assert (Htr : trace s4 =
    (trace s
     ++ match socket s with Some k => [SocketCloseCalled k] | None => [] end
     ++ (if decide (status s = disconnected) then []
         else (fun l => StatusNotified l disconnected) <$> statusListeners s)
     ++ ((fun e => Settled (promise e.2) (Rejected (default disconnectedMessage error)))
           <$> map_to_list (pending s)))%list).
  { rewrite C12, B8, B5, A5, A2, A3, A4. by rewrite <- !app_assoc. }
  rewrite Hurl.
  destruct (suppress || bool_decide (url s = None)) eqn:E.
  - destruct (clearReconnectTimer_spec s4) as [(D1&D2&D3&D4&D5&D6&D7&D8&D9&D10) D11].
    split_and!; try congruence.
  - destruct (scheduleReconnect_spec s4) as (D1&D2&D3&D4&D5&D6&D7&D8&D9&D10).
    split_and!; try congruence.
Qed.

(** [handleDisconnect] of the earlier revision: same order. *)
Lemma handleDisconnect_spec error s :
  let s' := Legacy.handleDisconnect error s in
  status s' = disconnected ∧ socket s' = None ∧ pending s' = ∅ ∧
  trace s' =
    (trace s
     ++ (if decide (status s = disconnected) then []
         else (fun l => StatusNotified l disconnected) <$> statusListeners s)
     ++ ((fun e => Settled (promise e.2) (Rejected (default disconnectedMessage error)))
           <$> map_to_list (pending s)))%list.
Proof.
  unfold Legacy.handleDisconnect.
  destruct (updateStatus_spec disconnected (set_socket None s))
    as (B1 & B2 & B3 & B4 & B5 & B6 & B7 & B8).
  set (s3 := updateStatus disconnected (set_socket None s)) in *.
  destruct (rejectAll_spec (default disconnectedMessage error) s3)
    as (C1 & C2 & C3 & C4 & C5 & C6 & C7 & C8 & C9 & C10 & C11 & C12).
  set (s4 := rejectAll (default disconnectedMessage error) s3) in *.
  simpl in B2, B3, B5, B6, B8.
  destruct (legacy_scheduleReconnect_spec s4) as (D1&D2&D3&D4&D5&D6&D7&D8&D9&D10).
  split_and!; try congruence.
  rewrite D10, C12, B8, B5. by rewrite <- !app_assoc.
Qed.

Lemma elem_of_outcomes p o (es : list Effect) :
  Settled p o ∈ es → o ∈ outcomes p es.
Proof.
  induction es as [|e es IH]; [by intros ?%elem_of_nil|].
  intros [<-|Hin]%elem_of_cons.
  - simpl. rewrite bool_decide_eq_true_2 by done. apply list_elem_of_here.
  - destruct e; simpl; auto. case_bool_decide; [apply list_elem_of_further|]; auto.
Qed.

Lemma trim_blank v : is_blank v = true → trim v = "".
Proof. unfold trim, is_blank. by destruct (trim_start v). Qed.

Lemma setUrl_null ctorError s :
  setUrl None ctorError s = teardown (Some disabledMessage) true (set_url None s).
Proof.
  unfold setUrl. simpl. case_bool_decide as Hu; [|done].
  destruct s; simpl in *; by subst.
Qed.

(** C2 (as the code has it). When the bridge goes to [disconnected]
    ([teardown], and [handleDisconnect] in the earlier revision) the effects
    are, in this order: the socket is closed (if there is one), the change of
    status is broadcast to the status listeners (if the status was not
    [disconnected] already), and then every pending call is rejected, with
    the error handed to [teardown] or else with [MCP bridge disconnected
    before response arrived.]; when the step ends the status is
    [disconnected] and no call is pending. *)
Theorem C2_broadcast_then_reject error suppress s :
  let rejections :=
    (fun e => Settled (promise e.2) (Rejected (default disconnectedMessage error)))
      <$> map_to_list (pending s) in
  let broadcast :=
    if decide (status s = disconnected) then []
    else (fun l => StatusNotified l disconnected) <$> statusListeners s in
  (trace (teardown error suppress s) =
     (trace s ++ match socket s with Some k => [SocketCloseCalled k] | None => [] end
              ++ broadcast ++ rejections)%list ∧
   status (teardown error suppress s) = disconnected ∧
   pending (teardown error suppress s) = ∅) ∧
  (trace (Legacy.handleDisconnect error s) = (trace s ++ broadcast ++ rejections)%list ∧
   status (Legacy.handleDisconnect error s) = disconnected ∧
   pending (Legacy.handleDisconnect error s) = ∅) ∧
  (∀ k e, pending s !! k = Some e →
     Settled (promise e) (Rejected (default disconnectedMessage error)) ∈ rejections).
Proof.
  cbv zeta.
  destruct (teardown_spec error suppress s) as (_ & T2 & _ & T4 & T5 & _).
  destruct (handleDisconnect_spec error s) as (L1 & _ & L3 & L4).
  split_and!; try done.
  intros k e He. apply list_elem_of_fmap. exists (k, e).
  split; [done|]. by apply elem_of_map_to_list.
Qed.

(** C7 (as the code has it). A [callTool] made while the bridge is not
    [connected] rejects at once, with the error [mcp-disconnected]: the
    promise it returns is created and rejected in the same step, no entry is
    added to the pending map, no timer is armed, no request id is consumed and
    nothing is sent on the socket. *)
Theorem C7_call_while_not_connected name args socketOpen sendError s :
  isConnected s = false →
  let r := callTool name args socketOpen sendError s in
  r.1 = nextPromise s ∧
  trace r.2 = (trace s ++ [PromiseCreated r.1; Settled r.1 (Rejected "mcp-disconnected")])%list ∧
  pending r.2 = pending s ∧ timers r.2 = timers s ∧ nextId r.2 = nextId s ∧
  socket r.2 = socket s ∧ status r.2 = status s.
Proof.
  intros Hc. unfold callTool.
  change (isConnected (emit _ (set_nextPromise _ s))) with (isConnected s).
  rewrite Hc. simpl. by rewrite <- app_assoc.
Qed.


(** C10. Configuring the bridge with an empty or blank url is the same as
    configuring it with [null]: the url is normalised to [null] and the two
    calls leave the bridge in the same state, in which [getUrl()] is [null],
    the socket (if any) has been closed and dropped, the status is
    [disconnected], every call that was pending has been rejected with [MCP
    bridge disabled by configuration.] and none is pending, and no reconnect
    is scheduled, nor is one scheduled when a socket closes afterwards. *)
Theorem C10_blank_url_is_null inputs v ctorError :
  let s := run inputs initial in
  is_blank v = true →
  let s' := setUrl (Some v) ctorError s in
  normalizeUrl (Some v) = None ∧
  s' = setUrl None ctorError s ∧
  getUrl s' = None ∧
  socket s' = None ∧
  (∀ k, socket s = Some k → SocketCloseCalled k ∈ trace s') ∧
  status s' = disconnected ∧
  pending s' = ∅ ∧
  (∀ k e, pending s !! k = Some e →
          outcomes (promise e) (trace s') = [Rejected disabledMessage]) ∧
  reconnectTimer s' = None ∧
  (∀ h, timers s' !! h ≠ Some Reconnect) ∧
  (∀ h, timers (step SocketClose s') !! h ≠ Some Reconnect).
Proof.
  intros s Hv s'.
  assert (Hn : normalizeUrl (Some v) = None).
  { unfold normalizeUrl. by rewrite (trim_blank _ Hv). }
  assert (Heq : s' = setUrl None ctorError s).
  { unfold s', setUrl. by rewrite Hn. }
  pose proof (Inv_reachable inputs) as HI. fold s in HI.
  assert (HI' : Inv s') by by apply Inv_setUrl.
  assert (Hs' : s' = teardown (Some disabledMessage) true (set_url None s)).
  { by rewrite Heq, setUrl_null. }
  destruct (teardown_spec (Some disabledMessage) true (set_url None s))
    as (T1 & T2 & T3 & T4 & T5 & T6).
  rewrite <- Hs' in T1, T2, T3, T4, T5, T6. simpl in T1, T5, T6.
  specialize (T6 eq_refl).
  split_and!; try done.
  - intros k Hk. rewrite T5, Hk. set_solver.
  - intros k e He.
    destruct (inv_pending_timer _ HI _ _ He) as (h & _ & Hh).
    destruct (inv_timer_unsettled _ HI _ _ _ Hh) as [_ Hnone].
    assert (Hin : Rejected disabledMessage ∈ outcomes (promise e) (trace s')).
    { apply elem_of_outcomes. rewrite T5. rewrite !elem_of_app. right. right. right.
      apply list_elem_of_fmap. exists (k, e). split; [done|].
      by apply elem_of_map_to_list. }
    pose proof (outcomes_once _ (promise e) HI') as Hlen.
    destruct (outcomes (promise e) (trace s')) as [|o [|o' l]].
    + by apply elem_of_nil in Hin.
    + by apply list_elem_of_singleton in Hin as ->.
    + simpl in Hlen. lia.
  - intros h Hh. apply (inv_reconnect_only _ HI') in Hh. congruence.
  - intros h Hh. simpl in Hh.
    destruct (teardown_spec None false s') as (_ & _ & _ & _ & _ & U6).
    rewrite T1 in U6. specialize (U6 eq_refl).
    apply (inv_reconnect_only _ (Inv_teardown None false s' HI')) in Hh. congruence.
Qed.

End BridgeProperties.

(** The effects of the socket closing while a call is pending. *)
Lemma closeWhilePending_trace :
  drop 6 (Bridge.trace (Bridge.run Bridge.closeWhilePending Bridge.initial)) =
    [Bridge.SocketCloseCalled 0;
     Bridge.StatusNotified 0 Bridge.disconnected;
     Bridge.Settled 0 (Bridge.Rejected Bridge.disconnectedMessage)].
Proof. vm_compute. reflexivity. Qed.

(** C2 (as stated) fails: a listener subscribes, a call is made and the
    socket closes; the listener is told [disconnected] while the call's
    promise is not settled yet (it is rejected right after). *)
Lemma C2_observer_sees_pending_counterexample :
  ¬ (∀ inputs : list Bridge.Input,
       Bridge.staleSeen [] (Bridge.trace (Bridge.run inputs Bridge.initial)) = false).
Proof.
  intros H. specialize (H Bridge.closeWhilePending). vm_compute in H. discriminate H.
Qed.

(** C7 (as stated) fails on the name of the error: a call on a freshly
    constructed, disconnected bridge is rejected with [mcp-disconnected], not
    with [disconnected]. *)
Lemma C7_error_name_counterexample :
  ¬ (∀ (name args : JS.Value) (socketOpen : bool) (sendError : option string)
       (s : Bridge.State),
       Bridge.isConnected s = false →
       let r := Bridge.callTool name args socketOpen sendError s in
       Bridge.outcomes r.1 (Bridge.trace r.2) = [Bridge.Rejected "disconnected"]).
Proof.
  intros H.
  specialize (H JS.VNull JS.VNull true None Bridge.initial eq_refl).
  vm_compute in H. discriminate H.
Qed.

(** C7 on a freshly constructed bridge. *)
Lemma C7_call_while_not_connected_witness :
  Bridge.isConnected Bridge.initial = false ∧
  Bridge.trace (Bridge.callTool (JS.VStr "list_pages") (JS.VObj ∅) true None
                  Bridge.initial).2 =
    [Bridge.PromiseCreated 0; Bridge.Settled 0 (Bridge.Rejected "mcp-disconnected")].
Proof.
  split; [reflexivity|].
  exact (proj1 (proj2 (C7_call_while_not_connected (JS.VStr "list_pages") (JS.VObj ∅)
                         true None Bridge.initial eq_refl))).
Defined.


(** C10 on a bridge with one call in flight, reconfigured with a url made
    of a space, a no-break space (U+00A0) and an em space (U+2003). *)
Lemma C10_blank_url_is_null_witness :
  JS.is_blank (" " ++ JS.nbsp ++ JS.em_space) = true ∧
  Bridge.setUrl (Some (" " ++ JS.nbsp ++ JS.em_space)%string) None
    (Bridge.run Bridge.callInFlight Bridge.initial) =
  Bridge.setUrl None None (Bridge.run Bridge.callInFlight Bridge.initial).
Proof.
  split; [reflexivity|].
  exact (proj1 (proj2 (C10_blank_url_is_null Bridge.callInFlight
                         (" " ++ JS.nbsp ++ JS.em_space)%string None eq_refl))).
Defined.


(* ===================================================================== *)
(** ** Further properties of the bridge client                            *)
(* ===================================================================== *)

Section BridgeFurther.
Import JS Bridge BridgeFacts.

(** *** White space *)

(** [trim_start] drops the white-space code point the string starts with, as
    long as there is one. *)
Lemma trim_start_unfold s :
  trim_start s = match space_len s with
                 | O => s
                 | n => trim_start (drop_bytes n s)
                 end.
Proof.
  destruct s as [|c1 [|c2 [|c3 s3]]]; cbn [trim_start space_len]; try done.
  - by destruct (is_space c1).
  - destruct (is_space c1); [done|]. by destruct (is_space2 c1 c2).
  - destruct (is_space c1); [done|]. destruct (is_space2 c1 c2); [done|].
    by destruct (is_space3 c1 c2 c3).
Qed.

Lemma space_len_drop s :
  (0 < space_len s)%nat →
  (String.length (drop_bytes (space_len s) s) < String.length s)%nat.
Proof.
  destruct s as [|c1 [|c2 [|c3 s3]]]; cbn [space_len]; try (simpl; lia).
  - destruct (is_space c1); simpl; lia.
  - destruct (is_space c1); [simpl; lia|]. destruct (is_space2 c1 c2); simpl; lia.
  - destruct (is_space c1); [simpl; lia|]. destruct (is_space2 c1 c2); [simpl; lia|].
    destruct (is_space3 c1 c2 c3); simpl; lia.
Qed.

Lemma string_length_ind (P : string → Prop) :
  (∀ s, (∀ t, (String.length t < String.length s)%nat → P t) → P s) → ∀ s, P s.
Proof.
  intros H s. remember (String.length s) as n eqn:E.
  revert s E. induction n as [n IH] using lt_wf_ind. intros s ->.
  apply H. intros t Ht. by apply (IH _ Ht).
Qed.

Lemma trim_start_sound s : space_len (trim_start s) = 0%nat.
Proof.
  induction s as [s IH] using string_length_ind.
  rewrite trim_start_unfold. destruct (space_len s) as [|n] eqn:E; [done|].
  apply IH. rewrite <- E. apply space_len_drop. lia.
Qed.

Lemma trim_start_fixed s : space_len s = 0%nat → trim_start s = s.
Proof. intros H. by rewrite trim_start_unfold, H. Qed.

Lemma trim_start_idem s : trim_start (trim_start s) = trim_start s.
Proof. apply trim_start_fixed, trim_start_sound. Qed.

Lemma space_len_app x y :
  (0 < space_len x)%nat →
  space_len (x ++ y) = space_len x ∧
  drop_bytes (space_len x) (x ++ y) = (drop_bytes (space_len x) x ++ y)%string.
Proof.
  destruct x as [|c1 [|c2 [|c3 x3]]]; cbn [space_len]; try lia.
  - destruct (is_space c1) eqn:E1; [|lia]. intros _. simpl. by rewrite E1.
  - destruct (is_space c1) eqn:E1; [intros _; simpl; by rewrite E1|].
    destruct (is_space2 c1 c2) eqn:E2; [|lia]. intros _. simpl. by rewrite E1, E2.
  - destruct (is_space c1) eqn:E1; [intros _; simpl; by rewrite E1|].
    destruct (is_space2 c1 c2) eqn:E2; [intros _; simpl; by rewrite E1, E2|].
    destruct (is_space3 c1 c2 c3) eqn:E3; [|lia]. intros _. simpl. by rewrite E1, E2, E3.
Qed.

Lemma space_len_prefix x y : space_len (x ++ y) = 0%nat → space_len x = 0%nat.
Proof.
  intros H. destruct (space_len x) as [|n] eqn:E; [done|].
  destruct (space_len_app x y) as [H1 _]; [lia|]. congruence.
Qed.

Lemma is_blank_app x y : is_blank x = true → is_blank y = true → is_blank (x ++ y) = true.
Proof.
  revert y. induction x as [x IH] using string_length_ind. intros y Hx Hy.
  destruct (space_len x) as [|n] eqn:E.
  - unfold is_blank in Hx. rewrite trim_start_fixed in Hx by done.
    destruct x; [done|discriminate].
  - destruct (space_len_app x y) as [H1 H2]; [lia|].
    unfold is_blank. rewrite trim_start_unfold, H1, E. rewrite <- E, H2.
    apply IH; [apply space_len_drop; lia| |done].
    unfold is_blank in *. by rewrite trim_start_unfold, E, <- E in Hx.
Qed.

Lemma trim_end_from_split need s :
  ∃ y, s = (trim_end_from need s ++ y)%string ∧ is_blank y = true.
Proof.
  revert need. induction s as [|c s IH]; intros need; [by exists ""|].
  cbn [trim_end_from]. destruct (_ && _).
  - destruct (IH (need - 1)%nat) as (y & Hy & By). exists y. split; [|done].
    by rewrite Hy at 1.
  - destruct (is_blank (String c s)) eqn:B; [by eexists|].
    destruct (IH (tail_length c)) as (y & Hy & By). exists y. split; [|done].
    by rewrite Hy at 1.
Qed.

Lemma trim_end_from_idem need s :
  trim_end_from need (trim_end_from need s) = trim_end_from need s.
Proof.
  revert need. induction s as [|c s IH]; intros need; [done|].
  cbn [trim_end_from]. destruct (_ && _) eqn:E1.
  - cbn [trim_end_from]. by rewrite E1, IH.
  - destruct (is_blank (String c s)) eqn:B; [done|].
    cbn [trim_end_from]. rewrite E1.
    destruct (is_blank (String c (trim_end_from (tail_length c) s))) eqn:B'.
    + exfalso. destruct (trim_end_from_split (tail_length c) s) as (y & Hy & By).
      pose proof (is_blank_app _ _ B' By) as Hb.
      change (String c (trim_end_from (tail_length c) s) +:+ y)
        with (String c (trim_end_from (tail_length c) s +:+ y)) in Hb.
      rewrite <- Hy in Hb.
      congruence.
    + by rewrite IH.
Qed.

Lemma trim_end_idem s : trim_end (trim_end s) = trim_end s.
Proof. apply trim_end_from_idem. Qed.

Lemma trim_start_trim s : trim_start (trim s) = trim s.
Proof.
  unfold trim, trim_end. apply trim_start_fixed.
  destruct (trim_end_from_split 0 (trim_start s)) as (y & Hy & _).
  apply (space_len_prefix _ y). rewrite <- Hy. apply trim_start_sound.
Qed.

Lemma trim_idem s : trim (trim s) = trim s.
Proof.
  unfold trim at 1. rewrite trim_start_trim. unfold trim. apply trim_end_idem.
Qed.

Lemma normalizeUrl_Some v u :
  normalizeUrl v = Some u → u ≠ "" ∧ trim u = u.
Proof.
  unfold normalizeUrl. destruct v as [v|]; [|done].
  destruct (String.length (trim v) =? 0)%nat eqn:E; [done|].
  intros [= <-]. split; [|apply trim_idem].
  intros Hu. rewrite Hu in E. done.
Qed.


(** *** What the lifecycle operations leave alone *)

Lemma frame_refl s : url s = url s ∧ sameCounters s s ∧ pending s ⊆ pending s.
Proof. by repeat split. Qed.

Lemma frame_trans s1 s2 s3 :
  (url s2 = url s1 ∧ sameCounters s1 s2 ∧ pending s2 ⊆ pending s1) →
  (url s3 = url s2 ∧ sameCounters s2 s3 ∧ pending s3 ⊆ pending s2) →
  url s3 = url s1 ∧ sameCounters s1 s3 ∧ pending s3 ⊆ pending s1.
Proof.
  unfold sameCounters. intros (A1 & (A2 & A3 & A4 & A5) & A6) (B1 & (B2 & B3 & B4 & B5) & B6).
  split_and!; try congruence. by etrans.
Qed.

Lemma frame_updateStatus st s :
  url (updateStatus st s) = url s ∧ sameCounters s (updateStatus st s) ∧
  pending (updateStatus st s) ⊆ pending s.
Proof. unfold updateStatus, sameCounters. by case_decide. Qed.

Lemma frame_sameButTimers s s' :
  sameButTimers s s' → url s' = url s ∧ sameCounters s s' ∧ pending s' ⊆ pending s.
Proof.
  unfold sameButTimers, sameCounters. intros (A1&A2&A3&A4&A5&A6&A7&A8&A9&A10).
  split_and!; try done. by rewrite A5.
Qed.

Lemma frame_teardown error suppress s :
  url (teardown error suppress s) = url s ∧ sameCounters s (teardown error suppress s) ∧
  pending (teardown error suppress s) ⊆ pending s.
Proof.
  destruct (teardown_spec error suppress s) as (T1 & _ & _ & T4 & _ & _).
  split; [done|]. split; [|rewrite T4; apply map_empty_subseteq].
  unfold teardown.
  set (s1 := match socket s with Some k => emit [SocketCloseCalled k] s | None => s end).
  assert (H1 : sameCounters s s1) by (unfold s1, sameCounters; by destruct (socket s)).
  destruct (frame_updateStatus disconnected (set_socket None s1)) as (_ & H3 & _).
  set (s3 := updateStatus disconnected (set_socket None s1)) in *.
  destruct (rejectAll_spec (default disconnectedMessage error) s3)
    as (_ & _ & _ & _ & C5 & C6 & C7 & _ & C9 & _ & _ & _).
  set (s4 := rejectAll (default disconnectedMessage error) s3) in *.
  assert (H4 : sameCounters s s4).
  { unfold sameCounters in *. simpl in H3. destruct H1 as (?&?&?&?), H3 as (?&?&?&?).
    split_and!; congruence. }
  assert (sameButTimers s4
            (if suppress || bool_decide (url s4 = None)
             then clearReconnectTimer s4 else scheduleReconnect s4)) as Hf.
  { destruct (_ || _); [apply clearReconnectTimer_spec|apply scheduleReconnect_spec]. }
  unfold sameButTimers, sameCounters in *.
  destruct Hf as (?&?&?&?&?&?&?&?&?&?), H4 as (?&?&?&?). split_and!; congruence.
Qed.

Lemma frame_connect ctorError s :
  url (connect ctorError s) = url s ∧ sameCounters s (connect ctorError s) ∧
  pending (connect ctorError s) ⊆ pending s.
Proof.
  unfold connect. destruct (url s) as [u|] eqn:Hu; rewrite <- ?Hu;
    [|apply frame_updateStatus].
  destruct (_ || _); [apply frame_refl|].
  assert (H1 : url (updateStatus connecting (clearReconnectTimer s)) = url s ∧
               sameCounters s (updateStatus connecting (clearReconnectTimer s)) ∧
               pending (updateStatus connecting (clearReconnectTimer s)) ⊆ pending s).
  { eapply frame_trans; [|apply frame_updateStatus].
    apply frame_sameButTimers, clearReconnectTimer_spec. }
  destruct ctorError.
  - eapply frame_trans; [apply H1|apply frame_teardown].
  - exact H1.
Qed.

Lemma frame_setUrl next ctorError s :
  sameCounters s (setUrl next ctorError s) ∧ pending (setUrl next ctorError s) ⊆ pending s.
Proof.
  unfold setUrl. case_bool_decide.
  - set (s1 := if _ && _ then _ else _).
    assert (H1 : url s1 = url s ∧ sameCounters s s1 ∧ pending s1 ⊆ pending s).
    { unfold s1. destruct (_ && _); [apply frame_connect|apply frame_refl]. }
    case_bool_decide; [|by destruct H1 as (_ & ? & ?)].
    by destruct (frame_trans _ _ _ H1 (frame_teardown (Some disabledMessage) true s1))
      as (_ & ? & ?).
  - set (s1 := set_url (normalizeUrl next) s).
    assert (H1 : sameCounters s s1 ∧ pending s1 ⊆ pending s) by done.
    destruct (url s1).
    + destruct (frame_trans _ _ _ (frame_teardown (Some reconfiguringMessage) true s1)
                  (frame_connect ctorError _)) as (_ & (?&?&?&?) & ?).
      unfold sameCounters in *. destruct H1 as ((?&?&?&?) & ?).
      split_and!; try congruence. by etrans.
    + destruct (frame_teardown (Some disabledMessage) true s1) as (_ & (?&?&?&?) & ?).
      unfold sameCounters in *. destruct H1 as ((?&?&?&?) & ?).
      split_and!; try congruence. by etrans.
Qed.

(** A frame changes nothing of the connection, and of the pending map at most
    the entry under the id it carries. *)
Lemma frame_handleMessage parsed s :
  let s' := handleMessage parsed s in
  url s' = url s ∧ status s' = status s ∧ socket s' = socket s ∧
  reconnectTimer s' = reconnectTimer s ∧ sameCounters s s' ∧
  pending s' ⊆ pending s ∧
  ∀ k, (∀ data, parsed = Some data → k ≠ js_String (frameId data)) →
       pending s' !! k = pending s !! k.
Proof.
  unfold handleMessage, sameCounters. destruct parsed as [data|]; [|done].
  destruct (_ || _); [|done].
  destruct (pending s !! _) as [e|] eqn:E; [|done].
  assert (Hsub : delete (js_String (frameId data)) (pending s) ⊆ pending s)
    by apply delete_subseteq.
  destruct (timeoutId e);
    repeat match goal with |- context [if ?c then _ else _] => destruct c end;
    simpl; split_and!; try done;
    intros k Hk; apply lookup_delete_ne; intros <-; by apply (Hk data).
Qed.

Lemma frame_timerFired h ctorError s :
  url (timerFired h ctorError s) = url s ∧ sameCounters s (timerFired h ctorError s) ∧
  pending (timerFired h ctorError s) ⊆ pending s.
Proof.
  unfold timerFired. destruct (timers s !! h) as [[id p|]|]; [| |apply frame_refl].
  - unfold sameCounters. simpl. split_and!; try done. apply delete_subseteq.
  - apply (frame_connect ctorError (set_reconnectTimer None (set_timers (delete h (timers s)) s))).
Qed.

Lemma frame_reconnectNow ctorError s :
  url (reconnectNow ctorError s) = url s ∧ sameCounters s (reconnectNow ctorError s) ∧
  pending (reconnectNow ctorError s) ⊆ pending s.
Proof.
  unfold reconnectNow. destruct (url s) eqn:Hu.
  - destruct (socket s); [by rewrite <- Hu|]. rewrite <- Hu. apply frame_connect.
  - rewrite <- Hu. apply frame_updateStatus.
Qed.


(** *** [callTool], case by case *)

Lemma callTool_frame name args socketOpen sendError s :
  let s' := (callTool name args socketOpen sendError s).2 in
  url s' = url s ∧ status s' = status s ∧ socket s' = socket s ∧
  reconnectTimer s' = reconnectTimer s ∧
  statusListeners s' = statusListeners s ∧
  notificationListeners s' = notificationListeners s ∧
  nextPromise s' = S (nextPromise s).
Proof.
  unfold callTool.
  change (isConnected (emit _ (set_nextPromise _ s))) with (isConnected s).
  destruct (isConnected s); simpl; [|done]. unfold sendRequest. simpl.
  destruct (socket s) as [k|] eqn:Hk; simpl; [|by rewrite ?Hk].
  destruct socketOpen; simpl; [|by rewrite ?Hk].
  destruct sendError; simpl; by rewrite ?Hk.
Qed.

(** A call on a connected bridge whose socket is open. *)
Lemma callTool_sent name args s k :
  isConnected s = true → socket s = Some k →
  let s' := (callTool name args true None s).2 in
  let id := pretty (nextId s) in
  trace s' = (trace s ++ [PromiseCreated (nextPromise s);
                          Sent k id "tools/call"
                            (VObj (<["arguments" := args]> {["name" := name]}))])%list ∧
  pending s' = <[id := {| promise := nextPromise s; timeoutId := Some (nextTimer s) |}]>
                 (pending s) ∧
  timers s' = <[nextTimer s := RequestTimeout id (nextPromise s)]> (timers s) ∧
  nextId s' = bumpId (nextId s) ∧ nextTimer s' = S (nextTimer s).
Proof.
  intros Hc Hk. unfold callTool.
  change (isConnected (emit _ (set_nextPromise _ s))) with (isConnected s).
  rewrite Hc. unfold sendRequest. simpl. rewrite Hk. simpl.
  by rewrite <- app_assoc.
Qed.

Lemma callTool_pending name args socketOpen sendError s :
  let s' := (callTool name args socketOpen sendError s).2 in
  (nextId s' = nextId s ∧ pending s' = pending s) ∨
  (isConnected s = true ∧ is_Some (socket s) ∧ nextId s' = bumpId (nextId s) ∧
   (pending s' = <[pretty (nextId s) :=
                   {| promise := nextPromise s; timeoutId := Some (nextTimer s) |}]>
                   (pending s) ∨
    pending s' = delete (pretty (nextId s)) (pending s))).
Proof.
  unfold callTool.
  change (isConnected (emit _ (set_nextPromise _ s))) with (isConnected s).
  destruct (isConnected s) eqn:Hc; [|by left]. simpl. unfold sendRequest. simpl.
  destruct (socket s) as [k|] eqn:Hk; [|by left].
  destruct socketOpen; [|by left]. simpl.
  right. split_and!; [done|by eexists| |].
  - by destruct sendError.
  - destruct sendError; simpl; [right|by left]. by rewrite delete_insert_eq.
Qed.

(** *** The invariants hold in every reachable state *)

Lemma Quiescent_sub s s' :
  url s' = url s → status s' = status s → socket s' = socket s →
  pending s' ⊆ pending s → Quiescent s → Quiescent s'.
Proof.
  intros Hu Hst Hso Hp (Q1 & Q2 & Q3). unfold Quiescent. rewrite Hu, Hst, Hso.
  assert (He : pending s = ∅ → pending s' = ∅).
  { intros E. rewrite E in Hp. apply map_empty. intros i.
    eapply lookup_weaken_None; [|apply Hp]. apply lookup_empty. }
  split_and!; auto.
Qed.

Lemma Quiescent_teardown error suppress s : Quiescent (teardown error suppress s).
Proof.
  destruct (teardown_spec error suppress s) as (_ & _ & T3 & T4 & _). by split_and!.
Qed.

Lemma Quiescent_updateStatus st s :
  (st = disconnected → pending s = ∅) → Quiescent s → Quiescent (updateStatus st s).
Proof.
  intros Hd (Q1 & Q2 & Q3).
  destruct (updateStatus_spec st s) as (U1 & U2 & U3 & _ & U5 & _).
  unfold Quiescent. rewrite U1, U2, U3, U5. split_and!; try done.
Qed.

Lemma Quiescent_connect ctorError s : Quiescent s → Quiescent (connect ctorError s).
Proof.
  intros Q. pose proof Q as (Q1 & Q2 & Q3). unfold connect.
  destruct (url s) as [u|] eqn:Hu.
  - destruct (bool_decide (socket s ≠ None)) eqn:Hs; [done|]. simpl.
    destruct (bool_decide (status s = connecting)); [done|].
    apply bool_decide_eq_false in Hs. apply dec_stable in Hs.
    destruct ctorError; [apply Quiescent_teardown|].
    destruct (updateStatus_spec connecting (clearReconnectTimer s))
      as (U1 & U2 & U3 & _ & U5 & _).
    destruct (clearReconnectTimer_spec s) as [(C1&C2&C3&C4&C5&_) _].
    unfold Quiescent. simpl. rewrite U1, U2, U5, C1, C5, Hu, (Q2 Hs). done.
  - apply Quiescent_updateStatus; [|done]. intros _. auto.
Qed.

Lemma Quiescent_step i s : Quiescent s → Quiescent (step i s).
Proof.
  intros Q. pose proof Q as (Q1 & Q2 & Q3). destruct i; simpl.
  - unfold setUrl. case_bool_decide.
    + set (s1 := if _ && _ then _ else _).
      assert (Quiescent s1) by (unfold s1; destruct (_ && _); [by apply Quiescent_connect|done]).
      case_bool_decide; [apply Quiescent_teardown|done].
    + destruct (url (set_url (normalizeUrl next) s)); [|apply Quiescent_teardown].
      apply Quiescent_connect, Quiescent_teardown.
  - unfold reconnectNow. destruct (url s) eqn:Hu.
    + destruct (socket s) eqn:Hs; [|by apply Quiescent_connect].
      by apply (Quiescent_sub s).
    + apply Quiescent_updateStatus; [|done]. auto.
  - destruct (callTool_frame name args socketOpen sendError s) as (F1 & F2 & F3 & _).
    destruct (callTool_pending name args socketOpen sendError s)
      as [[_ Hp]|(Hc & [k Hk] & _ & Hp)].
    + apply (Quiescent_sub s); try done. by rewrite Hp.
    + unfold Quiescent. rewrite F1, F2, F3. apply bool_decide_eq_true in Hc.
      split_and!; [done| |]; intros; congruence.
  - by apply (Quiescent_sub s).
  - by apply (Quiescent_sub s).
  - by apply (Quiescent_sub s).
  - by apply (Quiescent_sub s).
  - apply Quiescent_updateStatus; done.
  - destruct (frame_handleMessage parsed s) as (F1 & F2 & F3 & _ & _ & F6 & _).
    by apply (Quiescent_sub s).
  - done.
  - apply Quiescent_teardown.
  - unfold timerFired. destruct (timers s !! h) as [[id p|]|]; [| |done].
    + apply (Quiescent_sub s); try done. apply delete_subseteq.
    + apply Quiescent_connect. by apply (Quiescent_sub s).
Qed.

Lemma IdsDrawn_sub s s' :
  nextId s' = nextId s → pending s' ⊆ pending s → IdsDrawn s → IdsDrawn s'.
Proof.
  intros Hn Hp [I1 I2]. unfold IdsDrawn. rewrite Hn. split; [done|].
  intros k e He. apply (I2 k e). by eapply lookup_weaken.
Qed.

Lemma bumpId_bounds n : (1 ≤ n ≤ 2 ^ 53 → 1 ≤ bumpId n ≤ 2 ^ 53 ∧ n ≤ bumpId n)%N.
Proof.
  unfold bumpId. intros Hn. destruct (n <? 2 ^ 53)%N eqn:E.
  - apply N.ltb_lt in E. lia.
  - lia.
Qed.

Lemma bumpId_covers n : (n ≤ 2 ^ 53 → n < bumpId n ∨ bumpId n = 2 ^ 53)%N.
Proof.
  unfold bumpId. intros Hn. destruct (n <? 2 ^ 53)%N eqn:E.
  - apply N.ltb_lt in E. lia.
  - apply N.ltb_ge in E. lia.
Qed.

Lemma IdsDrawn_step i s : IdsDrawn s → IdsDrawn (step i s).
Proof.
  intros I. destruct i; simpl.
  - destruct (frame_setUrl next ctorError s) as ((?&_) & ?). by apply (IdsDrawn_sub s).
  - destruct (frame_reconnectNow ctorError s) as (_ & (?&_) & ?). by apply (IdsDrawn_sub s).
  - destruct I as [I1 I2].
    destruct (callTool_pending name args socketOpen sendError s)
      as [[Hn Hp]|(_ & _ & Hn & Hp)].
    + unfold IdsDrawn. by rewrite Hn, Hp.
    + destruct (bumpId_bounds _ I1) as [B1 B2].
      pose proof (bumpId_covers (nextId s) (proj2 I1)) as B3.
      assert (Hold : ∀ k e, pending s !! k = Some e →
                ∃ n : N, k = pretty n ∧
                  (n < bumpId (nextId s) ∨ bumpId (nextId s) = 2 ^ 53)%N).
      { intros k e He. destruct (I2 k e He) as (n & -> & Hlt). exists n. split; [done|].
        destruct Hlt as [Hlt|Heq]; [left; lia|]. right.
        unfold bumpId. rewrite Heq. done. }
      unfold IdsDrawn. rewrite Hn. split; [done|].
      intros k e. destruct Hp as [-> | ->].
      * rewrite lookup_insert. case_decide as Hk; [|apply Hold].
        intros _. exists (nextId s). by subst.
      * rewrite lookup_delete. case_decide; [done|apply Hold].
  - by apply (IdsDrawn_sub s).
  - by apply (IdsDrawn_sub s).
  - by apply (IdsDrawn_sub s).
  - by apply (IdsDrawn_sub s).
  - destruct (frame_updateStatus connected s) as (_ & (?&_) & ?). by apply (IdsDrawn_sub s).
  - destruct (frame_handleMessage parsed s) as (_ & _ & _ & _ & (?&_) & ? & _).
    by apply (IdsDrawn_sub s).
  - done.
  - destruct (frame_teardown None false s) as (_ & (?&_) & ?). by apply (IdsDrawn_sub s).
  - destruct (frame_timerFired h ctorError s) as (_ & (?&_) & ?). by apply (IdsDrawn_sub s).
Qed.

Lemma UrlTrimmed_step i s : UrlTrimmed s → UrlTrimmed (step i s).
Proof.
  intros U.
  assert (Hsame : url (step i s) = url s → UrlTrimmed (step i s)).
  { intros Hu u. rewrite Hu. apply U. }
  destruct i; simpl in *; try (by apply Hsame).
  - intros u Hu. unfold setUrl in Hu. case_bool_decide as Hn.
    + set (s1 := if _ && _ then _ else _) in Hu.
      assert (H1 : url s1 = url s).
      { unfold s1. destruct (_ && _); [apply frame_connect|done]. }
      case_bool_decide.
      * destruct (frame_teardown (Some disabledMessage) true s1) as (T & _).
        rewrite T, H1 in Hu. by apply U.
      * rewrite H1 in Hu. by apply U.
    + assert (url (set_url (normalizeUrl next) s) = normalizeUrl next) as Hs by done.
      destruct (url (set_url (normalizeUrl next) s)) eqn:E.
      * destruct (frame_connect ctorError
                    (teardown (Some reconfiguringMessage) true
                       (set_url (normalizeUrl next) s))) as (C & _).
        destruct (frame_teardown (Some reconfiguringMessage) true
                    (set_url (normalizeUrl next) s)) as (T & _).
        rewrite C, T, E in Hu. apply (normalizeUrl_Some next). congruence.
      * destruct (frame_teardown (Some disabledMessage) true
                    (set_url (normalizeUrl next) s)) as (T & _).
        rewrite T, E in Hu. done.
  - apply Hsame, frame_reconnectNow.
  - apply Hsame. by destruct (callTool_frame name args socketOpen sendError s).
  - apply Hsame, frame_updateStatus.
  - apply Hsame. by destruct (frame_handleMessage parsed s).
  - apply Hsame, frame_teardown.
  - apply Hsame, frame_timerFired.
Qed.

Lemma reachable_invariants inputs :
  let s := run inputs initial in
  Quiescent s ∧ IdsDrawn s ∧ UrlTrimmed s.
Proof.
  assert (H : ∀ s, Quiescent s ∧ IdsDrawn s ∧ UrlTrimmed s →
              Quiescent (run inputs s) ∧ IdsDrawn (run inputs s) ∧ UrlTrimmed (run inputs s)).
  { induction inputs as [|i inputs IH]; intros s (Q & I & U); [done|].
    apply IH. split_and!; [by apply Quiescent_step|by apply IdsDrawn_step|
                           by apply UrlTrimmed_step]. }
  apply H. split_and!.
  - by split_and!.
  - split; [simpl; lia|]. intros k e. simpl. by rewrite lookup_empty.
  - by intros u.
Qed.


(** *** Composite behaviour *)

Lemma teardown_more error suppress s :
  let s' := teardown error suppress s in
  nextSocket s' = nextSocket s ∧ statusListeners s' = statusListeners s ∧
  (suppress = false → url s ≠ None → reconnectTimer s' ≠ None).
Proof.
  unfold teardown.
  set (s1 := match socket s with Some k => emit [SocketCloseCalled k] s | None => s end).
  assert (H1 : nextSocket s1 = nextSocket s ∧ statusListeners s1 = statusListeners s ∧
               url s1 = url s).
  { unfold s1. by destruct (socket s). }
  destruct H1 as (A1 & A2 & A3).
  assert (H3 : nextSocket (updateStatus disconnected (set_socket None s1)) = nextSocket s ∧
               statusListeners (updateStatus disconnected (set_socket None s1))
                 = statusListeners s ∧
               url (updateStatus disconnected (set_socket None s1)) = url s).
  { unfold updateStatus. by case_decide. }
  destruct H3 as (B1 & B2 & B3).
  set (s3 := updateStatus disconnected (set_socket None s1)) in *.
  destruct (rejectAll_spec (default disconnectedMessage error) s3)
    as (C1 & _ & _ & _ & _ & C6 & _ & _ & _ & C10 & _ & _).
  set (s4 := rejectAll (default disconnectedMessage error) s3) in *.
  destruct suppress; simpl.
  - destruct (clearReconnectTimer_spec s4) as [(D1&D2&D3&D4&D5&D6&D7&D8&D9&D10) _].
    split_and!; [congruence|congruence|done].
  - destruct (bool_decide (url s4 = None)) eqn:E.
    + destruct (clearReconnectTimer_spec s4) as [(D1&D2&D3&D4&D5&D6&D7&D8&D9&D10) _].
      split_and!; [congruence|congruence|].
      intros _ Hu. apply bool_decide_eq_true in E. congruence.
    + destruct (scheduleReconnect_spec s4) as (D1&D2&D3&D4&D5&D6&D7&D8&D9&D10).
      split_and!; [congruence|congruence|]. intros _ _.
      unfold scheduleReconnect. rewrite E.
      destruct (bool_decide (reconnectTimer s4 ≠ None)) eqn:E2; simpl.
      * by apply bool_decide_eq_true in E2.
      * done.
Qed.

(** [connect] on a bridge that has a url, no socket and is not connecting,
    when the socket can be constructed. *)
Lemma connect_opens s u :
  url s = Some u → socket s = None → status s ≠ connecting →
  let s' := connect None s in
  url s' = Some u ∧ status s' = connecting ∧ socket s' = Some (nextSocket s) ∧
  reconnectTimer s' = None ∧ pending s' = pending s ∧
  trace s' = (trace s ++ ((fun l => StatusNotified l connecting) <$> statusListeners s)
                      ++ [SocketCreated (nextSocket s) u])%list.
Proof.
  intros Hu Hs Hst. unfold connect. rewrite Hu, Hs.
  rewrite bool_decide_eq_false_2 by (by intros H; apply H).
  rewrite bool_decide_eq_false_2 by done. cbn [orb].
  destruct (clearReconnectTimer_spec s) as [(D1&D2&D3&D4&D5&D6&D7&D8&D9&D10) D11].
  destruct (updateStatus_spec connecting (clearReconnectTimer s))
    as (U1 & U2 & U3 & U4 & U5 & U6 & U7 & U8).
  assert (Hns : nextSocket (updateStatus connecting (clearReconnectTimer s)) = nextSocket s).
  { unfold updateStatus. case_decide; simpl; done. }
  simpl. rewrite Hns, U1, U2, U4, U5, U8, D1, D2, D5, D6, D10, D11.
  rewrite decide_False by done. split_and!; try done. by rewrite <- app_assoc.
Qed.

(** X1. At most one reconnect timer is armed, and it is the one the bridge
    remembers. *)
Theorem bridge_single_reconnect_timer inputs h h' :
  let s := run inputs initial in
  timers s !! h = Some Reconnect → timers s !! h' = Some Reconnect →
  h = h' ∧ reconnectTimer s = Some h.
Proof.
  intros s H1 H2. pose proof (Inv_reachable inputs) as HI. fold s in HI.
  pose proof (inv_reconnect_only _ HI _ H1). pose proof (inv_reconnect_only _ HI _ H2).
  split; [congruence|done].
Qed.

(** X2. No call outlives its connection.  In every state the bridge reaches,
    between two inputs: without a url there is no socket; without a socket,
    or while the status is [disconnected], no call is pending; and every
    pending call has its timeout armed and no outcome yet. *)
Theorem bridge_no_call_outlives_connection inputs :
  let s := run inputs initial in
  (url s = None → socket s = None) ∧
  (socket s = None → pending s = ∅) ∧
  (status s = disconnected → pending s = ∅) ∧
  (∀ k e, pending s !! k = Some e →
     outcomes (promise e) (trace s) = [] ∧
     ∃ h, timeoutId e = Some h ∧ timers s !! h = Some (RequestTimeout k (promise e))).
Proof.
  intros s. destruct (reachable_invariants inputs) as ((Q1 & Q2 & Q3) & _ & _).
  pose proof (Inv_reachable inputs) as HI. fold s in HI, Q1, Q2, Q3.
  split_and!; try done.
  intros k e He. destruct (inv_pending_timer _ HI _ _ He) as (h & Hh & Ht).
  split; [|eauto]. apply fates_nil_outcomes. by apply (inv_timer_unsettled _ HI _ _ _ Ht).
Qed.

(** X3. The configured url is never empty and never carries white space
    around it; configuring it again changes nothing of it. *)
Theorem bridge_url_is_trimmed inputs u :
  let s := run inputs initial in
  getUrl s = Some u →
  u ≠ "" ∧ trim u = u ∧ normalizeUrl (Some u) = Some u.
Proof.
  intros s Hu. destruct (reachable_invariants inputs) as (_ & _ & U).
  destruct (U u Hu) as [Hne Ht]. split_and!; try done.
  unfold normalizeUrl. rewrite Ht.
  destruct u; [done|]. done.
Qed.

(** X4. Request ids are not reused while in use.  As long as the counter is
    below [2^53], the id the next call will get is the key of no pending
    call, so that sending it overwrites no entry: every call that was pending
    still is, under the same id. *)
Theorem bridge_request_id_fresh inputs name args k :
  let s := run inputs initial in
  (nextId s < 2 ^ 53)%N →
  isConnected s = true → socket s = Some k →
  let s' := (callTool name args true None s).2 in
  pending s !! pretty (nextId s) = None ∧
  nextId s' = (nextId s + 1)%N ∧
  pending s' !! pretty (nextId s) =
    Some {| promise := nextPromise s; timeoutId := Some (nextTimer s) |} ∧
  (∀ k' e, pending s !! k' = Some e → pending s' !! k' = Some e).
Proof.
  intros s Hlt Hc Hk s'.
  destruct (reachable_invariants inputs) as (_ & [I1 I2] & _). fold s in I1, I2.
  assert (Hfresh : pending s !! pretty (nextId s) = None).
  { destruct (pending s !! pretty (nextId s)) as [e|] eqn:E; [|done].
    destruct (I2 _ _ E) as (n & Hn & Hb). apply (inj pretty) in Hn. lia. }
  destruct (callTool_sent name args s k Hc Hk) as (_ & Hp & _ & Hn & _).
  fold s' in Hp, Hn. split_and!; try done.
  - rewrite Hn. unfold bumpId. apply N.ltb_lt in Hlt. by rewrite Hlt.
  - rewrite Hp. apply lookup_insert_eq.
  - intros k' e He. rewrite Hp. rewrite lookup_insert_ne; [done|]. congruence.
Qed.


(** *** Status listeners *)

Lemma told_app l (a b : list Effect) : told l (a ++ b) = (told l a ++ told l b)%list.
Proof.
  induction a as [|e a IH]; [done|].
  destruct e; simpl; try done. case_bool_decide; simpl; by rewrite IH.
Qed.

Lemma told_broadcast l st (ls : list nat) :
  NoDup ls →
  told l ((fun l' => StatusNotified l' st) <$> ls) = if bool_decide (l ∈ ls) then [st] else [].
Proof.
  induction 1 as [|x ls Hx Hnd IH]; [done|]. rewrite fmap_cons. cbn [told]. rewrite IH.
  destruct (decide (x = l)) as [->|Hxl].
  - rewrite (bool_decide_eq_true_2 (l = l)) by done.
    rewrite (bool_decide_eq_false_2 (l ∈ ls)) by done.
    rewrite bool_decide_eq_true_2; [done|]. apply list_elem_of_here.
  - rewrite (bool_decide_eq_false_2 (x = l)) by done.
    destruct (decide (l ∈ ls)) as [Hin|Hin].
    + rewrite !bool_decide_eq_true_2; [done| |done]. by apply list_elem_of_further.
    + rewrite !bool_decide_eq_false_2; [done| |done].
      intros [?|?]%elem_of_cons; congruence.
Qed.

Lemma told_rejections l msg (es : list (string * PendingRequest)) :
  told l ((fun e => Settled (promise e.2) (Rejected msg)) <$> es) = [].
Proof. by induction es. Qed.

Lemma told_deliveries l data (ls : list nat) :
  told l ((fun l' => NotificationDelivered l' data) <$> ls) = [].
Proof. by induction ls. Qed.

Lemma Broadcasts_refl s : Broadcasts s s [].
Proof. split_and!; try done. intros l. by case_bool_decide; rewrite app_nil_r. Qed.

Lemma Broadcasts_trans s1 s2 s3 a b :
  Broadcasts s1 s2 a → Broadcasts s2 s3 b → Broadcasts s1 s3 (a ++ b).
Proof.
  intros (A1 & A2 & A3) (B1 & B2 & B3). split_and!.
  - congruence.
  - rewrite B2, A2. rewrite last_app. by destruct (last b).
  - intros l. rewrite B3, A3, A1. case_bool_decide; by rewrite <- app_assoc.
Qed.

(** A step that tells the status listeners nothing. *)
Lemma Broadcasts_quiet s s' :
  statusListeners s' = statusListeners s → status s' = status s →
  (∀ l, told l (trace s') = told l (trace s)) → Broadcasts s s' [].
Proof.
  intros H1 H2 H3. split_and!; try done.
  intros l. rewrite H3. by case_bool_decide; rewrite app_nil_r.
Qed.

Lemma Broadcasts_updateStatus st s :
  NoDup (statusListeners s) →
  Broadcasts s (updateStatus st s) (if decide (status s = st) then [] else [st]).
Proof.
  intros Hnd. unfold updateStatus. case_decide; [apply Broadcasts_refl|].
  split_and!; try done. intros l. simpl. by rewrite told_app, told_broadcast.
Qed.

Lemma Broadcasts_sameButTimers s s' : sameButTimers s s' → Broadcasts s s' [].
Proof.
  intros (A1&A2&A3&A4&A5&A6&A7&A8&A9&A10). apply Broadcasts_quiet; try done.
  intros l. by rewrite A10.
Qed.

Lemma Broadcasts_rejectAll msg s : Broadcasts s (rejectAll msg s) [].
Proof.
  destruct (rejectAll_spec msg s) as (_ & C2 & _ & _ & _ & C6 & _ & _ & _ & _ & _ & C12).
  apply Broadcasts_quiet; try done.
  intros l. by rewrite C12, told_app, told_rejections, app_nil_r.
Qed.

Lemma Broadcasts_teardown error suppress s :
  NoDup (statusListeners s) →
  Broadcasts s (teardown error suppress s)
    (if decide (status s = disconnected) then [] else [disconnected]).
Proof.
  intros Hnd. unfold teardown.
  set (s1 := match socket s with Some k => emit [SocketCloseCalled k] s | None => s end).
  assert (H1 : Broadcasts s (set_socket None s1) []).
  { apply Broadcasts_quiet; unfold s1; destruct (socket s); simpl; try done.
    intros l. by rewrite told_app, app_nil_r. }
  assert (Hst : status (set_socket None s1) = status s) by (by destruct H1 as (_ & ? & _)).
  assert (Hls : statusListeners (set_socket None s1) = statusListeners s)
    by (by destruct H1 as (? & _)).
  pose proof (Broadcasts_updateStatus disconnected (set_socket None s1)) as H2.
  rewrite Hst, Hls in H2. specialize (H2 Hnd).
  set (s3 := updateStatus disconnected (set_socket None s1)) in *.
  pose proof (Broadcasts_rejectAll (default disconnectedMessage error) s3) as H3.
  set (s4 := rejectAll (default disconnectedMessage error) s3) in *.
  assert (H4 : Broadcasts s4 (if suppress || bool_decide (url s4 = None)
                              then clearReconnectTimer s4 else scheduleReconnect s4) []).
  { destruct (_ || _); apply Broadcasts_sameButTimers;
      [apply clearReconnectTimer_spec|apply scheduleReconnect_spec]. }
  pose proof (Broadcasts_trans _ _ _ _ _ (Broadcasts_trans _ _ _ _ _
               (Broadcasts_trans _ _ _ _ _ H1 H2) H3) H4) as H.
  by rewrite app_nil_r, app_nil_r in H.
Qed.

Lemma Broadcasts_exists_teardown error suppress s :
  NoDup (statusListeners s) → ∃ sts, Broadcasts s (teardown error suppress s) sts.
Proof. intros. eexists. by apply Broadcasts_teardown. Qed.

Lemma Broadcasts_NoDup s s' sts :
  Broadcasts s s' sts → NoDup (statusListeners s) → NoDup (statusListeners s').
Proof. intros (-> & _). done. Qed.

Lemma Broadcasts_connect ctorError s :
  NoDup (statusListeners s) → ∃ sts, Broadcasts s (connect ctorError s) sts.
Proof.
  intros Hnd. unfold connect. destruct (url s) as [u|].
  - destruct (_ || _); [eexists; apply Broadcasts_refl|].
    pose proof (Broadcasts_sameButTimers _ _ (proj1 (clearReconnectTimer_spec s))) as H1.
    pose proof (Broadcasts_updateStatus connecting (clearReconnectTimer s)
                  (Broadcasts_NoDup _ _ _ H1 Hnd)) as H2.
    pose proof (Broadcasts_trans _ _ _ _ _ H1 H2) as H12.
    set (s2 := updateStatus connecting (clearReconnectTimer s)) in *.
    destruct ctorError as [e|].
    + destruct (Broadcasts_exists_teardown (Some e) false s2
                  (Broadcasts_NoDup _ _ _ H12 Hnd)) as [sts H3].
      eexists. eapply Broadcasts_trans; [apply H12|apply H3].
    + eexists. eapply Broadcasts_trans; [apply H12|].
      apply Broadcasts_quiet; try done. intros l. simpl. by rewrite told_app, app_nil_r.
  - eexists. by apply Broadcasts_updateStatus.
Qed.

(** Every input other than a subscription tells every status listener the
    same changes of status, in the same order, and tells nobody else. *)
Lemma Broadcasts_step i s :
  NoDup (statusListeners s) →
  (∀ l, i ≠ DoOnStatusChange l) → (∀ l, i ≠ DoOffStatusChange l) →
  ∃ sts, Broadcasts s (step i s) sts.
Proof.
  intros Hnd Hon Hoff. destruct i; simpl.
  - unfold setUrl. case_bool_decide.
    + set (s1 := if _ && _ then _ else _).
      assert (H1 : ∃ sts, Broadcasts s s1 sts).
      { unfold s1. destruct (_ && _); [by apply Broadcasts_connect|].
        eexists. apply Broadcasts_refl. }
      destruct H1 as [a H1]. case_bool_decide; [|by eexists].
      destruct (Broadcasts_exists_teardown (Some disabledMessage) true s1
                  (Broadcasts_NoDup _ _ _ H1 Hnd)) as [b H2].
      eexists. eapply Broadcasts_trans; [apply H1|apply H2].
    + set (s1 := set_url (normalizeUrl next) s).
      assert (H1 : Broadcasts s s1 []) by (by apply Broadcasts_quiet).
      destruct (url s1).
      * destruct (Broadcasts_exists_teardown (Some reconfiguringMessage) true s1
                    (Broadcasts_NoDup _ _ _ H1 Hnd)) as [b H2].
        pose proof (Broadcasts_trans _ _ _ _ _ H1 H2) as H12.
        destruct (Broadcasts_connect ctorError _ (Broadcasts_NoDup _ _ _ H12 Hnd))
          as [c H3].
        eexists. eapply Broadcasts_trans; [apply H12|apply H3].
      * destruct (Broadcasts_exists_teardown (Some disabledMessage) true s1
                    (Broadcasts_NoDup _ _ _ H1 Hnd)) as [b H2].
        eexists. eapply Broadcasts_trans; [apply H1|apply H2].
  - unfold reconnectNow. destruct (url s).
    + destruct (socket s); [|by apply Broadcasts_connect].
      eexists. apply Broadcasts_quiet; try done.
      intros l. simpl. by rewrite told_app, app_nil_r.
    + eexists. by apply Broadcasts_updateStatus.
  - eexists. destruct (callTool_frame name args socketOpen sendError s)
      as (_ & F2 & _ & _ & F5 & _).
    apply Broadcasts_quiet; try done. intros l.
    unfold callTool, sendRequest. simpl.
    repeat match goal with
           | |- context [if ?c then _ else _] => destruct c
           | |- context [match ?c with Some _ => _ | None => _ end] => destruct c
           end; simpl; rewrite !told_app; simpl; by rewrite ?app_nil_r.
  - by destruct (Hon listener).
  - by destruct (Hoff listener).
  - eexists. by apply Broadcasts_quiet.
  - eexists. by apply Broadcasts_quiet.
  - eexists. by apply Broadcasts_updateStatus.
  - eexists. destruct (frame_handleMessage parsed s) as (_ & F2 & _ & _ & (_&_&F5&_) & _).
    apply Broadcasts_quiet; try done. intros l. unfold handleMessage.
    destruct parsed as [data|]; [|simpl; by rewrite told_app, app_nil_r].
    destruct (_ || _); [|simpl; by rewrite told_app, told_deliveries, app_nil_r].
    destruct (pending s !! _) as [e|]; [|done].
    destruct (timeoutId e);
      repeat match goal with |- context [if ?c then _ else _] => destruct c end;
      simpl; by rewrite told_app, app_nil_r.
  - eexists. apply Broadcasts_refl.
  - by apply Broadcasts_exists_teardown.
  - unfold timerFired. destruct (timers s !! h) as [[id p|]|].
    + eexists. apply Broadcasts_quiet; try done.
      intros l. simpl. by rewrite told_app, app_nil_r.
    + set (s1 := set_reconnectTimer None (set_timers (delete h (timers s)) s)).
      destruct (Broadcasts_connect ctorError s1 Hnd) as [sts H1]. by exists sts.
    + eexists. apply Broadcasts_refl.
Qed.

Lemma NoDup_listeners_step i s :
  NoDup (statusListeners s) → NoDup (statusListeners (step i s)).
Proof.
  intros Hnd.
  destruct i;
    try (match goal with
         | |- NoDup (statusListeners (step ?i s)) =>
             destruct (Broadcasts_step i s Hnd ltac:(done) ltac:(done)) as [sts H]
         end; exact (Broadcasts_NoDup _ _ _ H Hnd)).
  - simpl. case_bool_decide; [done|].
    apply NoDup_app. split_and!; [done| |apply NoDup_singleton].
    intros x Hx ->%list_elem_of_singleton. done.
  - simpl. by apply NoDup_filter.
Qed.

Lemma NoDup_listeners inputs : NoDup (statusListeners (run inputs initial)).
Proof.
  assert (H : ∀ s, NoDup (statusListeners s) → NoDup (statusListeners (run inputs s))).
  { induction inputs as [|i inputs IH]; intros s Hs; [done|].
    apply IH. by apply NoDup_listeners_step. }
  apply H. simpl. apply NoDup_nil_2.
Qed.

(** The invariant behind the next theorem. *)
Lemma synced_step i s :
  NoDup (statusListeners s) →
  (∀ l, l ∈ statusListeners s → last (told l (trace s)) = Some (status s)) →
  ∀ l, l ∈ statusListeners (step i s) →
       last (told l (trace (step i s))) = Some (status (step i s)).
Proof.
  intros Hnd Hs.
  destruct i;
    try (match goal with
         | |- ∀ l, l ∈ statusListeners (step ?i s) → _ =>
             destruct (Broadcasts_step i s Hnd ltac:(done) ltac:(done)) as (sts & B1 & B2 & B3)
         end;
         intros l Hl; rewrite B1 in Hl; rewrite B3, B2, bool_decide_eq_true_2 by done;
         rewrite last_app; destruct (last sts); [done|]; simpl; by apply Hs).
  - intros l Hl.
    change (trace (step (DoOnStatusChange listener) s))
      with (trace s ++ [StatusNotified listener (status s)])%list.
    change (status (step (DoOnStatusChange listener) s)) with (status s).
    change (statusListeners (step (DoOnStatusChange listener) s))
      with (if bool_decide (listener ∈ statusListeners s) then statusListeners s
            else (statusListeners s ++ [listener])%list) in Hl.
    rewrite told_app. cbn [told].
    destruct (decide (listener = l)) as [->|Hne].
    + rewrite bool_decide_eq_true_2 by done. by rewrite last_snoc.
    + rewrite bool_decide_eq_false_2 by done. rewrite app_nil_r. apply Hs.
      case_bool_decide; [done|].
      apply elem_of_app in Hl as [?|?%list_elem_of_singleton]; [done|congruence].
  - intros l Hl. simpl in *. apply Hs. by apply list_elem_of_filter in Hl as [_ ?].
Qed.


(** X5. Every subscribed status listener is up to date.  In every state the
    bridge reaches, the last status a subscribed listener was told is the
    status of the bridge, and no listener is subscribed twice. *)
Theorem bridge_listeners_in_sync inputs l :
  let s := run inputs initial in
  l ∈ statusListeners s →
  last (told l (trace s)) = Some (status s) ∧ NoDup (statusListeners s).
Proof.
  intros s Hl. split; [|apply NoDup_listeners].
  revert l Hl. unfold s. clear s.
  assert (H : ∀ s0,
    NoDup (statusListeners s0) →
    (∀ l, l ∈ statusListeners s0 → last (told l (trace s0)) = Some (status s0)) →
    ∀ l, l ∈ statusListeners (run inputs s0) →
         last (told l (trace (run inputs s0))) = Some (status (run inputs s0))).
  { induction inputs as [|i inputs IH]; intros s0 Hnd Hs; [done|].
    apply IH; [by apply NoDup_listeners_step|by apply synced_step]. }
  apply H; [apply NoDup_nil_2|]. intros l Hl. by apply elem_of_nil in Hl.
Qed.

Lemma unsubscribed_step i s l :
  NoDup (statusListeners s) → l ∉ statusListeners s → subscribes l i = false →
  told l (trace (step i s)) = told l (trace s) ∧ l ∉ statusListeners (step i s).
Proof.
  intros Hnd Hl Hi.
  destruct i;
    try (match goal with
         | |- told l (trace (step ?i s)) = _ ∧ _ =>
             destruct (Broadcasts_step i s Hnd ltac:(done) ltac:(done)) as (sts & B1 & B2 & B3)
         end;
         rewrite B1, B3, bool_decide_eq_false_2 by done; by rewrite app_nil_r).
  - simpl in Hi. apply bool_decide_eq_false in Hi.
    change (trace (step (DoOnStatusChange listener) s))
      with (trace s ++ [StatusNotified listener (status s)])%list.
    change (statusListeners (step (DoOnStatusChange listener) s))
      with (if bool_decide (listener ∈ statusListeners s) then statusListeners s
            else (statusListeners s ++ [listener])%list).
    rewrite told_app. cbn [told]. rewrite bool_decide_eq_false_2 by done.
    rewrite app_nil_r. split; [done|].
    case_bool_decide; [done|].
    intros [?|?%list_elem_of_singleton]%elem_of_app; [done|congruence].
  - split; [done|]. simpl. intros [_ ?]%list_elem_of_filter. done.
Qed.

(** X6. Unsubscribing works.  Once a status listener has unsubscribed, it is
    told nothing more, whatever happens to the bridge, until it subscribes
    again. *)
Theorem bridge_unsubscribed_listener_is_not_told inputs later l :
  let s := offStatusChange l (run inputs initial) in
  forallb (fun i => negb (subscribes l i)) later = true →
  told l (trace (run later s)) = told l (trace s) ∧
  l ∉ statusListeners (run later s).
Proof.
  intros s Hlater.
  assert (H : ∀ s0, NoDup (statusListeners s0) → l ∉ statusListeners s0 →
              told l (trace (run later s0)) = told l (trace s0) ∧
              l ∉ statusListeners (run later s0)).
  { clear s. induction later as [|i later IH]; intros s0 Hnd Hl; [done|].
    simpl in Hlater. apply andb_true_iff in Hlater as [Hi Hlater].
    apply negb_true_iff in Hi.
    destruct (unsubscribed_step i s0 l Hnd Hl Hi) as [Ht Hl'].
    destruct (IH Hlater (step i s0)) as [Ht' Hl'']; [by apply NoDup_listeners_step|done|].
    split; [|done]. simpl. by rewrite Ht'. }
  apply H.
  - unfold s. simpl. apply NoDup_filter, NoDup_listeners.
  - unfold s. simpl. intros [? _]%list_elem_of_filter. done.
Qed.

(** *** Notification listeners *)

Lemma delivered_app l (a b : list Effect) :
  delivered l (a ++ b) = (delivered l a ++ delivered l b)%list.
Proof.
  induction a as [|e a IH]; [done|].
  destruct e; simpl; try done. case_bool_decide; simpl; by rewrite IH.
Qed.

Lemma delivered_fanout l data (ls : list nat) :
  NoDup ls →
  delivered l ((fun l' => NotificationDelivered l' data) <$> ls)
    = if bool_decide (l ∈ ls) then [data] else [].
Proof.
  induction 1 as [|x ls Hx Hnd IH]; [done|]. rewrite fmap_cons. cbn [delivered]. rewrite IH.
  destruct (decide (x = l)) as [->|Hxl].
  - rewrite (bool_decide_eq_true_2 (l = l)) by done.
    rewrite (bool_decide_eq_false_2 (l ∈ ls)) by done.
    rewrite bool_decide_eq_true_2; [done|]. apply list_elem_of_here.
  - rewrite (bool_decide_eq_false_2 (x = l)) by done.
    destruct (decide (l ∈ ls)) as [Hin|Hin].
    + rewrite !bool_decide_eq_true_2; [done| |done]. by apply list_elem_of_further.
    + rewrite !bool_decide_eq_false_2; [done| |done].
      intros [?|?]%elem_of_cons; congruence.
Qed.

Lemma NoDup_notification_step i s :
  NoDup (notificationListeners s) → NoDup (notificationListeners (step i s)).
Proof.
  intros Hnd. destruct i; simpl; try done.
  - destruct (frame_setUrl next ctorError s) as ((_&_&_&->) & _). done.
  - destruct (frame_reconnectNow ctorError s) as (_ & (_&_&_&->) & _). done.
  - destruct (callTool_frame name args socketOpen sendError s) as (_&_&_&_&_&->&_). done.
  - case_bool_decide; [done|].
    apply NoDup_app. split_and!; [done| |apply NoDup_singleton].
    intros x Hx ->%list_elem_of_singleton. done.
  - by apply NoDup_filter.
  - destruct (frame_updateStatus connected s) as (_ & (_&_&_&->) & _). done.
  - destruct (frame_handleMessage parsed s) as (_&_&_&_& (_&_&_&->) & _). done.
  - destruct (frame_teardown None false s) as (_ & (_&_&_&->) & _). done.
  - destruct (frame_timerFired h ctorError s) as (_ & (_&_&_&->) & _). done.
Qed.

Lemma NoDup_notification inputs : NoDup (notificationListeners (run inputs initial)).
Proof.
  assert (H : ∀ s, NoDup (notificationListeners s) →
              NoDup (notificationListeners (run inputs s))).
  { induction inputs as [|i inputs IH]; intros s Hs; [done|].
    apply IH. by apply NoDup_notification_step. }
  apply H. simpl. apply NoDup_nil_2.
Qed.

(** X7. Notifications.  A frame whose [id] is neither a string nor a number is
    handed once to each registered notification listener and to nobody else;
    a frame that carries such an id is handed to no notification listener,
    whether or not a call is pending under that id; a frame that is not JSON
    is handed to nobody. *)
Theorem bridge_notification_fanout inputs parsed l :
  let s := run inputs initial in
  delivered l (trace (handleMessage parsed s)) =
    (delivered l (trace s) ++
     match parsed with
     | Some data =>
         if negb (typeof_string (frameId data) || typeof_number (frameId data)) &&
            bool_decide (l ∈ notificationListeners s)
         then [data] else []
     | None => []
     end)%list.
Proof.
  intros s. pose proof (NoDup_notification inputs) as Hnd. fold s in Hnd.
  unfold handleMessage. destruct parsed as [data|]; [|simpl; by rewrite delivered_app].
  destruct (_ || _); cbn [negb andb].
  - rewrite app_nil_r. destruct (pending s !! _) as [e|]; [|done].
    destruct (timeoutId e);
      repeat match goal with |- context [if ?c then _ else _] => destruct c end;
      simpl; by rewrite delivered_app, app_nil_r.
  - simpl. by rewrite delivered_app, delivered_fanout.
Qed.

(** X8. A frame cannot disturb the connection.  Whatever arrives on the
    socket (JSON or not, expected or not), the url, the status, the socket
    and the reconnect timer stay as they are, no pending entry is created or
    changed, and the only entry that can disappear is the one under the id
    the frame carries. *)
Theorem bridge_frame_isolation parsed s :
  let s' := handleMessage parsed s in
  url s' = url s ∧ status s' = status s ∧ socket s' = socket s ∧
  reconnectTimer s' = reconnectTimer s ∧
  (∀ k e, pending s' !! k = Some e → pending s !! k = Some e) ∧
  (∀ k, (∀ data, parsed = Some data → k ≠ js_String (frameId data)) →
        pending s' !! k = pending s !! k).
Proof.
  destruct (frame_handleMessage parsed s) as (F1 & F2 & F3 & F4 & _ & F6 & F7).
  cbv zeta. split_and!; try done.
  intros k e He. by eapply lookup_weaken.
Qed.


(** *** Calls and their answers *)

(** X9. Request and response are correlated by the id.  A call sent on a
    connected bridge and answered by a frame carrying its id is handled by
    that frame, once: it is rejected with the message of the frame's error
    (or [Unknown MCP error] when the error has none), resolved with the
    frame's result, or resolved with [undefined] when the frame has neither;
    when the message of the error cannot be turned into a string,
    [new Error(message)] throws and the call gets no outcome.  In every case
    the timeout is cleared, the entry removed, and the same frame arriving
    again changes nothing. *)
Theorem bridge_call_response_round_trip inputs name args k data :
  let s := run inputs initial in
  isConnected s = true → socket s = Some k →
  typeof_string (frameId data) || typeof_number (frameId data) = true →
  js_String (frameId data) = pretty (nextId s) →
  let p := nextPromise s in
  let s1 := (callTool name args true None s).2 in
  let s2 := handleMessage (Some data) s1 in
  let message :=
    js_coalesce (get (get data "error") "message") (VStr "Unknown MCP error") in
  let outcome :=
    if has_prop data "error" && truthy (get data "error") then
      if String_throws message then None else Some (Rejected (js_String message))
    else if has_prop data "result" then Some (Resolved (get data "result"))
    else Some (Resolved VUndef) in
  trace s2 = (trace s1 ++ [match outcome with
                           | Some o => Settled p o
                           | None => Uncaught p cannot_convert
                           end])%list ∧
  outcomes p (trace s1) = [] ∧
  outcomes p (trace s2) = match outcome with Some o => [o] | None => [] end ∧
  pending s2 = delete (pretty (nextId s)) (pending s) ∧
  timers s2 = timers s ∧
  handleMessage (Some data) s2 = s2.
Proof.
  intros s Hc Hk Hty Hid p s1 s2 message outcome.
  pose proof (Inv_reachable inputs) as HI. fold s in HI.
  destruct (callTool_sent name args s k Hc Hk) as (Htr & Hp & Ht & Hn & Hnt).
  fold s1 in Htr, Hp, Ht, Hn, Hnt.
  assert (Hfresh : timers s !! nextTimer s = None).
  { destruct (timers s !! nextTimer s) eqn:E; [|done].
    apply (inv_timer_fresh _ HI) in E. lia. }
  assert (Hlook : pending s1 !! pretty (nextId s)
                  = Some {| promise := p; timeoutId := Some (nextTimer s) |}).
  { rewrite Hp. apply lookup_insert_eq. }
  assert (H2 : trace s2 = (trace s1 ++ [match outcome with
                                        | Some o => Settled p o
                                        | None => Uncaught p cannot_convert
                                        end])%list ∧
               pending s2 = delete (pretty (nextId s)) (pending s1) ∧
               timers s2 = delete (nextTimer s) (timers s1)).
  { unfold s2, handleMessage, outcome, message. rewrite Hty, Hid, Hlook. simpl.
    destruct (has_prop data "error" && truthy (get data "error")).
    - by destruct (String_throws _).
    - by destruct (has_prop data "result"). }
  destruct H2 as (T2 & P2 & M2).
  assert (Hpo : outcomes p (trace s) = []).
  { apply fates_nil_outcomes. destruct (fates p (trace s)) eqn:E; [done|].
    assert (p < nextPromise s)%nat; [|unfold p in *; lia].
    apply (inv_outcome_created _ HI). by rewrite E. }
  assert (Hp1 : outcomes p (trace s1) = []).
  { rewrite Htr, !outcomes_app, Hpo. done. }
  split_and!.
  - done.
  - done.
  - rewrite T2, outcomes_app, Hp1. destruct outcome; simpl; [|done].
    by rewrite bool_decide_eq_true_2.
  - by rewrite P2, Hp, delete_insert_eq.
  - by rewrite M2, Ht, delete_insert_id.
  - unfold handleMessage. rewrite Hty, Hid, P2, lookup_delete_eq. done.
Qed.

(** X10. A send that fails takes down that call alone.  When writing the
    request to the socket throws, the call is rejected with that error, its
    timeout is cleared and its entry removed; nothing is sent, and the url,
    the status, the socket and the other pending calls are as before. *)
Theorem bridge_send_failure_is_contained inputs name args k e :
  let s := run inputs initial in
  isConnected s = true → socket s = Some k →
  let r := callTool name args true (Some e) s in
  trace r.2 = (trace s ++ [PromiseCreated r.1; Settled r.1 (Rejected e)])%list ∧
  url r.2 = url s ∧ status r.2 = status s ∧ socket r.2 = socket s ∧
  timers r.2 = timers s ∧
  pending r.2 = delete (pretty (nextId s)) (pending s) ∧
  ((nextId s < 2 ^ 53)%N → pending r.2 = pending s).
Proof.
  intros s Hc Hk r.
  pose proof (Inv_reachable inputs) as HI. fold s in HI.
  destruct (reachable_invariants inputs) as (_ & [I1 I2] & _). fold s in I1, I2.
  assert (Hfresh : timers s !! nextTimer s = None).
  { destruct (timers s !! nextTimer s) eqn:E; [|done].
    apply (inv_timer_fresh _ HI) in E. lia. }
  destruct (callTool_frame name args true (Some e) s) as (F1 & F2 & F3 & _).
  fold r in F1, F2, F3.
  assert (H : trace r.2 = (trace s ++ [PromiseCreated r.1; Settled r.1 (Rejected e)])%list ∧
              timers r.2 = delete (nextTimer s)
                             (<[nextTimer s := RequestTimeout (pretty (nextId s))
                                                 (nextPromise s)]> (timers s)) ∧
              pending r.2 = delete (pretty (nextId s))
                              (<[pretty (nextId s) :=
                                 {| promise := nextPromise s;
                                    timeoutId := Some (nextTimer s) |}]> (pending s))).
  { unfold r, callTool.
    change (isConnected (emit _ (set_nextPromise _ s))) with (isConnected s).
    rewrite Hc. unfold sendRequest. simpl. rewrite Hk. simpl.
    by rewrite <- !app_assoc. }
  destruct H as (T & M & P).
  rewrite delete_insert_id in M by done. rewrite delete_insert_eq in P.
  split_and!; try done.
  intros Hlt. rewrite P. apply delete_id.
  destruct (pending s !! pretty (nextId s)) as [e0|] eqn:E; [|done].
  destruct (I2 _ _ E) as (n & Hn & Hb). apply (inj pretty) in Hn. lia.
Qed.

(** X11. Pointing the bridge at another endpoint.  When [setUrl] is given a
    url that differs (once trimmed) from the current one, every pending call
    is rejected with [Reconfiguring MCP bridge endpoint.] before the socket to
    the new endpoint is created; afterwards the bridge is [connecting] to the
    trimmed url over the new socket, with nothing pending and no reconnect
    timer. *)
Theorem bridge_reconfigure_rejects_then_connects inputs next u :
  let s := run inputs initial in
  normalizeUrl next = Some u → url s ≠ Some u →
  let s' := setUrl next None s in
  getUrl s' = Some u ∧ status s' = connecting ∧ socket s' = Some (nextSocket s) ∧
  pending s' = ∅ ∧ reconnectTimer s' = None ∧
  trace s' =
    (trace s
     ++ match socket s with Some k => [SocketCloseCalled k] | None => [] end
     ++ (if decide (status s = disconnected) then []
         else (fun l => StatusNotified l disconnected) <$> statusListeners s)
     ++ ((fun e => Settled (promise e.2) (Rejected reconfiguringMessage))
           <$> map_to_list (pending s))
     ++ ((fun l => StatusNotified l connecting) <$> statusListeners s)
     ++ [SocketCreated (nextSocket s) u])%list.
Proof.
  intros s Hn Hu s'. unfold s', setUrl. rewrite Hn.
  rewrite bool_decide_eq_false_2 by done. cbn [url set_url].
  destruct (teardown_spec (Some reconfiguringMessage) true (set_url (Some u) s))
    as (T1 & T2 & T3 & T4 & T5 & T6).
  destruct (teardown_more (Some reconfiguringMessage) true (set_url (Some u) s))
    as (M1 & M2 & _).
  set (s1 := teardown (Some reconfiguringMessage) true (set_url (Some u) s)) in *.
  simpl in T1, T5, M1, M2. specialize (T6 eq_refl).
  destruct (connect_opens s1 u T1 T3) as (C1 & C2 & C3 & C4 & C5 & C6);
    [by rewrite T2|].
  unfold getUrl. rewrite C1, C2, C3, C4, C5, C6, T4, T5, M1, M2.
  split_and!; try done. by rewrite <- !app_assoc.
Qed.

(** X12. The bridge reconnects by itself.  When the socket of a configured
    bridge closes, the bridge is [disconnected] without socket and a
    reconnect timer is armed; when that timer fires, the bridge creates a
    socket to the configured url and is [connecting]; if creating the socket
    throws, the bridge is [disconnected] again with a reconnect timer armed
    for the next attempt. *)
Theorem bridge_reconnects_after_close inputs u :
  let s := run inputs initial in
  url s = Some u →
  let s1 := step SocketClose s in
  status s1 = disconnected ∧ socket s1 = None ∧ pending s1 = ∅ ∧
  ∃ h, reconnectTimer s1 = Some h ∧ timers s1 !! h = Some Reconnect ∧
       timerDelay Reconnect = 2000%Z ∧
       (let s2 := step (TimerFired h None) s1 in
        status s2 = connecting ∧ socket s2 = Some (nextSocket s) ∧
        reconnectTimer s2 = None ∧
        trace s2 = (trace s1 ++ ((fun l => StatusNotified l connecting) <$> statusListeners s)
                             ++ [SocketCreated (nextSocket s) u])%list) ∧
       (∀ e, let s2 := step (TimerFired h (Some e)) s1 in
             status s2 = disconnected ∧ socket s2 = None ∧
             ∃ h', reconnectTimer s2 = Some h' ∧ timers s2 !! h' = Some Reconnect).
Proof.
  intros s Hu s1.
  pose proof (Inv_reachable inputs) as HI. fold s in HI.
  assert (HI1 : Inv s1) by by apply Inv_step.
  destruct (teardown_spec None false s) as (T1 & T2 & T3 & T4 & T5 & _).
  destruct (teardown_more None false s) as (M1 & M2 & M3).
  change (teardown None false s) with s1 in *.
  assert (Hr : ∃ h, reconnectTimer s1 = Some h).
  { destruct (reconnectTimer s1) eqn:E; [by eexists|].
    exfalso. apply M3; [done|congruence|done]. }
  destruct Hr as [h Hr].
  pose proof (inv_reconnect_armed _ HI1 _ Hr) as Hh.
  split_and!; try done. exists h. split_and!; try done.
  - cbv zeta. simpl. unfold timerFired. rewrite Hh.
    set (s1' := set_reconnectTimer None (set_timers (delete h (timers s1)) s1)).
    destruct (connect_opens s1' u) as (C1 & C2 & C3 & C4 & C5 & C6);
      [simpl; congruence|done|by simpl; rewrite T2|].
    simpl in C3, C6. rewrite M1 in C3, C6. rewrite M2 in C6. done.
  - intros e. cbv zeta. simpl. unfold timerFired. rewrite Hh.
    set (s1' := set_reconnectTimer None (set_timers (delete h (timers s1)) s1)).
    assert (HI1' : Inv s1').
    { apply (Inv_reconnect_clear s1 _ h); done. }
    unfold connect. change (url s1') with (url s1). rewrite T1, Hu.
    change (socket s1') with (socket s1). change (status s1') with (status s1).
    rewrite T3, T2.
    rewrite bool_decide_eq_false_2 by (by intros H; apply H).
    rewrite bool_decide_eq_false_2 by done. cbn [orb].
    set (s2 := updateStatus connecting (clearReconnectTimer s1')).
    assert (HI2 : Inv s2) by by apply Inv_updateStatus, Inv_clearReconnectTimer.
    assert (Hu2 : url s2 = Some u).
    { destruct (frame_updateStatus connecting (clearReconnectTimer s1')) as (A & _).
      destruct (clearReconnectTimer_spec s1') as [(B & _) _].
      unfold s2. rewrite A, B. simpl. congruence. }
    destruct (teardown_spec (Some e) false s2) as (U1 & U2 & U3 & _).
    destruct (teardown_more (Some e) false s2) as (_ & _ & U6).
    split_and!; try done.
    destruct (reconnectTimer (teardown (Some e) false s2)) as [h'|] eqn:E.
    + exists h'. split; [done|].
      by apply (inv_reconnect_armed _ (Inv_teardown (Some e) false s2 HI2)).
    + exfalso. apply U6; [done|congruence|done].
Qed.

(** *** The earlier revision *)

Lemma legacy_scheduleReconnect_arms s :
  reconnectTimer (Legacy.scheduleReconnect s) ≠ None.
Proof.
  unfold Legacy.scheduleReconnect. case_bool_decide; [done|].
  unfold setTimeout. simpl. done.
Qed.

(** X13. The disconnect path of the earlier revision and the teardown that
    replaced it do the same things in the same order.  From any state, both
    leave the bridge [disconnected] with no socket and nothing pending, and
    both first tell the status listeners and then reject every pending
    request with the same message; the teardown additionally closes the
    socket, before anything else.  The earlier revision always arms a
    reconnect timer. *)
Theorem bridge_teardown_extends_legacy_disconnect error suppress s :
  let new := teardown error suppress s in
  let old := Legacy.handleDisconnect error s in
  status new = status old ∧ socket new = socket old ∧ pending new = pending old ∧
  reconnectTimer old ≠ None ∧
  ∃ rest,
    trace old = (trace s ++ rest)%list ∧
    trace new = (trace s ++ match socket s with
                            | Some k => [SocketCloseCalled k]
                            | None => []
                            end ++ rest)%list.
Proof.
  destruct (teardown_spec error suppress s) as (_ & T2 & T3 & T4 & T5 & _).
  destruct (handleDisconnect_spec error s) as (L1 & L2 & L3 & L4).
  cbv zeta in *. split_and!; try congruence.
  - apply legacy_scheduleReconnect_arms.
  - eexists. split; [exact L4|]. exact T5.
Qed.

(** *** Timeouts *)

(** An id drawn earlier and free now stays free: the counter never goes
    back, and a new entry is filed under the current value of the counter. *)
Lemma retired_step i s (n : N) :
  (nextId s ≤ 2 ^ 53)%N →
  (n < nextId s)%N → pending s !! pretty n = None →
  (nextId (step i s) ≤ 2 ^ 53)%N ∧
  (n < nextId (step i s))%N ∧ pending (step i s) !! pretty n = None.
Proof.
  intros Hb Hn Hp.
  assert (Hsub : ∀ s', nextId s' = nextId s → pending s' ⊆ pending s →
            (nextId s' ≤ 2 ^ 53)%N ∧ (n < nextId s')%N ∧ pending s' !! pretty n = None).
  { intros s' -> Hs. split_and!; try done.
    destruct (pending s' !! pretty n) eqn:E; [|done].
    apply (lookup_weaken _ _ _ _ E) in Hs. congruence. }
  destruct i; simpl.
  - destruct (frame_setUrl next ctorError s) as ((?&_) & ?). by apply Hsub.
  - destruct (frame_reconnectNow ctorError s) as (_ & (?&_) & ?). by apply Hsub.
  - destruct (callTool_pending name args socketOpen sendError s)
      as [[Hn' Hp']|(_ & _ & Hn' & Hp')].
    + by rewrite Hn', Hp'.
    + rewrite Hn'. unfold bumpId.
      assert (pretty n ≠ pretty (nextId s)) as Hne.
      { intros E. apply (inj pretty) in E. lia. }
      split_and!.
      * destruct (nextId s <? 2 ^ 53)%N eqn:E; [apply N.ltb_lt in E|]; lia.
      * destruct (nextId s <? 2 ^ 53)%N; lia.
      * destruct Hp' as [-> | ->].
        -- by rewrite lookup_insert_ne.
        -- by rewrite lookup_delete_ne.
  - by apply Hsub.
  - by apply Hsub.
  - by apply Hsub.
  - by apply Hsub.
  - destruct (frame_updateStatus connected s) as (_ & (?&_) & ?). by apply Hsub.
  - destruct (frame_handleMessage parsed s) as (_ & _ & _ & _ & (?&_) & ? & _).
    by apply Hsub.
  - by apply Hsub.
  - destruct (frame_teardown None false s) as (_ & (?&_) & ?). by apply Hsub.
  - destruct (frame_timerFired h ctorError s) as (_ & (?&_) & ?). by apply Hsub.
Qed.

Lemma retired_run later : ∀ s (n : N),
  (nextId s ≤ 2 ^ 53)%N →
  (n < nextId s)%N → pending s !! pretty n = None →
  pending (run later s) !! pretty n = None.
Proof.
  induction later as [|i later IH]; intros s n Hb Hn Hp; [done|].
  destruct (retired_step i s n Hb Hn Hp) as (? & ? & ?).
  by apply (IH (step i s)).
Qed.

(** X30. Timeouts.  A call in flight has its timeout armed, for 30000 ms,
    and no outcome yet.  When the timer fires the call is rejected with
    [mcp-timeout], its timer is gone and no entry remains under its id.  From
    then on, whatever happens, the call keeps that single outcome, and a
    response frame carrying its id, whenever it arrives, changes nothing and
    is delivered to nobody (the request counter being below [2^53], where ids
    start to repeat).  In every state the bridge reaches afterwards no call
    has two outcomes, and a call without outcome either still has its
    timeout armed or was dropped by a handler that threw. *)
Theorem bridge_timeout_then_late_response inputs id e h ctorError :
  let s := run inputs initial in
  pending s !! id = Some e → timeoutId e = Some h →
  let p := promise e in
  let s' := timerFired h ctorError s in
  timers s !! h = Some (RequestTimeout id p) ∧
  timerDelay (RequestTimeout id p) = 30000%Z ∧
  outcomes p (trace s) = [] ∧
  trace s' = (trace s ++ [Settled p (Rejected "mcp-timeout")])%list ∧
  pending s' !! id = None ∧
  timers s' !! h = None ∧
  (∀ later, outcomes p (trace (run later s')) = [Rejected "mcp-timeout"]) ∧
  ((nextId s < 2 ^ 53)%N →
   ∀ later data,
     typeof_string (frameId data) || typeof_number (frameId data) = true →
     js_String (frameId data) = id →
     handleMessage (Some data) (run later s') = run later s') ∧
  (∀ later q,
     let t := run later s' in
     (length (outcomes q (trace t)) ≤ 1)%nat ∧
     ((q < nextPromise t)%nat →
      (∃ o, outcomes q (trace t) = [o]) ∨
      (outcomes q (trace t) = [] ∧ fates q (trace t) = [None]) ∨
      (outcomes q (trace t) = [] ∧ ∃ h' k, timers t !! h' = Some (RequestTimeout k q)))).
Proof.
  intros s He Hte p s'.
  pose proof (Inv_reachable inputs) as HI. fold s in HI.
  destruct (reachable_invariants inputs) as (_ & [Hb Hids] & _). fold s in Hb, Hids.
  assert (HI' : Inv s') by by apply Inv_timerFired.
  destruct (inv_pending_timer _ HI _ _ He) as (h0 & Hh0 & Hh).
  assert (h0 = h) as -> by congruence. fold p in Hh.
  destruct (inv_timer_unsettled _ HI _ _ _ Hh) as [Hp Hnone].
  assert (Htr : trace s' = (trace s ++ [Settled p (Rejected "mcp-timeout")])%list).
  { unfold s', timerFired. by rewrite Hh. }
  assert (Hpend : pending s' !! id = None).
  { unfold s', timerFired. rewrite Hh. simpl. apply lookup_delete_eq. }
  assert (Hnext : nextId s' = nextId s).
  { unfold s', timerFired. by rewrite Hh. }
  split_and!; try done.
  - by apply fates_nil_outcomes.
  - unfold s', timerFired. rewrite Hh. simpl. apply lookup_delete_eq.
  - intros later. apply outcome_final; [done|].
    rewrite Htr, outcomes_app, (fates_nil_outcomes _ _ Hnone). simpl.
    by rewrite bool_decide_eq_true_2.
  - intros Hlt later data Hty Hid.
    destruct (Hids _ _ He) as (n & -> & [Hn|Hn]); [|lia].
    unfold handleMessage. rewrite Hty, Hid.
    rewrite (retired_run later s' n); [done| | |done]; rewrite Hnext; lia.
  - intros later q t.
    assert (Ht : Inv t) by by apply Inv_run.
    split; [by apply outcomes_once|]. intros Hq. by apply settled_once_or_armed.
Qed.

End BridgeFurther.

(* ===================================================================== *)
(** ** Further properties of the plan executor                            *)
(* ===================================================================== *)

Section ExecutorFurther.
Import JS Exec ExecFacts.

Context {W : Type} (B : Backends W).

(** *** Steps that are not tool calls *)

Lemma stepBody_primitive tabContext tabId index step st :
  is_primitive step = true →
  stepBody B tabContext tabId index step st =
  awaitHandleAction B
    (VObj (<["tabId" := tabId]> (<["type" := get step "type"]>
             (spread (mergedParamsOf step))))) st.
Proof.
  unfold is_primitive, stepBody. intros [H1 H2]%andb_true_iff.
  apply negb_true_iff in H1, H2. by rewrite H1, H2.
Qed.

Lemma loop_primitive tabContext tabId plan : ∀ index results st,
  forallb is_primitive plan = true →
  let rs := (loop B tabContext tabId index plan results st).1 in
  ∃ rs', rs = (results ++ rs')%list ∧ length rs' = length plan ∧
         forallb success rs' = true.
Proof.
  induction plan as [|step rest IH]; intros index results st Hp.
  - exists []. by rewrite app_nil_r.
  - simpl in Hp. apply andb_true_iff in Hp as [Hs Hp]. cbn [loop].
    rewrite stepBody_primitive by done. unfold awaitHandleAction. cbn [fst snd].
    destruct (handleAction B _ st.1) as [r w].
    match goal with
    | |- context [loop B tabContext tabId (S index) rest ?res ?st'] =>
        destruct (IH (S index) res st' Hp) as (rs' & Heq & Hlen & Hall)
    end.
    exists (succeeded r :: rs'). cbv zeta in *. rewrite Heq.
    rewrite <- app_assoc. split_and!; [done|simpl; lia|done].
Qed.

(** X14. Steps that are not tool calls cannot fail.  A plan made of steps
    other than [CALL_TOOL] (none of them [null]) always runs to its end: there
    is one result per step and every result says [success: true], whatever
    the local backend answered, an answer [{success: false, ...}] included. *)
Theorem executor_primitive_plan_runs_to_end plan tabId w :
  forallb is_primitive plan = true →
  let rs := (executePlan B plan tabId w).1 in
  length rs = length plan ∧ forallb success rs = true.
Proof.
  intros Hp. destruct (loop_primitive (queryActiveTab B w) tabId plan 0 [] (w, []) Hp)
    as (rs' & Heq & Hlen & Hall).
  unfold executePlan. cbv zeta in *. by rewrite Heq.
Qed.



(** *** What a step writes to the log *)

Lemma only_ret {A} P (a : A) : appendsOnly P (@ret W A a).
Proof. intros st. exists []. by rewrite app_nil_r. Qed.

Lemma only_throw {A} P msg : appendsOnly P (@throw W A msg).
Proof. intros st. exists []. by rewrite app_nil_r. Qed.

Lemma only_liftE {A} P (r : string + A) : appendsOnly P (@liftE W A r).
Proof. destruct r; [apply only_throw|apply only_ret]. Qed.

Lemma only_bind {A C} P (m : @M W A) (k : A → @M W C) :
  appendsOnly P m → (∀ a, appendsOnly P (k a)) → appendsOnly P (bind m k).
Proof.
  intros Hm Hk st. unfold bind. destruct (Hm st) as (e1 & H1 & Q1).
  destruct (m st) as [[e|a] st1]; simpl in *; [by exists e1|].
  destruct (Hk a st1) as (e2 & H2 & Q2). exists (e1 ++ e2)%list.
  rewrite H2, H1, app_assoc, forallb_app, Q1, Q2. done.
Qed.

Lemma only_notify (P : Notice → bool) n : P n = true → appendsOnly P (@notifyPopup W n).
Proof. intros Hn st. exists [n]. simpl. by rewrite Hn. Qed.

Lemma only_handleAction P action : appendsOnly P (awaitHandleAction B action).
Proof.
  intros st. exists []. unfold awaitHandleAction.
  destruct (handleAction B action st.1). by rewrite app_nil_r.
Qed.

Lemma only_callTool P name args : appendsOnly P (awaitCallTool B name args).
Proof.
  intros st. exists []. unfold awaitCallTool.
  destruct (callTool B name args st.1). by rewrite app_nil_r.
Qed.

Lemma only_bridgeConnected P : appendsOnly P (bridgeConnected B).
Proof. intros st. exists []. by rewrite app_nil_r. Qed.

Lemma only_pages P activeTabId : appendsOnly P (buildLocalPagesSummary B activeTabId).
Proof.
  intros st. exists []. unfold buildLocalPagesSummary.
  destruct (queryTabs B st.1); by rewrite app_nil_r.
Qed.

Ltac log_only :=
  repeat first
    [ apply only_ret | apply only_throw | apply only_liftE
    | apply only_handleAction | apply only_callTool | apply only_bridgeConnected
    | apply only_pages | apply only_notify; reflexivity
    | apply only_bind; [|intros ?]
    | match goal with
      | |- appendsOnly _ (if ?c then _ else _) => destruct c
      | |- appendsOnly _ (match ?x with Some _ => _ | None => _ end) => destruct x
      end ].

Lemma only_dispatch P tabContext tabId index step mergedParams name args :
  (∀ msg i s, P (WarnBlocked msg i s) = true) →
  appendsOnly P (dispatch B tabContext tabId index step mergedParams name args).
Proof.
  intros HP. unfold dispatch, forwardToBridge. cbv zeta.
  repeat first
    [ apply only_ret | apply only_throw | apply only_liftE
    | apply only_handleAction | apply only_callTool | apply only_bridgeConnected
    | apply only_pages | apply only_notify; apply HP
    | apply only_bind; [|intros ?]
    | match goal with
      | |- appendsOnly _ (if ?c then _ else _) => destruct c
      | |- appendsOnly _ (match ?x with Some _ => _ | None => _ end) => destruct x
      end ].
Qed.

Lemma only_stepBody tabContext tabId index step :
  appendsOnly (fun n => negb (is_progress n)) (stepBody B tabContext tabId index step).
Proof.
  unfold stepBody, callToolBody, checkToolResult. cbv zeta. log_only.
  by apply only_dispatch.
Qed.

Lemma progressOf_app (a b : list Notice) :
  progressOf (a ++ b) = (progressOf a ++ progressOf b)%list.
Proof. unfold progressOf. apply List.filter_app. Qed.

Lemma progressOf_none (es : list Notice) :
  forallb (fun n => negb (is_progress n)) es = true → progressOf es = [].
Proof.
  induction es as [|e es IH]; [done|]. simpl.
  intros [He Hes]%andb_true_iff. apply negb_true_iff in He.
  unfold progressOf in *. simpl. rewrite He. auto.
Qed.

Lemma loop_progress tabContext tabId plan : ∀ index results st,
  let out := loop B tabContext tabId index plan results st in
  ∃ rs, out.1 = (results ++ rs)%list ∧
        progressOf out.2.2 = (progressOf st.2 ++ progressFor index plan rs)%list.
Proof.
  induction plan as [|step rest IH]; intros index results st.
  - exists []. simpl. by rewrite !app_nil_r.
  - cbn [loop]. cbv zeta.
    destruct (only_stepBody tabContext tabId index step
                (st.1, (st.2 ++ [Running index step])%list)) as (extra & Hlog & Hq).
    destruct (stepBody B tabContext tabId index step
                (st.1, (st.2 ++ [Running index step])%list)) as [[msg|r] st'].
    + exists [failed msg]. split; [done|]. simpl in *.
      rewrite Hlog, !progressOf_app, (progressOf_none _ Hq).
      rewrite app_nil_r, <- app_assoc. done.
    + match goal with
      | |- context [loop B tabContext tabId (S index) rest ?res ?st''] =>
          destruct (IH (S index) res st'') as (rs & Heq & Hpr)
      end.
      exists (succeeded r :: rs). cbv zeta in *. rewrite Heq, Hpr. simpl in Hlog.
      cbn [fst snd]. rewrite Hlog, !progressOf_app, (progressOf_none _ Hq).
      rewrite app_nil_r, <- !app_assoc. done.
Qed.

(** X16. Progress notices.  The progress notices of a run are, for each result
    in turn, one [running] notice for its step followed by one [completed]
    notice carrying the recorded result or one [failed] notice carrying the
    recorded error; there are no others, and none for the steps that were not
    attempted.  The [running] notice carries the step as the plan has it, the
    [completed] or [failed] notice the step as the [try] block left it: with
    the url written into its argument bag, when the normalisation did so
    ([progressFor], [afterNormalize]). *)
Theorem executor_progress_notices plan tabId w :
  let out := executePlan B plan tabId w in
  progressOf out.2.2 = progressFor 0 plan out.1.
Proof.
  unfold executePlan.
  destruct (loop_progress (queryActiveTab B w) tabId plan 0 [] (w, []))
    as (rs & Heq & Hpr).
  cbv zeta in *. by rewrite Hpr, Heq.
Qed.

Lemma only_bind_chosen {A C} P (a : A) (k : A → @M W C) :
  appendsOnly P (k a) → appendsOnly P (bind (liftE (inr a)) k).
Proof. intros H st. unfold bind, liftE, ret. cbn [fst snd]. apply H. Qed.

(** An inferred call has a bag of its own: the step is left as it is. *)
Lemma afterNormalize_inferred step n bag i :
  chooseTool step (mergedParamsOf step) = inr (n, bag, Some i) →
  afterNormalize step = step.
Proof. intros H. unfold afterNormalize. rewrite H. by destruct (_ || _). Qed.

(** X17. A guessed tool is announced.  When a [CALL_TOOL] step names no tool
    and one is inferred, the first thing the step writes to the log is the
    warning that names the inferred tool and carries the step, followed by
    the resolved call; when the step names its tool, no such warning is
    written. *)
Theorem executor_inference_is_announced tabContext tabId index step st :
  str_is (get step "type") "CALL_TOOL" = true →
  let mp := mergedParamsOf step in
  let log := (stepBody B tabContext tabId index step st).2.2 in
  (∀ n a, truthy (toolNameOf step mp) = false → infer mp = Some (n, a) →
     ∃ args rest,
       log = (st.2 ++ WarnInferred n step :: DebugResolved index step (VStr n) args :: rest)%list) ∧
  (truthy (toolNameOf step mp) = true →
     ∃ extra, log = (st.2 ++ extra)%list ∧
              forallb (fun n => negb (is_warnInferred n)) extra = true).
Proof.
  intros Ht mp log. unfold log. rewrite stepBody_call_tool by done. fold mp. split.
  - intros n a Hn Hi.
    destruct (normalizeArgs_nonempty_object step mp a (infer_nonempty _ _ _ Hi))
      as (a' & Hnorm & _).
    assert (Hc : chooseTool step mp = inr (VStr n, VObj a, Some n)).
    { unfold chooseTool. by rewrite Hn, Hi. }
    assert (Hr : resolve step = inr {| toolName := VStr n; arguments := VObj a';
                                       inferred := Some n |}).
    { unfold resolve. fold mp. rewrite Hc, Hnorm.
      unfold js_or. by destruct (truthy (VStr n)). }
    unfold mp. rewrite (callToolBody_resolved _ _ _ _ _ _ _ Hr). cbv zeta.
    rewrite (afterNormalize_inferred step _ _ _ Hc).
    cbn [inferred toolName arguments].
    pose proof (only_bind (fun _ => true) _ checkToolResult
                  (only_dispatch (fun _ => true) tabContext tabId index step mp
                     (VStr n) (VObj a') (fun _ _ _ => eq_refl))) as Hq.
    destruct (Hq (fun a0 => ltac:(unfold checkToolResult; log_only))
                (st.1, (st.2 ++ [WarnInferred n step]
                          ++ [DebugResolved index step (VStr n) (VObj a')])%list))
      as (extra & Hlog & _).
    exists (VObj a'), extra. fold mp. rewrite Hlog. cbn [snd].
    by rewrite <- !app_assoc.
  - intros Hn.
    assert (Hq : appendsOnly (fun n => negb (is_warnInferred n))
                   (callToolBody B tabContext tabId index step mp)); [|apply Hq].
    unfold callToolBody, chooseTool. rewrite Hn.
    apply only_bind_chosen. cbn [fst snd].
    unfold checkToolResult. log_only. by apply only_dispatch.
Qed.


(** *** Which tab, and when the bridge *)

Lemma action_tabId_navigate url tabId : get (navigateAction url tabId) "tabId" = tabId.
Proof. unfold navigateAction, get. by rewrite lookup_insert_eq. Qed.
Lemma action_tabId_click sel tabId : get (clickAction sel tabId) "tabId" = tabId.
Proof. unfold clickAction, get. by rewrite lookup_insert_eq. Qed.
Lemma action_tabId_fill sel v tabId : get (fillAction sel v tabId) "tabId" = tabId.
Proof. unfold fillAction, get. by rewrite lookup_insert_eq. Qed.
Lemma action_tabId_evaluate code tabId : get (evaluateAction code tabId) "tabId" = tabId.
Proof. unfold evaluateAction, get. by rewrite lookup_insert_eq. Qed.

Lemma awaitHandleAction_agree f tabId action st :
  (∀ a w, get a "tabId" = tabId → f a w = handleAction B a w) →
  get action "tabId" = tabId →
  awaitHandleAction (withHandleAction f B) action st = awaitHandleAction B action st.
Proof. intros Hf Ha. unfold awaitHandleAction. simpl. by rewrite Hf. Qed.

Lemma dispatch_withHandleAction f tabContext tabId index step mp name args st :
  (∀ a w, get a "tabId" = tabId → f a w = handleAction B a w) →
  dispatch (withHandleAction f B) tabContext tabId index step mp name args st =
  dispatch B tabContext tabId index step mp name args st.
Proof.
  intros Hf.
  pose proof (fun a => awaitHandleAction_agree f tabId a st Hf) as Ha.
  unfold dispatch, forwardToBridge. cbv zeta.
  repeat match goal with
         | |- context [if ?c then _ else _] => destruct c
         end; try reflexivity;
    first [ apply Ha; first [apply action_tabId_navigate | apply action_tabId_click
                            | apply action_tabId_fill | apply action_tabId_evaluate]
          | unfold bind, notifyPopup, bridgeConnected, throw; simpl;
            repeat match goal with
                   | |- context [if ?c then _ else _] => destruct c
                   end; reflexivity ].
Qed.

Lemma stepBody_withHandleAction f tabContext tabId index step st :
  (∀ a w, get a "tabId" = tabId → f a w = handleAction B a w) →
  stepBody (withHandleAction f B) tabContext tabId index step st =
  stepBody B tabContext tabId index step st.
Proof.
  intros Hf. unfold stepBody. cbv zeta.
  destruct (nullish step); [done|].
  destruct (str_is (get step "type") "CALL_TOOL").
  - unfold callToolBody, bind.
    destruct (liftE (chooseTool step (mergedParamsOf step)) st) as [[e|chosen] st1]; [done|].
    destruct (match chosen.2 with
              | Some n => notifyPopup (WarnInferred n step)
              | None => ret ()
              end st1) as [[e|[]] st2]; [done|].
    destruct (liftE (normalizeArgs step (mergedParamsOf step) chosen.1.2) st2)
      as [[e|toolArgs] st3]; [done|].
    destruct (notifyPopup (DebugResolved index (afterNormalize step) chosen.1.1 toolArgs) st3)
      as [[e|[]] st4]; [done|].
    destruct ((if String_throws (chosen.1.1 ||| VStr "")%js then throw cannot_convert
               else ret ()) st4) as [[e|[]] st5]; [done|].
    by rewrite dispatch_withHandleAction.
  - apply (awaitHandleAction_agree f tabId); [done|]. unfold get. by rewrite lookup_insert_eq.
Qed.

(** X18. The executor acts on the tab it was given, and on no other.  Every
    action it hands to the local backend carries that tab as [tabId],
    whatever the plan says: a local backend that answers differently for
    actions on other tabs makes no difference to a run. *)
Theorem executor_acts_on_given_tab_only f plan tabId w :
  (∀ a w', get a "tabId" = tabId → f a w' = handleAction B a w') →
  executePlan (withHandleAction f B) plan tabId w = executePlan B plan tabId w.
Proof.
  intros Hf. unfold executePlan.
  change (queryActiveTab (withHandleAction f B) w) with (queryActiveTab B w).
  generalize (queryActiveTab B w) 0%nat (@nil ExecutionResult) (w, @nil Notice).
  induction plan as [|step rest IH]; intros tc index results st; [done|].
  cbn [loop]. rewrite stepBody_withHandleAction by done.
  destruct (stepBody B tc tabId index step _) as [[msg|r] st']; [done|]. apply IH.
Qed.


Lemma pages_not_extension s :
  startsWith s "pages_" = true → startsWith s "extension_" = false.
Proof.
  unfold startsWith. destruct s as [|c s]; [done|].
  cbn [String.prefix]. destruct (ascii_dec "p" c) as [<-|]; [|done].
  intros _. by destruct (ascii_dec "e" "p").
Qed.

Lemma forwardToBridge_agree g name args st :
  (∀ n a w, isConnected B w = true → isLocalName (lnameOf n) = false →
            g n a w = callTool B n a w) →
  isLocalName (lnameOf name) = false →
  forwardToBridge (withCallTool g B) name args st = forwardToBridge B name args st.
Proof.
  intros Hg Hn. unfold forwardToBridge, bind, bridgeConnected, awaitCallTool. simpl.
  destruct (isConnected B st.1) eqn:Hc; [|done]. simpl. by rewrite Hg.
Qed.

Lemma dispatch_withCallTool g tabContext tabId index step mp name args st :
  (∀ n a w, isConnected B w = true → isLocalName (lnameOf n) = false →
            g n a w = callTool B n a w) →
  dispatch (withCallTool g B) tabContext tabId index step mp name args st =
  dispatch B tabContext tabId index step mp name args st.
Proof.
  intros Hg. unfold dispatch. cbv zeta.
  pose proof (forwardToBridge_agree g name args st Hg) as Hfwd.
  unfold isLocalName in Hfwd.
  pose proof (pages_not_extension (lnameOf name)) as Hpe.
  set (lname := lnameOf name) in *. clearbody lname.
  destruct (startsWith lname "pages_" || String.eqb lname "new_page" ||
            String.eqb lname "navigate_page" || String.eqb lname "list_pages" ||
            String.eqb lname "select_page") eqn:Hpages.
  - destruct (String.eqb lname "new_page") eqn:Hnew.
    { destruct (negb (truthy _)); [done|].
      destruct (truthy _ || truthy _); [|done].
      unfold bind, bridgeConnected, awaitCallTool. simpl.
      destruct (isConnected B st.1) eqn:Hc; [|done]. simpl. by rewrite Hg. }
    destruct (String.eqb lname "navigate_page" || String.eqb lname "pages_navigate" ||
              String.eqb lname "pages_navigate_page") eqn:Hnav; [done|].
    destruct (String.eqb lname "list_pages") eqn:Hlist; [done|].
    destruct (String.eqb lname "select_page" || String.eqb lname "extension_select_page")
      eqn:Hsel; [done|].
    apply Hfwd.
    repeat match goal with
           | H : (_ || _) = false |- _ => apply orb_false_iff in H; destruct H
           end.
    repeat match goal with
           | H : String.eqb lname _ = false |- _ => rewrite H in *; clear H
           end.
    rewrite !orb_false_r in Hpages. by rewrite (Hpe Hpages).
  - repeat match goal with
           | H : (_ || _) = false |- _ => apply orb_false_iff in H; destruct H
           end.
    assert (String.eqb lname "pages_navigate" = false) as Hpn.
    { destruct (String.eqb_spec lname "pages_navigate") as [E|]; [|done].
      rewrite E in *. discriminate. }
    assert (String.eqb lname "pages_navigate_page" = false) as Hpnp.
    { destruct (String.eqb_spec lname "pages_navigate_page") as [E|]; [|done].
      rewrite E in *. discriminate. }
    repeat match goal with
           | H : String.eqb lname _ = false |- _ => rewrite H in *; clear H
           end.
    destruct (startsWith lname "extension_") eqn:Hext.
    + destruct (includes lname "click" && truthy _); [done|].
      destruct (includes lname "fill" && truthy _); [done|].
      destruct (includes lname "evaluate" && truthy _); [done|].
      destruct (includes lname "select_page") eqn:Hinc; [done|].
      by apply Hfwd.
    + by apply Hfwd.
Qed.

(** X19. Navigation, page listing and page selection never reach the bridge.
    Whatever the plan, the executor calls the bridge only while it reports
    connected and only for tools other than [navigate_page],
    [pages_navigate], [pages_navigate_page], [list_pages], [select_page] and
    the [extension_] tools that name [select_page]: a bridge that answers
    differently for those, or while disconnected, makes no difference to a
    run. *)
Theorem executor_local_tools_never_reach_bridge g plan tabId w :
  (∀ n a w', isConnected B w' = true → isLocalName (lnameOf n) = false →
             g n a w' = callTool B n a w') →
  executePlan (withCallTool g B) plan tabId w = executePlan B plan tabId w.
Proof.
  intros Hg. unfold executePlan.
  change (queryActiveTab (withCallTool g B) w) with (queryActiveTab B w).
  generalize (queryActiveTab B w) 0%nat (@nil ExecutionResult) (w, @nil Notice).
  induction plan as [|step rest IH]; intros tc index results st; [done|].
  cbn [loop].
  assert (∀ st0, stepBody (withCallTool g B) tc tabId index step st0 =
                 stepBody B tc tabId index step st0) as ->.
  { intros st0. unfold stepBody. cbv zeta.
    destruct (nullish step); [done|].
    destruct (str_is (get step "type") "CALL_TOOL"); [|done].
    unfold callToolBody, bind.
    destruct (liftE (chooseTool step (mergedParamsOf step)) st0) as [[e|chosen] st1]; [done|].
    destruct (match chosen.2 with
              | Some n => notifyPopup (WarnInferred n step)
              | None => ret ()
              end st1) as [[e|[]] st2]; [done|].
    destruct (liftE (normalizeArgs step (mergedParamsOf step) chosen.1.2) st2)
      as [[e|toolArgs] st3]; [done|].
    destruct (notifyPopup (DebugResolved index (afterNormalize step) chosen.1.1 toolArgs) st3)
      as [[e|[]] st4]; [done|].
    destruct ((if String_throws (chosen.1.1 ||| VStr "")%js then throw cannot_convert
               else ret ()) st4) as [[e|[]] st5]; [done|].
    by rewrite dispatch_withCallTool. }
  destruct (stepBody B tc tabId index step _) as [[msg|r] st']; [done|]. apply IH.
Qed.

(** *** What a result says about its step *)

(** A property of each step and its result holds of a whole run when the
    [try] block establishes it for the steps that return and it holds of
    every failure. *)
Lemma loop_pointwise (P : Value → ExecutionResult → Prop) tabContext tabId :
  (∀ index step st r st',
     stepBody B tabContext tabId index step st = (inr r, st') → P step (succeeded r)) →
  (∀ step msg, P step (failed msg)) →
  ∀ plan index results st, ∃ rs,
    (loop B tabContext tabId index plan results st).1 = (results ++ rs)%list ∧
    ∀ i step r, plan !! i = Some step → rs !! i = Some r → P step r.
Proof.
  intros Hok Hfail. induction plan as [|step rest IH]; intros index results st.
  - exists []. simpl. by rewrite app_nil_r.
  - cbn [loop].
    destruct (stepBody B tabContext tabId index step _) as [[msg|r] st'] eqn:Hb.
    + exists [failed msg]. split; [done|].
      intros [|i] step' r' Hs Hr; simplify_eq/=. apply Hfail.
    + destruct (IH (S index) (results ++ [succeeded r])%list
                  (st'.1, (st'.2 ++ [Completed index (afterNormalize step) r])%list)) as (rs & Heq & Hrs).
      exists (succeeded r :: rs). split; [by rewrite Heq, <- app_assoc|].
      intros [|i] step' r' Hs Hr; simplify_eq/=; [by eapply Hok|by eapply Hrs].
Qed.

Lemma checkToolResult_returns (actionResult r : Value) (st st' : W * list Notice) :
  checkToolResult actionResult st = (inr r, st') →
  r = actionResult ∧
  (truthy r = true → truthy (get r "isError") = false ∧ is_false (get r "success") = false).
Proof.
  unfold checkToolResult.
  destruct (truthy actionResult) eqn:Ht; simpl.
  - destruct (truthy (get actionResult "isError")) eqn:He; simpl; [done|].
    destruct (is_false (get actionResult "success")) eqn:Hs; simpl; [done|].
    unfold ret. intros [= <- <-]. done.
  - unfold ret. intros [= <- <-]. split; [done|]. congruence.
Qed.

(** X20. A [CALL_TOOL] step is never reported successful with an answer that
    reports an error.  In every run, the result of a [CALL_TOOL] step that
    is marked [success] carries an answer that is falsy, or has neither a
    truthy [isError] nor [success: false]. *)
Theorem executor_tool_answer_is_checked plan tabId w i step r v :
  plan !! i = Some step →
  (executePlan B plan tabId w).1 !! i = Some r →
  str_is (get step "type") "CALL_TOOL" = true →
  success r = true →
  result r = Some v →
  truthy v = true →
  truthy (get v "isError") = false ∧ is_false (get v "success") = false.
Proof.
  intros Hs Hr Ht Hok Hv Hv'.
  destruct (loop_pointwise
              (λ step r, str_is (get step "type") "CALL_TOOL" = true → success r = true →
                 ∀ v, result r = Some v → truthy v = true →
                 truthy (get v "isError") = false ∧ is_false (get v "success") = false)
              (queryActiveTab B w) tabId) with plan 0%nat (@nil ExecutionResult) (w, @nil Notice)
    as (rs & Heq & Hrs).
  - clear. intros index step st r st' Hb Ht _ v [= <-] Hv.
    unfold stepBody in Hb. cbv zeta in Hb.
    destruct (nullish step); [done|]. rewrite Ht in Hb.
    unfold callToolBody in Hb. cbv zeta in Hb. unfold bind in Hb.
    repeat match type of Hb with
           | (match ?m with _ => _ end) = _ => destruct m as [[?|?] ?]; [done|]
           end.
    apply checkToolResult_returns in Hb as [_ Hb]. by apply Hb.
  - done.
  - unfold executePlan in Hr. rewrite Heq in Hr. by eapply Hrs.
Qed.

(** *** Tools served in the browser *)

Lemma stepBody_resolved tabContext tabId index step rc st :
  str_is (get step "type") "CALL_TOOL" = true →
  resolve step = inr rc →
  let step' := afterNormalize step in
  stepBody B tabContext tabId index step st =
  bind (dispatch B tabContext tabId index step' (mergedParamsOf step')
          (toolName rc) (arguments rc))
       (checkToolResult)
       (st.1, st.2 ++ match inferred rc with
                      | Some n => [WarnInferred n step]
                      | None => []
                      end
                   ++ [DebugResolved index step' (toolName rc) (arguments rc)])%list.
Proof.
  intros Ht Hr. rewrite stepBody_call_tool by done. by apply callToolBody_resolved.
Qed.

(** X21. [list_pages] always succeeds, whatever the state of the bridge.
    A [CALL_TOOL] step that resolves to [list_pages] returns one text part
    made in the worker; the bridge and the local backend are not called and
    the world is as before. *)
Theorem executor_list_pages_always_succeeds tabContext tabId index step rc st :
  str_is (get step "type") "CALL_TOOL" = true →
  resolve step = inr rc →
  lnameOf (toolName rc) = "list_pages" →
  ∃ text log,
    stepBody B tabContext tabId index step st =
      (inr (VObj {["content" :=
                   VArr [VObj (<["text" := VStr text]> {["type" := VStr "text"]})] ∅]}),
       (st.1, log)).
Proof.
  intros Ht Hr Hl. rewrite (stepBody_resolved _ _ _ _ _ _ Ht Hr).
  unfold bind, dispatch. rewrite Hl. cbv zeta.
  change (startsWith "list_pages" "pages_" || String.eqb "list_pages" "new_page" ||
          String.eqb "list_pages" "navigate_page" || String.eqb "list_pages" "list_pages" ||
          String.eqb "list_pages" "select_page") with true.
  change (String.eqb "list_pages" "new_page") with false.
  change (String.eqb "list_pages" "navigate_page" || String.eqb "list_pages" "pages_navigate" ||
          String.eqb "list_pages" "pages_navigate_page") with false.
  change (String.eqb "list_pages" "list_pages") with true. cbv iota.
  unfold bind, buildLocalPagesSummary. cbn [fst snd].
  destruct (queryTabs B st.1); cbn [fst snd]; eauto.
Qed.




End ExecutorFurther.

(* ===================================================================== *)
(** ** Properties of the local action backend                             *)
(* ===================================================================== *)

Section ClientProperties.
Import JS Client.

Context {C : Type} (Ch : Chrome C).

Lemma waitForTabLoad_without_tab tabId c :
  typeof_number tabId = false → waitForTabLoad Ch tabId c = (inr (), c).
Proof. by destruct tabId. Qed.

Lemma sendContentAction_without_tab tabId action c :
  typeof_number tabId = false →
  sendContentAction Ch tabId action c = (inl "tab-id-required", c).
Proof. by destruct tabId. Qed.

Lemma attempt_without_tab action c :
  isContentAction (get action "type") = true →
  typeof_number (get action "tabId") = false →
  attempt Ch action c = (inl "tab-id-required", c).
Proof.
  intros Ht Hn. unfold attempt.
  assert (nullish action = false) as -> by by destruct action.
  cbv zeta. unfold isContentAction in Ht.
  destruct (get action "type") as [| | | |s| |]; try done. simpl in Ht |- *.
  destruct (String.eqb_spec s "NAVIGATE") as [->|_]; [done|].
  unfold andThen.
  repeat match goal with
         | |- context [String.eqb s ?lit] =>
             destruct (String.eqb s lit);
             [by rewrite waitForTabLoad_without_tab, sendContentAction_without_tab by done|]
         end.
  done.
Qed.

(** X24. Clicking, filling and evaluating need a numeric tab id.  Without
    one, [handleAction] answers [{success: false, error: 'tab-id-required'}]
    for a [CLICK], [FILL] or [EVALUATE_SCRIPT] action and makes no call to
    the browser, the wait for the tab included. *)
Theorem client_content_action_requires_tab action c :
  isContentAction (get action "type") = true →
  typeof_number (get action "tabId") = false →
  handleAction Ch action c = (failure "tab-id-required", c).
Proof.
  intros Ht Hn. unfold handleAction.
  rewrite attempt_without_tab by done.
  reflexivity.
Qed.

(** X25. A navigation is reported by the update alone.  The answer of
    [handleAction] to a [NAVIGATE] action is [{success: true}] as soon as
    [chrome.tabs.update] succeeds, whether or not the page finishes loading
    before the timeout, and the failure of the update otherwise; the tab
    updated is the action's [tabId] when it is a number and the active tab
    when it is not. *)
Theorem client_navigate_reports_update_only action c :
  str_is (get action "type") "NAVIGATE" = true →
  let target := match get action "tabId" with VNum n => Some n | _ => None end in
  (handleAction Ch action c).1 =
    match (tabsUpdate Ch target (VObj {["url" := get action "url"]}) c).1 with
    | inr _ => succeededWith ∅
    | inl msg => failure (errorText msg)
    end.
Proof.
  intros Ht target. unfold handleAction, attempt.
  assert (nullish action = false) as -> by by destruct action.
  cbv zeta. rewrite Ht. unfold andThen. fold target.
  by destruct (tabsUpdate Ch target _ c) as [[msg|tab] c1].
Qed.

(** X26. [handleAction] reads seven fields of an action and nothing else: two
    actions that agree on [type], [tabId], [url], [selector], [value], [code]
    and [windowId] get the same answer and have the same effect on the
    browser.  In particular nothing else of a plan step's params reaches the
    page. *)
Theorem client_ignores_other_fields a a' c :
  nullish a = false → nullish a' = false →
  (∀ k, k ∈ actionFields → get a k = get a' k) →
  handleAction Ch a c = handleAction Ch a' c.
Proof.
  intros Ha Ha' Hk. unfold handleAction, attempt. rewrite Ha, Ha'. cbv zeta.
  rewrite (Hk "type"), (Hk "tabId"), (Hk "url"), (Hk "selector"), (Hk "value"),
    (Hk "code"), (Hk "windowId") by (unfold actionFields; set_solver).
  done.
Qed.

(** X27. A plan of clicks without a tab.  When the executor runs over this
    backend with a tab id that is not a number (no active tab was found),
    every [CLICK], [FILL] or [EVALUATE_SCRIPT] step that is not a tool call
    is answered [tab-id-required] without any call to the browser, and is
    nevertheless reported as a success: the plan runs to its end with one
    successful result per step. *)
Theorem executor_content_steps_without_tab (B : Exec.Backends C) plan tabId c :
  typeof_number tabId = false →
  forallb (λ step, ExecFacts.is_primitive step && isContentAction (get step "type")) plan
    = true →
  let out := Exec.executePlan (backends Ch B) plan tabId c in
  out.1 = (λ _, Exec.succeeded (failure "tab-id-required")) <$> plan ∧ out.2.1 = c.
Proof.
  intros Hn Hp. unfold Exec.executePlan.
  generalize (Exec.queryActiveTab (backends Ch B) c).
  intros tc.
  assert (∀ index results st,
    let out := Exec.loop (backends Ch B) tc tabId index plan results st in
    out.1 = (results ++ ((λ _, Exec.succeeded (failure "tab-id-required")) <$> plan))%list ∧
    out.2.1 = st.1) as Hloop.
  { induction plan as [|step rest IH]; intros index results st.
    - simpl. by rewrite app_nil_r.
    - simpl in Hp. apply andb_true_iff in Hp as [[Hs Hc]%andb_true_iff Hp].
      cbn [Exec.loop]. unfold Exec.stepBody. cbv zeta.
      unfold ExecFacts.is_primitive in Hs.
      apply andb_true_iff in Hs as [H1%negb_true_iff H2%negb_true_iff].
      rewrite H1, H2. unfold Exec.awaitHandleAction. cbn [fst snd].
      change (Exec.handleAction (backends Ch B)) with (handleAction Ch).
      unfold handleAction. rewrite attempt_without_tab.
      + specialize (IH Hp (S index)
                      (results ++ [Exec.succeeded (failure "tab-id-required")])%list
                      (st.1, ((st.2 ++ [Exec.Running index step]) ++
                              [Exec.Completed index (Exec.afterNormalize step)
                                 (failure "tab-id-required")])%list)).
        cbv zeta in IH |- *. destruct IH as [E1 E2]. split; [|exact E2].
        etrans; [exact E1|]. by rewrite <- app_assoc.
      + unfold get at 1. rewrite lookup_insert_ne by done. by rewrite lookup_insert_eq.
      + unfold get at 1. by rewrite lookup_insert_eq. }
  destruct (Hloop 0%nat [] (c, [])) as [E1 E2]. done.
Qed.

End ClientProperties.

(* ===================================================================== *)
(** ** Properties of the plan handler and of the step labels              *)
(* ===================================================================== *)

Section WorkerProperties.
Import JS Exec Worker Popup.

Context {W : Type} (B : Backends W).

Lemma loop_nonempty tabContext tabId index step rest results st :
  (length results + 1 ≤
   length (loop B tabContext tabId index (step :: rest) results st).1 ≤
   length results + length (step :: rest))%nat.
Proof.
  destruct (loop_spec B tabContext tabId (step :: rest) index results st)
    as (rs & Heq & Hlen & _ & Hshort & _).
  rewrite Heq, length_app. split; [|lia].
  destruct rs as [|r rs]; [|simpl; lia].
  destruct Hshort as (r & Hl & _); [simpl; lia|done].
Qed.

(** X28. The plan handler refuses what is not a non-empty array, and answers
    every other request.  [handleExecutePlan] throws [empty-plan], with
    nothing done, unless [payload.plan] is a non-empty array; for a
    non-empty array it never throws, and its [execution] has at least one
    result and at most one per step.  The tab is [payload.tabId] when that is
    a number, and the active tab otherwise. *)
Theorem worker_execute_plan_handler payload w :
  let p := js_or payload (VObj ∅) in
  match get p "plan" with
  | VArr (step :: rest) props =>
      let tabId := if typeof_number (get p "tabId") then get p "tabId"
                   else getActiveTabId B w in
      handleExecutePlan B payload w =
        (inr (executePlan B (step :: rest) tabId w).1,
         (executePlan B (step :: rest) tabId w).2) ∧
      (1 ≤ length (executePlan B (step :: rest) tabId w).1 ≤ length (step :: rest))%nat
  | _ => handleExecutePlan B payload w = (inl "empty-plan", (w, []))
  end.
Proof.
  intros p. unfold handleExecutePlan. fold p.
  destruct (get p "plan") as [| | | | | |[|step rest] props] eqn:Hplan;
    cbn [is_undef]; try done.
  cbv zeta. split.
  - by destruct (executePlan B (step :: rest) _ w).
  - apply (loop_nonempty _ _ 0 step rest [] (w, [])).
Qed.

(** X29. The label the popup gives a [CALL_TOOL] step names the tool the
    executor runs, as long as the params have no [tool_name].  When the
    label shows a tool (one of [params.tool], [params.toolName],
    [params.name] is truthy) and [params.tool_name] is falsy, the executor
    resolves the step to that very name; when that name has no string, the
    template of the label throws and there is no label.  With a [tool_name]
    the two can differ: the step [{type: 'CALL_TOOL', params: {tool_name:
    'click', name: 'fill'}}] is labelled [CALL_TOOL (fill)] and runs
    [click]. *)
Theorem popup_label_names_the_tool_run step :
  (str_is (get step "type") "CALL_TOOL" = true →
   truthy (describedTool step) = true →
   truthy (get (mergedParamsOf step) "tool_name") = false →
   describePlanStep step =
     (if String_throws (describedTool step) then inl cannot_convert
      else inr (VStr ("CALL_TOOL (" ++ js_String (describedTool step) ++ ")"))) ∧
   toolNameOf step (mergedParamsOf step) = describedTool step) ∧
  describePlanStep twoNamesStep = inr (VStr "CALL_TOOL (fill)") ∧
  toolNameOf twoNamesStep (mergedParamsOf twoNamesStep) = VStr "click".
Proof.
  split; [|by vm_compute].
  intros Ht Hd Hn.
  assert (truthy step = true) as Hs.
  { destruct step as [| | | |s| |]; try done.
    by rewrite get_string_named in Ht by by_name. }
  split.
  - unfold describePlanStep. rewrite Hs, Ht, Hd. cbn [negb].
    destruct (String_throws (describedTool step)); [done|].
    destruct (get step "type") as [| | | |s| |]; try done. simpl in Ht.
    by apply String.eqb_eq in Ht as ->.
  - assert (nullish step = false) as Hnn by by destruct step.
    unfold describedTool in *. unfold mergedParamsOf in *. rewrite Hnn in *.
    destruct (truthy (get step "params") && typeof_object (get step "params")) eqn:Hp.
    + unfold toolNameOf, js_or in *. clear Ht Hs Hnn Hp.
      destruct (truthy (get (get step "params") "tool")) eqn:H1.
      { repeat (rewrite H1; cbv iota). done. }
      destruct (truthy (get (get step "params") "toolName")) eqn:H2.
      { repeat (rewrite H2; cbv iota). done. }
      rewrite Hn. cbv iota.
      destruct (truthy (get (get step "params") "name")) eqn:H3; [|done].
      repeat (rewrite H3; cbv iota). done.
    + exfalso. destruct (get step "params") as [| | | |s| |]; try done.
      revert Hd. unfold js_or.
      rewrite !(get_string_named s) by by_name.
      done.
Qed.

End WorkerProperties.

(* ===================================================================== *)
(** ** The further properties at concrete inputs                          *)
(* ===================================================================== *)

(** After the socket of a bridge with a call in flight closed, timer 1 is the
    reconnect timer. *)
Lemma bridge_single_reconnect_timer_witness :
  Bridge.timers (Bridge.run Bridge.closeWhilePending Bridge.initial) !! 1%nat =
    Some Bridge.Reconnect ∧
  Bridge.reconnectTimer (Bridge.run Bridge.closeWhilePending Bridge.initial) = Some 1%nat.
Proof.
  split; [reflexivity|].
  exact (proj2 (bridge_single_reconnect_timer Bridge.closeWhilePending 1 1
                  eq_refl eq_refl)).
Defined.

(** The url of a bridge pointed at [ws://127.0.0.1:8080] written between a
    no-break space (U+00A0) and an em space (U+2003). *)
Lemma bridge_url_is_trimmed_witness :
  let inputs :=
    [Bridge.DoSetUrl (Some (JS.nbsp ++ "ws://127.0.0.1:8080" ++ JS.em_space)%string) None] in
  Bridge.getUrl (Bridge.run inputs Bridge.initial) = Some "ws://127.0.0.1:8080" ∧
  JS.trim "ws://127.0.0.1:8080" = "ws://127.0.0.1:8080".
Proof.
  split; [reflexivity|].
  exact (proj1 (proj2 (bridge_url_is_trimmed
                         [Bridge.DoSetUrl
                            (Some (JS.nbsp ++ "ws://127.0.0.1:8080" ++ JS.em_space)%string)
                            None]
                         "ws://127.0.0.1:8080" eq_refl))).
Defined.

(** The first call on a connected bridge gets the id [1], which is free. *)
Lemma bridge_request_id_fresh_witness :
  let s := Bridge.run BridgeFacts.connectedIdle Bridge.initial in
  (Bridge.nextId s < 2 ^ 53)%N ∧ Bridge.isConnected s = true ∧
  Bridge.socket s = Some 0%nat ∧
  Bridge.pending s !! pretty (Bridge.nextId s) = None.
Proof.
  split; [reflexivity|]. split; [reflexivity|]. split; [reflexivity|].
  exact (proj1 (bridge_request_id_fresh BridgeFacts.connectedIdle
                  (JS.VStr "list_pages") (JS.VObj ∅) 0 eq_refl eq_refl eq_refl)).
Defined.

(** Listener 0 of a connected bridge was last told the status of the bridge. *)
Lemma bridge_listeners_in_sync_witness :
  let s := Bridge.run BridgeFacts.connectedIdle Bridge.initial in
  0%nat ∈ Bridge.statusListeners s ∧
  last (BridgeFacts.told 0 (Bridge.trace s)) = Some (Bridge.status s).
Proof.
  split; [apply list_elem_of_here|].
  exact (proj1 (bridge_listeners_in_sync BridgeFacts.connectedIdle 0
                  (list_elem_of_here _ _))).
Defined.

(** Listener 0 unsubscribes before the socket closes. *)
Lemma bridge_unsubscribed_listener_is_not_told_witness :
  let s := Bridge.offStatusChange 0 (Bridge.run BridgeFacts.connectedIdle Bridge.initial) in
  forallb (fun i => negb (BridgeFacts.subscribes 0 i)) [Bridge.SocketClose] = true ∧
  BridgeFacts.told 0 (Bridge.trace (Bridge.run [Bridge.SocketClose] s)) =
    BridgeFacts.told 0 (Bridge.trace s).
Proof.
  split; [reflexivity|].
  exact (proj1 (bridge_unsubscribed_listener_is_not_told BridgeFacts.connectedIdle
                  [Bridge.SocketClose] 0 eq_refl)).
Defined.

(** The first call on a connected bridge, answered by [{id: '1', result: 7}],
    by [{id: '1', error: {message: 1e21}}], or by
    [{jsonrpc: '2.0', id: '1', error: {message: {toString: 1}}}]. *)
Lemma bridge_call_response_round_trip_witness :
  let s := Bridge.run BridgeFacts.connectedIdle Bridge.initial in
  let s1 := (Bridge.callTool (JS.VStr "list_pages") (JS.VObj ∅) true None s).2 in
  (Bridge.isConnected s = true ∧ Bridge.socket s = Some 0%nat ∧
   JS.js_String (Bridge.frameId (BridgeFacts.resultFrame "1" (JS.VNum 7))) =
     pretty (Bridge.nextId s)) ∧
  Bridge.outcomes (Bridge.nextPromise s)
    (Bridge.trace (Bridge.handleMessage
                     (Some (BridgeFacts.resultFrame "1" (JS.VNum 7))) s1)) =
    [Bridge.Resolved (JS.VNum 7)] ∧
  Bridge.outcomes (Bridge.nextPromise s)
    (Bridge.trace (Bridge.handleMessage
                     (Some (BridgeFacts.errorFrame "1" (JS.VNum (10 ^ 21)))) s1)) =
    [Bridge.Rejected "1e+21"] ∧
  Bridge.outcomes (Bridge.nextPromise s)
    (Bridge.trace (Bridge.handleMessage (Some Bridge.unprintableErrorFrame) s1)) = [].
Proof.
  split; [by split_and!|].
  split.
  { exact (proj1 (proj2 (proj2 (bridge_call_response_round_trip BridgeFacts.connectedIdle
                           (JS.VStr "list_pages") (JS.VObj ∅) 0
                           (BridgeFacts.resultFrame "1" (JS.VNum 7))
                           eq_refl eq_refl eq_refl eq_refl)))). }
  split.
  { exact (proj1 (proj2 (proj2 (bridge_call_response_round_trip BridgeFacts.connectedIdle
                           (JS.VStr "list_pages") (JS.VObj ∅) 0
                           (BridgeFacts.errorFrame "1" (JS.VNum (10 ^ 21)))
                           eq_refl eq_refl eq_refl eq_refl)))). }
  exact (proj1 (proj2 (proj2 (bridge_call_response_round_trip BridgeFacts.connectedIdle
                         (JS.VStr "list_pages") (JS.VObj ∅) 0
                         Bridge.unprintableErrorFrame
                         eq_refl eq_refl eq_refl eq_refl)))).
Defined.

(** The first call on a connected bridge, whose send throws [boom]. *)
Lemma bridge_send_failure_is_contained_witness :
  let s := Bridge.run BridgeFacts.connectedIdle Bridge.initial in
  Bridge.isConnected s = true ∧ Bridge.socket s = Some 0%nat ∧
  Bridge.status (Bridge.callTool (JS.VStr "list_pages") (JS.VObj ∅) true (Some "boom") s).2
    = Bridge.status s.
Proof.
  split; [reflexivity|]. split; [reflexivity|].
  exact (proj1 (proj2 (proj2 (bridge_send_failure_is_contained BridgeFacts.connectedIdle
                                (JS.VStr "list_pages") (JS.VObj ∅) 0 "boom"
                                eq_refl eq_refl)))).
Defined.

(** A bridge with a call in flight, pointed at [ws://other]. *)
Lemma bridge_reconfigure_rejects_then_connects_witness :
  let s := Bridge.run Bridge.callInFlight Bridge.initial in
  Bridge.normalizeUrl (Some " ws://other ") = Some "ws://other" ∧
  Bridge.url s ≠ Some "ws://other" ∧
  Bridge.status (Bridge.setUrl (Some " ws://other ") None s) = Bridge.connecting.
Proof.
  split; [reflexivity|]. split; [discriminate|].
  exact (proj1 (proj2 (bridge_reconfigure_rejects_then_connects Bridge.callInFlight
                         (Some " ws://other ") "ws://other" eq_refl
                         ltac:(discriminate)))).
Defined.

(** The socket of a connected bridge closes. *)
Lemma bridge_reconnects_after_close_witness :
  let s := Bridge.run BridgeFacts.connectedIdle Bridge.initial in
  Bridge.url s = Some "ws://127.0.0.1:8080" ∧
  Bridge.status (Bridge.step Bridge.SocketClose s) = Bridge.disconnected.
Proof.
  split; [reflexivity|].
  exact (proj1 (bridge_reconnects_after_close BridgeFacts.connectedIdle
                  "ws://127.0.0.1:8080" eq_refl)).
Defined.

(** A bridge with one call in flight whose timer fires: a response to it
    arriving afterwards, also after another call has been made, changes
    nothing. *)
Lemma bridge_timeout_then_late_response_witness :
  let s := Bridge.run Bridge.callInFlight Bridge.initial in
  let s' := Bridge.timerFired 0 None s in
  let another := Bridge.DoCallTool (JS.VStr "list_pages") (JS.VObj ∅) true None in
  (Bridge.pending s !! "1" =
     Some {| Bridge.promise := 0; Bridge.timeoutId := Some 0%nat |} ∧
   (Bridge.nextId s < 2 ^ 53)%N ∧
   JS.js_String (Bridge.frameId (BridgeFacts.resultFrame "1" (JS.VNum 7))) = "1") ∧
  Bridge.outcomes 0
    (Bridge.trace
       (Bridge.run [Bridge.SocketMessage (Some (BridgeFacts.resultFrame "1" (JS.VNum 7)))]
          s')) = [Bridge.Rejected "mcp-timeout"] ∧
  Bridge.handleMessage (Some (BridgeFacts.resultFrame "1" (JS.VNum 7)))
    (Bridge.run [another] s') = Bridge.run [another] s'.
Proof.
  split; [by split_and!|].
  pose proof (bridge_timeout_then_late_response Bridge.callInFlight "1"
                {| Bridge.promise := 0; Bridge.timeoutId := Some 0%nat |} 0 None
                eq_refl eq_refl) as (_ & _ & _ & _ & _ & _ & Hfinal & Hlate & _).
  split.
  - exact (Hfinal [Bridge.SocketMessage
                     (Some (BridgeFacts.resultFrame "1" (JS.VNum 7)))]).
  - exact (Hlate eq_refl
             [Bridge.DoCallTool (JS.VStr "list_pages") (JS.VObj ∅) true None]
             (BridgeFacts.resultFrame "1" (JS.VNum 7)) eq_refl eq_refl).
Defined.

(** The plan [[{type: 'CLICK', params: {selector: '#a'}}]]. *)
Lemma executor_primitive_plan_runs_to_end_witness :
  let plan := [Exec.obj [("type", JS.VStr "CLICK");
                         ("params", Exec.obj [("selector", JS.VStr "#a")])]] in
  forallb ExecFacts.is_primitive plan = true ∧
  length (Exec.executePlan Exec.quietBackends plan (JS.VNum 1) true).1 = length plan.
Proof.
  split; [reflexivity|].
  exact (proj1 (executor_primitive_plan_runs_to_end Exec.quietBackends
                  [Exec.obj [("type", JS.VStr "CLICK");
                             ("params", Exec.obj [("selector", JS.VStr "#a")])]]
                  (JS.VNum 1) true eq_refl)).
Defined.


(** The progress notices of the plan [[shadowedUrlStep]]: the [running]
    notice has the step as given, the [completed] notice has it with
    [http://top] written into its arguments. *)
Lemma executor_progress_notices_witness :
  Exec.afterNormalize Exec.shadowedUrlStep = Exec.shadowedUrlStepAfter ∧
  ExecFacts.progressOf
    (Exec.executePlan Exec.recordingBackends [Exec.shadowedUrlStep] (JS.VNum 1) []).2.2 =
    [Exec.Running 0 Exec.shadowedUrlStep;
     Exec.Completed 0 Exec.shadowedUrlStepAfter (JS.VObj {["success" := JS.VBool true]})].
Proof.
  split; [by vm_compute|].
  exact (executor_progress_notices Exec.recordingBackends [Exec.shadowedUrlStep]
           (JS.VNum 1) []).
Defined.

(** The step [{type: 'CALL_TOOL', params: {url: 'http://a'}}], for which
    [navigate_page] is inferred, and the step [{type: 'CALL_TOOL', params:
    {tool: 'new_page', url: 'http://a'}}], which names its tool. *)
Lemma executor_inference_is_announced_witness :
  let step := Exec.callToolStep [("url", JS.VStr "http://a")] in
  let mp := Exec.mergedParamsOf step in
  (JS.str_is (JS.get step "type") "CALL_TOOL" = true ∧
   JS.truthy (Exec.toolNameOf step mp) = false ∧
   Exec.infer mp =
     Some ("navigate_page",
           <["url" := JS.VStr "http://a"]> {["type" := JS.VStr "url"]}) ∧
   JS.str_is (JS.get Exec.plainNewPageStep "type") "CALL_TOOL" = true ∧
   JS.truthy (Exec.toolNameOf Exec.plainNewPageStep
                (Exec.mergedParamsOf Exec.plainNewPageStep)) = true) ∧
  (∃ args rest,
     (Exec.stepBody Exec.quietBackends None (JS.VNum 1) 0 step (true, [])).2.2 =
       ([] ++ Exec.WarnInferred "navigate_page" step ::
              Exec.DebugResolved 0 step (JS.VStr "navigate_page") args :: rest)%list) ∧
  (∃ extra,
     (Exec.stepBody Exec.quietBackends None (JS.VNum 1) 0 Exec.plainNewPageStep
        (true, [])).2.2 = ([] ++ extra)%list ∧
     forallb (fun n => negb (ExecFacts.is_warnInferred n)) extra = true).
Proof.
  split; [by split_and!|].
  split.
  - exact (proj1 (executor_inference_is_announced Exec.quietBackends None (JS.VNum 1) 0
                    (Exec.callToolStep [("url", JS.VStr "http://a")]) (true, []) eq_refl)
                 "navigate_page"
                 (<["url" := JS.VStr "http://a"]> {["type" := JS.VStr "url"]})
                 eq_refl eq_refl).
  - exact (proj2 (executor_inference_is_announced Exec.quietBackends None (JS.VNum 1) 0
                    Exec.plainNewPageStep (true, []) eq_refl) eq_refl).
Defined.

(** A local backend that refuses every tab but tab 1, for a plan run on
    tab 1. *)
Lemma executor_acts_on_given_tab_only_witness :
  let B := Exec.recordingBackends in
  let f := fun (a : JS.Value) (w : list Exec.Request) =>
             match JS.get a "tabId" with
             | JS.VNum 1 => Exec.handleAction B a w
             | _ => (JS.VNull, w)
             end in
  let plan := [Exec.callToolStep [("url", JS.VStr "http://a")];
               Exec.obj [("type", JS.VStr "CLICK");
                         ("params", Exec.obj [("selector", JS.VStr "#a");
                                              ("tabId", JS.VNum 9)])]] in
  (∀ a w', JS.get a "tabId" = JS.VNum 1 → f a w' = Exec.handleAction B a w') ∧
  Exec.executePlan (ExecFacts.withHandleAction f B) plan (JS.VNum 1) [] =
  Exec.executePlan B plan (JS.VNum 1) [].
Proof.
  intros B f plan.
  assert (∀ a w', JS.get a "tabId" = JS.VNum 1 → f a w' = Exec.handleAction B a w') as Hf.
  { intros a w' H. unfold f. rewrite H. reflexivity. }
  split; [exact Hf|].
  exact (executor_acts_on_given_tab_only B f plan (JS.VNum 1) [] Hf).
Defined.

(** A bridge that fails for the tools served in the browser. *)
Lemma executor_local_tools_never_reach_bridge_witness :
  let B := Exec.recordingBackends in
  let g := fun (n a : JS.Value) (w : list Exec.Request) =>
             if ExecFacts.isLocalName (Exec.lnameOf n)
             then (inl "not a bridge tool", w)
             else Exec.callTool B n a w in
  let plan := [Exec.callToolStep [("tool", JS.VStr "navigate_page");
                                  ("url", JS.VStr "http://a")];
               Exec.callToolStep [("tool", JS.VStr "take_snapshot")]] in
  (∀ n a w', Exec.isConnected B w' = true →
             ExecFacts.isLocalName (Exec.lnameOf n) = false →
             g n a w' = Exec.callTool B n a w') ∧
  Exec.executePlan (ExecFacts.withCallTool g B) plan (JS.VNum 1) [] =
  Exec.executePlan B plan (JS.VNum 1) [].
Proof.
  intros B g plan.
  assert (∀ n a w', Exec.isConnected B w' = true →
                    ExecFacts.isLocalName (Exec.lnameOf n) = false →
                    g n a w' = Exec.callTool B n a w') as Hg.
  { intros n a w' _ H. unfold g. rewrite H. reflexivity. }
  split; [exact Hg|].
  exact (executor_local_tools_never_reach_bridge B g plan (JS.VNum 1) [] Hg).
Defined.

(** The answer [{verbose: true}] of the bridge to a [take_snapshot] call. *)
Lemma executor_tool_answer_is_checked_witness :
  let step := Exec.callToolStep [("tool", JS.VStr "take_snapshot");
                                 ("arguments", Exec.obj [("verbose", JS.VBool true)])] in
  let v := Exec.obj [("verbose", JS.VBool true)] in
  [step] !! 0%nat = Some step ∧
  (Exec.executePlan Exec.quietBackends [step] (JS.VNum 1) true).1 !! 0%nat =
    Some (Exec.succeeded v) ∧
  JS.str_is (JS.get step "type") "CALL_TOOL" = true ∧
  JS.truthy v = true ∧
  JS.truthy (JS.get v "isError") = false.
Proof.
  split; [reflexivity|]. split; [reflexivity|]. split; [reflexivity|].
  split; [reflexivity|].
  exact (proj1 (executor_tool_answer_is_checked Exec.quietBackends
                  [Exec.callToolStep [("tool", JS.VStr "take_snapshot");
                                      ("arguments", Exec.obj [("verbose", JS.VBool true)])]]
                  (JS.VNum 1) true 0
                  (Exec.callToolStep [("tool", JS.VStr "take_snapshot");
                                      ("arguments", Exec.obj [("verbose", JS.VBool true)])])
                  (Exec.succeeded (Exec.obj [("verbose", JS.VBool true)]))
                  (Exec.obj [("verbose", JS.VBool true)])
                  eq_refl eq_refl eq_refl eq_refl eq_refl eq_refl)).
Defined.

(** The step [{type: 'CALL_TOOL', params: {tool: 'list_pages'}}], bridge not
    connected. *)
Lemma executor_list_pages_always_succeeds_witness :
  let step := Exec.callToolStep [("tool", JS.VStr "list_pages")] in
  let rc := {| Exec.toolName := JS.VStr "list_pages"; Exec.arguments := JS.VObj ∅;
               Exec.inferred := None |} in
  JS.str_is (JS.get step "type") "CALL_TOOL" = true ∧
  Exec.resolve step = inr rc ∧
  Exec.lnameOf (Exec.toolName rc) = "list_pages" ∧
  ∃ text log,
    Exec.stepBody Exec.quietBackends None (JS.VNum 1) 0 step (false, []) =
      (inr (JS.VObj {["content" :=
              JS.VArr [JS.VObj (<["text" := JS.VStr text]> {["type" := JS.VStr "text"]})] ∅]}),
       (false, log)).
Proof.
  split; [reflexivity|]. split; [reflexivity|]. split; [reflexivity|].
  exact (executor_list_pages_always_succeeds Exec.quietBackends None (JS.VNum 1) 0
           (Exec.callToolStep [("tool", JS.VStr "list_pages")]) _ (false, [])
           eq_refl eq_refl eq_refl).
Defined.



(** A [CLICK] without [tabId] makes no call to the browser. *)
Lemma client_content_action_requires_tab_witness :
  let action := Exec.obj [("type", JS.VStr "CLICK"); ("selector", JS.VStr "#a")] in
  Client.isContentAction (JS.get action "type") = true ∧
  JS.typeof_number (JS.get action "tabId") = false ∧
  Client.handleAction Client.countingChrome action 0%nat =
    (Client.failure "tab-id-required", 0%nat).
Proof.
  split; [reflexivity|]. split; [reflexivity|].
  exact (client_content_action_requires_tab Client.countingChrome
           (Exec.obj [("type", JS.VStr "CLICK"); ("selector", JS.VStr "#a")]) 0%nat
           eq_refl eq_refl).
Defined.

(** A [NAVIGATE] of tab 3 whose page does not finish loading in time. *)
Lemma client_navigate_reports_update_only_witness :
  let action := Exec.obj [("type", JS.VStr "NAVIGATE"); ("url", JS.VStr "http://a");
                          ("tabId", JS.VNum 3)] in
  JS.str_is (JS.get action "type") "NAVIGATE" = true ∧
  (Client.waitForTabLoad Client.countingChrome (JS.VNum 3) 1%nat).1 =
    inl "navigation-timeout" ∧
  (Client.handleAction Client.countingChrome action 0%nat).1 = Client.succeededWith ∅.
Proof.
  split; [reflexivity|]. split; [reflexivity|].
  exact (client_navigate_reports_update_only Client.countingChrome
           (Exec.obj [("type", JS.VStr "NAVIGATE"); ("url", JS.VStr "http://a");
                      ("tabId", JS.VNum 3)]) 0%nat eq_refl).
Defined.

(** Two [CLICK] actions that differ in a field [note]. *)
Lemma client_ignores_other_fields_witness :
  let a := Exec.obj [("type", JS.VStr "CLICK"); ("selector", JS.VStr "#a");
                     ("tabId", JS.VNum 3); ("note", JS.VStr "x")] in
  let a' := Exec.obj [("type", JS.VStr "CLICK"); ("selector", JS.VStr "#a");
                      ("tabId", JS.VNum 3)] in
  JS.nullish a = false ∧ JS.nullish a' = false ∧
  (∀ k, k ∈ Client.actionFields → JS.get a k = JS.get a' k) ∧
  Client.handleAction Client.countingChrome a 0%nat =
  Client.handleAction Client.countingChrome a' 0%nat.
Proof.
  intros a a'.
  assert (∀ k, k ∈ Client.actionFields → JS.get a k = JS.get a' k) as Hk.
  { intros k Hk. unfold Client.actionFields in Hk.
    repeat (apply elem_of_cons in Hk as [->|Hk]; [reflexivity|]).
    by apply elem_of_nil in Hk. }
  split; [reflexivity|]. split; [reflexivity|]. split; [exact Hk|].
  exact (client_ignores_other_fields Client.countingChrome a a' 0%nat eq_refl eq_refl Hk).
Defined.

(** Two clicks and no tab. *)
Lemma executor_content_steps_without_tab_witness :
  let plan := [Exec.obj [("type", JS.VStr "CLICK");
                         ("params", Exec.obj [("selector", JS.VStr "#a")])];
               Exec.obj [("type", JS.VStr "FILL");
                         ("params", Exec.obj [("selector", JS.VStr "#b");
                                              ("value", JS.VStr "x")])]] in
  JS.typeof_number JS.VUndef = false ∧
  forallb (λ step, ExecFacts.is_primitive step &&
                   Client.isContentAction (JS.get step "type")) plan = true ∧
  (Exec.executePlan (Client.backends Client.countingChrome Client.noBridge) plan
     JS.VUndef 0%nat).2.1 = 0%nat.
Proof.
  split; [reflexivity|]. split; [reflexivity|].
  exact (proj2 (executor_content_steps_without_tab Client.countingChrome Client.noBridge
                  [Exec.obj [("type", JS.VStr "CLICK");
                             ("params", Exec.obj [("selector", JS.VStr "#a")])];
                   Exec.obj [("type", JS.VStr "FILL");
                             ("params", Exec.obj [("selector", JS.VStr "#b");
                                                  ("value", JS.VStr "x")])]]
                  JS.VUndef 0%nat eq_refl eq_refl)).
Defined.

(** The step [{type: 'CALL_TOOL', params: {tool: 'click'}}]. *)
Lemma popup_label_names_the_tool_run_witness :
  let step := Exec.callToolStep [("tool", JS.VStr "click")] in
  JS.str_is (JS.get step "type") "CALL_TOOL" = true ∧
  JS.truthy (Popup.describedTool step) = true ∧
  JS.truthy (JS.get (Exec.mergedParamsOf step) "tool_name") = false ∧
  Popup.describePlanStep step = inr (JS.VStr "CALL_TOOL (click)") ∧
  Exec.toolNameOf step (Exec.mergedParamsOf step) = JS.VStr "click".
Proof.
  split; [reflexivity|]. split; [reflexivity|]. split; [reflexivity|].
  exact (proj1 (popup_label_names_the_tool_run
                  (Exec.callToolStep [("tool", JS.VStr "click")]))
           eq_refl eq_refl eq_refl).
Defined.
